(** * Read transports and live fan-out of the zone configurator backend

    A shallow embedding of [ha/restReadTransport.js], [ha/wsReadTransport.js],
    [ha/transportFactory.js] and [routes/liveWs.js].

    Conventions of the embedding:
    - a JS [Map] is an insertion-ordered association list ([JsMap]); a JS
      [Set] of entity ids whose order is never observed is a [gset string];
    - an [async] function that awaits one network answer takes that answer
      as an argument; a rejected promise or a thrown exception is [Throw];
    - callbacks registered by subscribers are opaque: a subscription stores a
      callback reference, and the section variable [cb] gives the behaviour of
      every reference on the subscriber's own state [W] (returning normally or
      throwing). Callbacks are taken not to re-enter the transport;
    - [logger.warn] and [logger.error] calls are kept as [Log] effects;
      [logger.info] and [logger.debug] calls are left out. *)

From stdpp Require Import gmap strings list pretty.
From Stdlib Require Import NArith Ascii.

Set Warnings "-clear-no-such-hyp".

(** ** JS [Map]: insertion-ordered association list *)

Module JsMap.
Section defs.
Context {K : Type} `{EqDecision K} {V : Type}.

Definition t : Type := list (K * V).

Definition empty : t := [].

Fixpoint get (k : K) (m : t) : option V :=
    match m with
    | [] => None
    | (k', v) :: m' => if decide (k = k') then Some v else get k m'
    end.

Definition has (k : K) (m : t) : bool := bool_decide (is_Some (get k m)).

  (** [Map.prototype.set]: an existing key keeps its position and takes the
      new value; a new key goes to the end. *)
Fixpoint set (k : K) (v : V) (m : t) : t :=
    match m with
    | [] => [(k, v)]
    | (k', v') :: m' =>
        if decide (k = k') then (k, v) :: m' else (k', v') :: set k v m'
    end.

Fixpoint delete (k : K) (m : t) : t :=
    match m with
    | [] => []
    | (k', v') :: m' =>
        if decide (k = k') then m' else (k', v') :: delete k m'
    end.

Definition keys (m : t) : list K := m.*1.
Definition values (m : t) : list V := m.*2.
Definition size (m : t) : nat := length m.
End defs.
Arguments t : clear implicits.
End JsMap.

(** ** Home Assistant state records *)

Record HassState := {
  entity_id : string;
  state : string;
  attributes : list (string * string);
  last_changed : string;
  last_updated : string;
}.

Global Instance HassState_eq_dec : EqDecision HassState.
Proof. solve_decision. Defined.

(** ** Results, effects and the exception/log monad *)

Inductive Result (A : Type) : Type :=
  | Ok (a : A)
  | Throw (err : string).
Arguments Ok {A} a.
Arguments Throw {A} err.

Inductive Level := Warn | Error.

Inductive Outcome := Returned | Threw (err : string).

(** Answers of the state queries of a transport. *)
Inductive Answer :=
  | AnsAll (l : list HassState)
  | AnsMap (m : JsMap.t string HassState)
  | AnsOne (o : option HassState).

(** A command sent on the streaming channel: [{ id, type, ...fields }]. *)
Record Command := {
  cmd_type : string;
  cmd_fields : list (string * string);
}.

(** Messages of the downstream fan-out protocol (server to client). *)
Inductive LiveMsg :=
  | MsgStateUpdate (entityId : string) (st : string)
      (attrs : list (string * string)) (timestamp : N)
  | MsgSubscribed (deviceId profileId : string) (entities : list string)
      (initialStates : option (list (string * (string * list (string * string)))))
      (hasMappings : bool)
  | MsgWarning (code message deviceId : string)
  | MsgError (error : string).

Inductive Effect :=
  | Log (lvl : Level) (msg : string) (detail : string)
  (* subscription.callback(entityId, newState, oldState) *)
  | Invoke (subscriptionId : string) (callback : nat) (entityId : string)
      (newState oldState : option HassState)
  (* streaming transport *)
  | SocketNew (sock : nat) (url : string)
  | SocketSend (sock : nat) (id : option N) (c : Command)
  | SocketClose (sock : nat)
  | ConnectSettled (sock : nat) (r : Result unit)
  | PendingResolved (id : N)
  | PendingRejected (id : N) (err : string)
  | QuerySettled (tag : nat) (r : Result Answer)
  | TimerSet (kind : string) (handle : N)
  | TimerCleared (kind : string) (handle : N)
  (* a promise rejected while no handler is attached to it *)
  | UnhandledRejection (err : string)
  (* fan-out server *)
  | ClientSend (client : nat) (m : LiveMsg).

(** Whether a turn of the event loop leaves a rejection unhandled.  Node
    (from version 15, and the code needs the global [fetch] of version 18)
    then raises the rejection as an uncaught exception once the continuations
    of the turn have run; the sources install no handler for it, so the
    process ends and no later turn runs. *)
Definition exits (eff : list Effect) : bool :=
  existsb (λ e, match e with
                | UnhandledRejection _ => true
                | _ => false
                end) eff.

Definition Comp (A : Type) : Type := list Effect * Result A.

Global Instance comp_ret : MRet Comp := λ A a, ([], Ok a).
Global Instance comp_bind : MBind Comp := λ A B k m,
  match m with
  | (l, Ok a) => let '(l', r) := k a in (l ++ l', r)
  | (l, Throw e) => (l, Throw e)
  end.

Definition throw {A} (e : string) : Comp A := ([], Throw e).
Definition emit (e : Effect) : Comp unit := ([e], Ok tt).
Definition await {A} (r : Result A) : Comp A := ([], r).

(** [try { body } catch (err) { handler err }] *)
Definition try_catch {A} (body : Comp A) (handler : string → Comp A) : Comp A :=
  match body with
  | (l, Ok a) => (l, Ok a)
  | (l, Throw e) => let '(l', r) := handler e in (l ++ l', r)
  end.

(** ** HTTP answers seen by the polling transport *)

Record Response (A : Type) := {
  status : N;
  json : Result A;        (* await res.json() *)
  text : Result string;   (* await res.text() *)
}.
Arguments status {A} _.
Arguments json {A} _.
Arguments text {A} _.

(** [res.ok]: the status is in the range 200-299. *)
Definition ok {A} (res : Response A) : bool :=
  (200 <=? status res)%N && (status res <=? 299)%N.

(** The settled promise of [fetch(url, ...)]. *)
Definition Fetched (A : Type) : Type := Result (Response A).

(** ** The string operations the URL code uses *)

(** [s.replace(/\/+$/, '')]: the trailing run of slashes is dropped. *)
Fixpoint stripTrailingSlashes (s : string) : string :=
  match s with
  | EmptyString => EmptyString
  | String a rest =>
      match stripTrailingSlashes rest with
      | EmptyString =>
          if Ascii.eqb a "/"%char then EmptyString else String a EmptyString
      | r => String a r
      end
  end.

(** [s.startsWith(p)], with what follows [p]. *)
Fixpoint dropPrefix (p s : string) : option string :=
  match p with
  | EmptyString => Some s
  | String a p' =>
      match s with
      | EmptyString => None
      | String b s' => if Ascii.eqb a b then dropPrefix p' s' else None
      end
  end.

Definition startsWith (p s : string) : bool :=
  bool_decide (is_Some (dropPrefix p s)).

(** [s.endsWith(p)], with what precedes [p]. *)
Fixpoint dropSuffix (p s : string) : option string :=
  if decide (s = p) then Some EmptyString
  else match s with
       | EmptyString => None
       | String a rest => String a <$> dropSuffix p rest
       end.

Definition endsWith (p s : string) : bool :=
  bool_decide (is_Some (dropSuffix p s)).

(** The constructors of [RestReadTransport] and [HaWriteClient], and
    [testRestConnection], all bring the configured base URL to the same form:
    [baseUrl.replace(/\/+$/, '')], then [/api] appended unless it is there. *)
Definition apiBase (configBaseUrl : string) : string :=
  let baseUrl := stripTrailingSlashes configBaseUrl in
  if negb (endsWith "/api" baseUrl) then baseUrl +:+ "/api" else baseUrl.

(** [buildUrl(path)] of both REST clients. *)
Definition buildUrl (baseUrl path : string) : string :=
  let normalized := if startsWith "/" path then path else "/" +:+ path in
  baseUrl +:+ normalized.

(** ** Code shared by the two transports *)

(** The loop of [getStates] (the same in both transports):
    [for (const state of allStates) if (entityIdSet.has(state.entity_id))
       result.set(state.entity_id, state)]. *)
Fixpoint selectStates (entityIds : list string) (allStates : list HassState)
    (result : JsMap.t string HassState) : JsMap.t string HassState :=
  match allStates with
  | [] => result
  | st :: rest =>
      selectStates entityIds rest
        (if bool_decide (entity_id st ∈ entityIds)
         then JsMap.set (entity_id st) st result
         else result)
  end.

Section callbacks.
Context {W : Type}.
  (** Behaviour of the registered callbacks on the subscribers' state. *)
Variable cb :
    nat → string → option HassState → option HassState → W → W * Outcome.

  (** [try { subscription.callback(entityId, newState, oldState) }
       catch (err) { logger.error({ err, subscriptionId }, msg) }] *)
Definition invoke (msg subscriptionId : string) (callback : nat)
      (entityId : string) (newState oldState : option HassState) (w : W)
      : W * list Effect :=
    let '(w', out) := cb callback entityId newState oldState w in
    (w', Invoke subscriptionId callback entityId newState oldState ::
         match out with
         | Returned => []
         | Threw _ => [Log Error msg subscriptionId]
         end).
End callbacks.

(** ** The polling transport, [RestReadTransport] *)

Module Rest.

Record Subscription := {
  id : string;
  entityIds : gset string;
  callback : nat;
  lastStates : gmap string HassState;
}.

Record State := {
  subscriptions : JsMap.t string Subscription;
  pollingTimer : bool;      (* an interval timer is armed *)
  isConnected : bool;
}.

(** [new RestReadTransport(config, pollingInterval)] *)
Definition init : State :=
  {| subscriptions := []; pollingTimer := false; isConnected := false |}.

Definition connect (st : State) (net : Fetched unit) : Comp State :=
  try_catch
    (res ← await net;
     if negb (ok res) then
       txt ← await (text res);
       throw ("REST API health check failed: " +:+ pretty (status res)
              +:+ " - " +:+ txt)
     else
       mret {| subscriptions := subscriptions st;
               pollingTimer := pollingTimer st;
               isConnected := true |})
    (λ err,
       emit (Log Error "RestReadTransport: Failed to connect" err);;
       throw err).

Definition getState (entityId : string) (net : Fetched HassState)
    : Comp (option HassState) :=
  try_catch
    (res ← await net;
     if negb (ok res) then
       if (status res =? 404)%N then mret None
       else
         txt ← await (text res);
         throw ("Failed to get state: " +:+ pretty (status res)
                +:+ " - " +:+ txt)
     else
       st ← await (json res);
       mret (Some st))
    (λ err,
       emit (Log Warn "RestReadTransport: Failed to get entity state" entityId);;
       mret None).

Definition getAllStates (net : Fetched (list HassState))
    : Comp (list HassState) :=
  try_catch
    (res ← await net;
     if negb (ok res) then
       txt ← await (text res);
       throw ("Failed to get all states: " +:+ pretty (status res)
              +:+ " - " +:+ txt)
     else await (json res))
    (λ err,
       emit (Log Error "RestReadTransport: Failed to get all states" err);;
       mret []).

Definition getStates (entityIds : list string) (net : Fetched (list HassState))
    : Comp (JsMap.t string HassState) :=
  allStates ← getAllStates net;
  mret (selectStates entityIds allStates []).

Definition stateChanged (oldState newState : HassState) : bool :=
  (* Compare state value *)
  if bool_decide (state oldState ≠ state newState) then true
  (* Compare last_updated timestamp *)
  else if bool_decide (last_updated oldState ≠ last_updated newState) then true
  else false.

Definition set_lastStates (m : gmap string HassState) (sub : Subscription)
    : Subscription :=
  {| id := id sub; entityIds := entityIds sub; callback := callback sub;
     lastStates := m |}.

Definition set_subscriptions (subs : JsMap.t string Subscription) (st : State)
    : State :=
  {| subscriptions := subs; pollingTimer := pollingTimer st;
     isConnected := isConnected st |}.

Definition set_pollingTimer (b : bool) (st : State) : State :=
  {| subscriptions := subscriptions st; pollingTimer := b;
     isConnected := isConnected st |}.

Definition stopPolling (st : State) : State :=
  if pollingTimer st then set_pollingTimer false st else st.

Definition disconnect (st : State) : State :=
  {| subscriptions := subscriptions (stopPolling st);
     pollingTimer := pollingTimer (stopPolling st);
     isConnected := false |}.

Definition unsubscribe (subscriptionId : string) (st : State) : State :=
  let st' := set_subscriptions (JsMap.delete subscriptionId (subscriptions st)) st in
  if bool_decide (JsMap.size (subscriptions st') = 0) then stopPolling st'
  else st'.

Definition unsubscribeAll (st : State) : State :=
  stopPolling (set_subscriptions [] st).

(** The first loop of [pollStates]: the union of the filters, emptied (and the
    loop left) at the first subscription that wants every entity. *)
Fixpoint collectEntityIds (subs : list Subscription) (allEntityIds : gset string)
    : gset string :=
  match subs with
  | [] => allEntityIds
  | sub :: rest =>
      if bool_decide (size (entityIds sub) = 0) then ∅
      else collectEntityIds rest (allEntityIds ∪ entityIds sub)
  end.

(** The states a tick works on: every state when some subscription wants all
    entities, the states of the wanted entities otherwise. Both go through one
    fetch of [/states]. *)
Definition fetchStates (allEntityIds : gset string)
    (net : Fetched (list HassState)) : Comp (list HassState) :=
  if bool_decide (size allEntityIds = 0) then getAllStates net
  else
    stateMap ← getStates (elements allEntityIds) net;
    mret (JsMap.values stateMap).

Section polling.
Context {W : Type}.
Variable cb :
    nat → string → option HassState → option HassState → W → W * Outcome.

  (** Body of the inner loop of [pollStates], for one new record. *)
Definition notify (sub : Subscription) (w : W) (newState : HassState)
      : Subscription * W * list Effect :=
    let oldState := lastStates sub !! entity_id newState in
    let '(w', eff) :=
      if match oldState with
         | None => true
         | Some o => stateChanged o newState
         end
      then invoke cb "RestReadTransport: Subscription callback error"
             (id sub) (callback sub) (entity_id newState) (Some newState)
             oldState w
      else (w, []) in
    (set_lastStates (<[entity_id newState := newState]> (lastStates sub)) sub,
     w', eff).

Fixpoint notifyAll (sub : Subscription) (w : W) (relevantStates : list HassState)
      : Subscription * W * list Effect :=
    match relevantStates with
    | [] => (sub, w, [])
    | newState :: rest =>
        let '(sub1, w1, e1) := notify sub w newState in
        let '(sub2, w2, e2) := notifyAll sub1 w1 rest in
        (sub2, w2, e1 ++ e2)
    end.

Definition relevantStates (sub : Subscription) (states : list HassState)
      : list HassState :=
    if bool_decide (size (entityIds sub) = 0) then states
    else filter (λ s, entity_id s ∈ entityIds sub) states.

  (** The loop over [this.subscriptions.values()]; every subscription object
      is updated in place, so keys and order are kept. *)
Fixpoint pollSubscriptions (states : list HassState)
      (subs : JsMap.t string Subscription) (w : W)
      : JsMap.t string Subscription * W * list Effect :=
    match subs with
    | [] => ([], w, [])
    | (k, sub) :: rest =>
        let '(sub', w1, e1) := notifyAll sub w (relevantStates sub states) in
        let '(rest', w2, e2) := pollSubscriptions states rest w1 in
        ((k, sub') :: rest', w2, e1 ++ e2)
    end.

  (** [pollStates]; the lookup map built "for quick lookup" after the fetch is
      never read by the source and is left out. *)
Definition pollStates (st : State) (net : Fetched (list HassState)) (w : W)
      : State * W * Comp unit :=
    if bool_decide (JsMap.size (subscriptions st) = 0) then (st, w, mret ())
    else
      let allEntityIds := collectEntityIds (JsMap.values (subscriptions st)) ∅ in
      match fetchStates allEntityIds net with
      | (log, Throw err) => (st, w, (log, Throw err))
      | (log, Ok states) =>
          let '(subs', w', eff) := pollSubscriptions states (subscriptions st) w in
          (set_subscriptions subs' st, w', (log ++ eff, Ok ()))
      end.

  (** One firing of the interval timer (and the immediate first poll):
      [this.pollStates().catch(err => logger.error(...))]. *)
Definition tick (st : State) (net : Fetched (list HassState)) (w : W)
      : State * W * list Effect :=
    let '(st', w', (eff, r)) := pollStates st net w in
    (st', w', eff ++ match r with
                     | Ok _ => []
                     | Throw err => [Log Error "RestReadTransport: Polling error" err]
                     end).

End polling.

(** [subscribeToStateChanges] without the immediate poll that [startPolling]
    launches when no timer is armed yet: that poll is the [tick] that follows
    when [startsPolling] says so. The id is the fresh [uuid.v4()]. *)
Definition startsPolling (st : State) : bool := negb (pollingTimer st).

Definition subscribeToStateChanges (subscriptionId : string)
    (ids : list string) (callbackRef : nat) (st : State) : State :=
  {| subscriptions :=
       JsMap.set subscriptionId
         {| id := subscriptionId; entityIds := list_to_set ids;
            callback := callbackRef; lastStates := ∅ |}
         (subscriptions st);
     pollingTimer := true;
     isConnected := isConnected st |}.

(** The URLs the polling transport fetches: [connect] the API root, the
    state queries [/states] and [/states/<entityId>]. *)
Definition healthUrl (configBaseUrl : string) : string :=
  buildUrl (apiBase configBaseUrl) "/".

Definition statesUrl (configBaseUrl : string) : string :=
  buildUrl (apiBase configBaseUrl) "/states".

Definition stateUrl (configBaseUrl entityId : string) : string :=
  buildUrl (apiBase configBaseUrl) ("/states/" +:+ entityId).

(** The calls a client makes on a transport, and the firings of its interval
    timer (each with the answer its fetch gets). *)
Inductive Op :=
  | OpSubscribe (subscriptionId : string) (ids : list string) (callbackRef : nat)
  | OpUnsubscribe (subscriptionId : string)
  | OpUnsubscribeAll
  | OpTick (net : Fetched (list HassState)).

Section session.
Context {W : Type}.
Variable cb :
    nat → string → option HassState → option HassState → W → W * Outcome.

Definition apply (op : Op) (st : State) (w : W) : State * W * list Effect :=
    match op with
    | OpSubscribe subscriptionId ids callbackRef =>
        (subscribeToStateChanges subscriptionId ids callbackRef st, w, [])
    | OpUnsubscribe subscriptionId => (unsubscribe subscriptionId st, w, [])
    | OpUnsubscribeAll => (unsubscribeAll st, w, [])
    | OpTick net => tick cb st net w
    end.

Fixpoint run (ops : list Op) (st : State) (w : W) : State * W * list Effect :=
    match ops with
    | [] => (st, w, [])
    | op :: rest =>
        let '(st1, w1, e1) := apply op st w in
        let '(st2, w2, e2) := run rest st1 w1 in
        (st2, w2, e1 ++ e2)
    end.
End session.

End Rest.

(** ** The streaming transport, [WsReadTransport]

    The transport is event driven.  Its state is the fields of the object
    together with what the closures of every [connect()] call hold (one
    [Attempt] per socket) and the reconnect timers it armed.  An [Event] is one
    turn of the event loop: a socket or timer callback, or a call of the public
    interface.  The continuations that the source leaves behind an [await] are
    first-order data ([Waiter], [Caller]); they run as jobs at the end of the
    turn that settles their promise, in the order they were queued. *)

Module Ws.

Inductive ReadyState := CONNECTING | OPEN | CLOSING | CLOSED.

Global Instance ReadyState_eq_dec : EqDecision ReadyState.
Proof. solve_decision. Defined.

(** What one [connect()] call owns: its socket's [readyState] (kept by the
    [ws] library), its [connectionTimeout], the promise it returned, and
    whether the reconnect timer made the call (its rejection is then logged
    by the [.catch] of the close handler). *)
Record Attempt := {
  readyState : ReadyState;
  timeoutArmed : bool;
  settled : option (Result unit);
  isReconnect : bool;
}.

Record Subscription := {
  id : string;
  entityIds : gset string;
  callback : nat;
}.

(** The state queries; [tag] below names the promise handed to the caller. *)
Inductive Query :=
  | QAllStates
  | QStates (ids : list string)
  | QState (entityId : string).

(** Who awaits the answer to a command: a state query, or
    [activateStateSubscription]. *)
Inductive Caller :=
  | CallerQuery (q : Query) (tag : nat)
  | CallerActivate.

(** Who awaits [waitUntilReady()]: [call(command)] on behalf of a caller, or
    [activateStateSubscription] before its own [call]. *)
Inductive Waiter :=
  | WaitCall (cmd : Command) (who : Caller)
  | WaitActivate.

Inductive Promise :=
  | Pending (waiters : list Waiter)
  | Fulfilled
  | Rejected (err : string).

Record EventData := {
  ev_entity_id : string;
  old_state : option HassState;
  new_state : option HassState;
}.

(** A parsed inbound message, by the fields the transport reads. *)
Record Parsed := {
  m_type : string;                          (* parsed.type, "" when absent *)
  m_id : option N;                          (* 'id' in parsed *)
  m_message : option string;                (* parsed.message *)
  m_success : bool;                         (* parsed.success *)
  m_result : option (list HassState);       (* parsed.result *)
  m_event : option (string * EventData);    (* event_type and data *)
}.

Record State := {
  token : string;                           (* this.config.token *)
  nextId : N;
  pending : JsMap.t N Caller;
  subscriptions : JsMap.t string Subscription;
  isConnected : bool;
  stateSubscriptionActive : bool;
  socket : option nat;                      (* this.socket *)
  readyPromise : Promise;
  reconnectTimeout : option nat;            (* this.reconnectTimeout *)
  attempts : gmap nat Attempt;
  nextSocket : nat;
  timers : gset nat;                        (* armed reconnect timers *)
  nextTimer : nat;
}.

(** [new WsReadTransport(config)] *)
Definition init (tok : string) : State :=
  {| token := tok; nextId := 1; pending := []; subscriptions := [];
     isConnected := false; stateSubscriptionActive := false;
     socket := None; readyPromise := Pending []; reconnectTimeout := None;
     attempts := ∅; nextSocket := 0; timers := ∅; nextTimer := 0 |}.

Definition set_nextId (v : N) (s : State) : State :=
  {| token := token s; nextId := v; pending := pending s;
     subscriptions := subscriptions s; isConnected := isConnected s;
     stateSubscriptionActive := stateSubscriptionActive s; socket := socket s;
     readyPromise := readyPromise s; reconnectTimeout := reconnectTimeout s;
     attempts := attempts s; nextSocket := nextSocket s; timers := timers s;
     nextTimer := nextTimer s |}.

Definition set_pending (v : JsMap.t N Caller) (s : State) : State :=
  {| token := token s; nextId := nextId s; pending := v;
     subscriptions := subscriptions s; isConnected := isConnected s;
     stateSubscriptionActive := stateSubscriptionActive s; socket := socket s;
     readyPromise := readyPromise s; reconnectTimeout := reconnectTimeout s;
     attempts := attempts s; nextSocket := nextSocket s; timers := timers s;
     nextTimer := nextTimer s |}.

Definition set_subscriptions (v : JsMap.t string Subscription) (s : State)
    : State :=
  {| token := token s; nextId := nextId s; pending := pending s;
     subscriptions := v; isConnected := isConnected s;
     stateSubscriptionActive := stateSubscriptionActive s; socket := socket s;
     readyPromise := readyPromise s; reconnectTimeout := reconnectTimeout s;
     attempts := attempts s; nextSocket := nextSocket s; timers := timers s;
     nextTimer := nextTimer s |}.

Definition set_isConnected (v : bool) (s : State) : State :=
  {| token := token s; nextId := nextId s; pending := pending s;
     subscriptions := subscriptions s; isConnected := v;
     stateSubscriptionActive := stateSubscriptionActive s; socket := socket s;
     readyPromise := readyPromise s; reconnectTimeout := reconnectTimeout s;
     attempts := attempts s; nextSocket := nextSocket s; timers := timers s;
     nextTimer := nextTimer s |}.

Definition set_stateSubscriptionActive (v : bool) (s : State) : State :=
  {| token := token s; nextId := nextId s; pending := pending s;
     subscriptions := subscriptions s; isConnected := isConnected s;
     stateSubscriptionActive := v; socket := socket s;
     readyPromise := readyPromise s; reconnectTimeout := reconnectTimeout s;
     attempts := attempts s; nextSocket := nextSocket s; timers := timers s;
     nextTimer := nextTimer s |}.

Definition set_socket (v : option nat) (s : State) : State :=
  {| token := token s; nextId := nextId s; pending := pending s;
     subscriptions := subscriptions s; isConnected := isConnected s;
     stateSubscriptionActive := stateSubscriptionActive s; socket := v;
     readyPromise := readyPromise s; reconnectTimeout := reconnectTimeout s;
     attempts := attempts s; nextSocket := nextSocket s; timers := timers s;
     nextTimer := nextTimer s |}.

Definition set_readyPromise (v : Promise) (s : State) : State :=
  {| token := token s; nextId := nextId s; pending := pending s;
     subscriptions := subscriptions s; isConnected := isConnected s;
     stateSubscriptionActive := stateSubscriptionActive s; socket := socket s;
     readyPromise := v; reconnectTimeout := reconnectTimeout s;
     attempts := attempts s; nextSocket := nextSocket s; timers := timers s;
     nextTimer := nextTimer s |}.

Definition set_reconnectTimeout (v : option nat) (s : State) : State :=
  {| token := token s; nextId := nextId s; pending := pending s;
     subscriptions := subscriptions s; isConnected := isConnected s;
     stateSubscriptionActive := stateSubscriptionActive s; socket := socket s;
     readyPromise := readyPromise s; reconnectTimeout := v;
     attempts := attempts s; nextSocket := nextSocket s; timers := timers s;
     nextTimer := nextTimer s |}.

Definition set_attempts (v : gmap nat Attempt) (s : State) : State :=
  {| token := token s; nextId := nextId s; pending := pending s;
     subscriptions := subscriptions s; isConnected := isConnected s;
     stateSubscriptionActive := stateSubscriptionActive s; socket := socket s;
     readyPromise := readyPromise s; reconnectTimeout := reconnectTimeout s;
     attempts := v; nextSocket := nextSocket s; timers := timers s;
     nextTimer := nextTimer s |}.

Definition set_nextSocket (v : nat) (s : State) : State :=
  {| token := token s; nextId := nextId s; pending := pending s;
     subscriptions := subscriptions s; isConnected := isConnected s;
     stateSubscriptionActive := stateSubscriptionActive s; socket := socket s;
     readyPromise := readyPromise s; reconnectTimeout := reconnectTimeout s;
     attempts := attempts s; nextSocket := v; timers := timers s;
     nextTimer := nextTimer s |}.

Definition set_timers (v : gset nat) (s : State) : State :=
  {| token := token s; nextId := nextId s; pending := pending s;
     subscriptions := subscriptions s; isConnected := isConnected s;
     stateSubscriptionActive := stateSubscriptionActive s; socket := socket s;
     readyPromise := readyPromise s; reconnectTimeout := reconnectTimeout s;
     attempts := attempts s; nextSocket := nextSocket s; timers := v;
     nextTimer := nextTimer s |}.

Definition set_nextTimer (v : nat) (s : State) : State :=
  {| token := token s; nextId := nextId s; pending := pending s;
     subscriptions := subscriptions s; isConnected := isConnected s;
     stateSubscriptionActive := stateSubscriptionActive s; socket := socket s;
     readyPromise := readyPromise s; reconnectTimeout := reconnectTimeout s;
     attempts := attempts s; nextSocket := nextSocket s; timers := timers s;
     nextTimer := v |}.

(** [this.nextId++] on a JS number: exact below 2^53, where adding one stops
    changing the value. *)
Definition incr (n : N) : N := if (n <? 2 ^ 53)%N then (n + 1)%N else n.

Definition subscribeCmd : Command :=
  {| cmd_type := "subscribe_events";
     cmd_fields := [("event_type", "state_changed")] |}.
Definition getStatesCmd : Command :=
  {| cmd_type := "get_states"; cmd_fields := [] |}.
Definition authCmd (tok : string) : Command :=
  {| cmd_type := "auth"; cmd_fields := [("access_token", tok)] |}.

Definition closedErr : string := "WebSocket connection closed".
Definition timedOutErr : string := "WS request timed out".
Definition authErr (msg : string) : string := "Auth invalid: " +:+ msg.
Definition subscribeFailed : string :=
  "WsReadTransport: Failed to subscribe to state_changed".

(** The URL of the socket, built in [connect()]:
    [baseUrl.replace(/\/api\/?$/, '')], then [.replace(/^http/, 'ws')], then
    [/api/websocket] appended. *)
Definition url (configBaseUrl : string) : string :=
  let base :=
    match dropSuffix "/api/" configBaseUrl with
    | Some b => b
    | None => default configBaseUrl (dropSuffix "/api" configBaseUrl)
    end in
  let wsBase :=
    match dropPrefix "http" base with
    | Some rest => "ws" +:+ rest
    | None => base
    end in
  wsBase +:+ "/api/websocket".

(** A continuation made runnable in this turn of the event loop. *)
Inductive Job :=
  | JobReady (wt : Waiter) (r : Result unit)      (* after [await waitUntilReady()] *)
  | JobAnswer (who : Caller) (r : Result Parsed). (* after [await this.call(...)] *)

Definition set_attempt (c : nat) (a : Attempt) (s : State) : State :=
  set_attempts (<[c := a]> (attempts s)) s.

(** [this.socket] when it is set and its [readyState] is [OPEN]. *)
Definition openSocket (s : State) : option nat :=
  match socket s with
  | Some c =>
      match attempts s !! c with
      | Some a => if decide (readyState a = OPEN) then Some c else None
      | None => None
      end
  | None => None
  end.

Definition sendRaw (oid : option N) (cmd : Command) (s : State) : list Effect :=
  match openSocket s with
  | Some c => [SocketSend c oid cmd]
  | None => [Log Warn "WsReadTransport: Socket not open, dropping message" ""]
  end.

(** [call(command)] after its [await this.waitUntilReady()]: take the next id,
    register the pending request, send, arm the 10 s request timer. *)
Definition issue (cmd : Command) (who : Caller) (s : State)
    : State * list Effect :=
  let id := nextId s in
  let s' := set_pending (JsMap.set id who (pending s)) (set_nextId (incr id) s) in
  (s', sendRaw (Some id) cmd s' ++ [TimerSet "request" id]).

(** [call(command)] up to its [await this.waitUntilReady()]. *)
Definition call (cmd : Command) (who : Caller) (s : State)
    : State * list Job :=
  match readyPromise s with
  | Pending ws => (set_readyPromise (Pending (ws ++ [WaitCall cmd who])) s, [])
  | Fulfilled => (s, [JobReady (WaitCall cmd who) (Ok ())])
  | Rejected err => (s, [JobReady (WaitCall cmd who) (Throw err)])
  end.

(** [activateStateSubscription] up to its [await this.waitUntilReady()]. *)
Definition activateStateSubscription (s : State) : State * list Job :=
  if stateSubscriptionActive s then (s, [])
  else
    match readyPromise s with
    | Pending ws => (set_readyPromise (Pending (ws ++ [WaitActivate])) s, [])
    | Fulfilled => (s, [JobReady WaitActivate (Ok ())])
    | Rejected err => (s, [JobReady WaitActivate (Throw err)])
    end.

(** [getAllStates] after its [await this.call({ type: 'get_states' })]. *)
Definition getAllStates (response : Parsed) : list Effect * list HassState :=
  if bool_decide (m_type response = "result") && m_success response
  then ([], default [] (m_result response))
  else ([Log Warn "WsReadTransport: Unexpected response when getting states" ""],
        []).

(** [getStates] and [getState] after [getAllStates] has returned. *)
Definition getStates (ids : list string) (allStates : list HassState)
    : JsMap.t string HassState :=
  selectStates ids allStates [].

Definition getState (entityId : string) (allStates : list HassState)
    : option HassState :=
  JsMap.get entityId (getStates [entityId] allStates).

Definition answer (q : Query) (allStates : list HassState) : Answer :=
  match q with
  | QAllStates => AnsAll allStates
  | QStates ids => AnsMap (getStates ids allStates)
  | QState entityId => AnsOne (getState entityId allStates)
  end.

(** The caller's code behind [await this.call(...)]. *)
Definition answerTo (who : Caller) (r : Result Parsed) (s : State)
    : State * list Effect :=
  match who, r with
  | CallerActivate, Ok _ => (set_stateSubscriptionActive true s, [])
  | CallerActivate, Throw err => (s, [Log Error subscribeFailed err])
  | CallerQuery q tag, Ok response =>
      let '(log, allStates) := getAllStates response in
      (s, log ++ [QuerySettled tag (Ok (answer q allStates))])
  | CallerQuery q tag, Throw err => (s, [QuerySettled tag (Throw err)])
  end.

Definition run_job (j : Job) (s : State) : State * list Effect * list Job :=
  match j with
  | JobReady (WaitCall cmd who) (Ok _) =>
      let '(s', e) := issue cmd who s in (s', e, [])
  | JobReady (WaitCall cmd who) (Throw err) =>
      let '(s', e) := answerTo who (Throw err) s in (s', e, [])
  | JobReady WaitActivate (Ok _) =>
      let '(s', js) := call subscribeCmd CallerActivate s in (s', [], js)
  | JobReady WaitActivate (Throw err) =>
      (s, [Log Error subscribeFailed err], [])
  | JobAnswer who r =>
      let '(s', e) := answerTo who r s in (s', e, [])
  end.

(** One pass over the job queue; the jobs it makes runnable come after. *)
Fixpoint run_jobs (js : list Job) (s : State) : State * list Effect * list Job :=
  match js with
  | [] => (s, [], [])
  | j :: rest =>
      let '(s1, e1, n1) := run_job j s in
      let '(s2, e2, n2) := run_jobs rest s1 in
      (s2, e1 ++ e2, n1 ++ n2)
  end.

(** The queue is run until it is empty; a job makes at most one further job
    runnable ([WaitActivate] its [call]), so two passes empty it, and the jobs
    left over (third component) are none: [drain_complete] below. *)
Definition drain (js : list Job) (s : State) : State * list Effect * list Job :=
  let '(s1, e1, n1) := run_jobs js s in
  let '(s2, e2, n2) := run_jobs n1 s1 in
  let '(s3, e3, n3) := run_jobs n2 s2 in
  (s3, e1 ++ e2 ++ e3, n3).

(** [resolve()] / [reject(err)] of the promise of [connect()] number [c]: only
    the first settlement counts. *)
Definition settle (c : nat) (r : Result unit) (s : State) : State * list Effect :=
  match attempts s !! c with
  | Some a =>
      match settled a with
      | Some _ => (s, [])
      | None =>
          (set_attempt c
             {| readyState := readyState a; timeoutArmed := timeoutArmed a;
                settled := Some r; isReconnect := isReconnect a |} s,
           ConnectSettled c r ::
           match r with
           | Throw err =>
               if isReconnect a
               then [Log Error "WsReadTransport: Reconnect failed" err]
               else []
           | Ok _ => []
           end)
      end
  | None => (s, [])
  end.

(** [clearTimeout(connectionTimeout)] in the closure of attempt [c]. *)
Definition clearConnectionTimeout (c : nat) (s : State) : State :=
  match attempts s !! c with
  | Some a =>
      set_attempt c
        {| readyState := readyState a; timeoutArmed := false;
           settled := settled a; isReconnect := isReconnect a |} s
  | None => s
  end.

Definition set_readyState (c : nat) (rs : ReadyState) (s : State) : State :=
  match attempts s !! c with
  | Some a =>
      set_attempt c
        {| readyState := rs; timeoutArmed := timeoutArmed a;
           settled := settled a; isReconnect := isReconnect a |} s
  | None => s
  end.

(** [this.socket?.close()].  The [ws] library moves a socket that is not yet
    closed to [CLOSING] and emits its ['close'] event once the closing
    handshake is over. *)
Definition closeSocket (s : State) : State * list Effect :=
  match socket s with
  | Some c =>
      match attempts s !! c with
      | Some a =>
          (set_readyState c
             (if decide (readyState a = CLOSED) then CLOSED else CLOSING) s,
           [SocketClose c])
      | None => (s, [SocketClose c])
      end
  | None => (s, [])
  end.

(** [this.setReady()] and [this.rejectReady(err)] *)
Definition setReady (s : State) : State * list Job :=
  match readyPromise s with
  | Pending ws => (set_readyPromise Fulfilled s, (λ wt, JobReady wt (Ok ())) <$> ws)
  | _ => (s, [])
  end.

(** [createReadyPromise] attaches no handler to the promise it makes: the
    only handlers are the continuations of those who await it.  Rejected
    while nobody awaits it, the promise is an unhandled rejection. *)
Definition rejectReady (err : string) (s : State)
    : State * list Effect * list Job :=
  match readyPromise s with
  | Pending [] => (set_readyPromise (Rejected err) s, [UnhandledRejection err], [])
  | Pending ws =>
      (set_readyPromise (Rejected err) s, [],
       (λ wt, JobReady wt (Throw err)) <$> ws)
  | _ => (s, [], [])
  end.

(** [connect()]: a new socket becomes [this.socket], with its 10 s
    [connectionTimeout] and its handlers. *)
Definition connect (recon : bool) (s : State) : State * list Effect :=
  let c := nextSocket s in
  (set_socket (Some c)
     (set_nextSocket (S c)
        (set_attempt c
           {| readyState := CONNECTING; timeoutArmed := true;
              settled := None; isReconnect := recon |} s)),
   [SocketNew c "/api/websocket"; TimerSet "connect" (N.of_nat c)]).

Definition disconnect (s : State) : State * list Effect :=
  let '(s1, e1) :=
    match reconnectTimeout s with
    | Some t =>
        (set_reconnectTimeout None (set_timers (timers s ∖ {[t]}) s),
         [TimerCleared "reconnect" (N.of_nat t)])
    | None => (s, [])
    end in
  let '(s2, e2) :=
    match socket s1 with
    | Some _ => let '(s', e) := closeSocket s1 in (set_socket None s', e)
    | None => (s1, [])
    end in
  (set_stateSubscriptionActive false (set_isConnected false s2), e1 ++ e2).

Definition subscribeToStateChanges (subscriptionId : string)
    (ids : list string) (callbackRef : nat) (s : State) : State * list Job :=
  let s1 :=
    set_subscriptions
      (JsMap.set subscriptionId
         {| id := subscriptionId; entityIds := list_to_set ids;
            callback := callbackRef |} (subscriptions s)) s in
  if negb (stateSubscriptionActive s1) then activateStateSubscription s1
  else (s1, []).

Definition unsubscribe (subscriptionId : string) (s : State) : State :=
  set_subscriptions (JsMap.delete subscriptionId (subscriptions s)) s.

Definition unsubscribeAll (s : State) : State := set_subscriptions [] s.

Definition matches (entityId : string) (sub : Subscription) : bool :=
  bool_decide (size (entityIds sub) = 0)
  || bool_decide (entityId ∈ entityIds sub).

(** The ['close'] handler of a socket. *)
Definition onClose (s : State) : State * list Effect * list Job :=
  let t := nextTimer s in
  (set_reconnectTimeout (Some t)
     (set_nextTimer (S t)
        (set_timers (timers s ∪ {[t]})
           (set_readyPromise (Pending [])
              (set_pending []
                 (set_stateSubscriptionActive false
                    (set_isConnected false s)))))),
   Log Warn "WsReadTransport: WebSocket closed" "" ::
   ((λ p, PendingRejected p.1 closedErr) <$> pending s)
   ++ [TimerSet "reconnect" (N.of_nat t)],
   (λ p, JobAnswer p.2 (Throw closedErr)) <$> pending s).

(** [parsed.message || 'Unknown auth error'] *)
Definition authMessage (parsed : Parsed) : string :=
  match m_message parsed with
  | Some m => if bool_decide (m = "") then "Unknown auth error" else m
  | None => "Unknown auth error"
  end.

(** ['id' in parsed && this.pending.has(parsed.id)], with the entry found. *)
Definition pendingFor (parsed : Parsed) (s : State) : option (N * Caller) :=
  match m_id parsed with
  | Some i =>
      match JsMap.get i (pending s) with
      | Some who => Some (i, who)
      | None => None
      end
  | None => None
  end.

Inductive Event :=
  | ApiConnect
  | ApiDisconnect
  | ApiQuery (q : Query) (tag : nat)
  | ApiSubscribe (subscriptionId : string) (ids : list string) (callbackRef : nat)
  | ApiUnsubscribe (subscriptionId : string)
  | ApiUnsubscribeAll
  | SockOpen (c : nat)
  | SockMessage (c : nat) (raw : option Parsed)  (* [None]: not JSON *)
  | SockError (c : nat) (err : string)
  | SockClose (c : nat)
  | ConnectTimeout (c : nat)
  | ReconnectTimer (t : nat)
  | RequestTimeout (id : N).

Section dispatch.
Context {W : Type}.
Variable cb :
    nat → string → option HassState → option HassState → W → W * Outcome.

Fixpoint notifyAll (subs : list Subscription) (data : EventData) (w : W)
      : W * list Effect :=
    match subs with
    | [] => (w, [])
    | sub :: rest =>
        if matches (ev_entity_id data) sub then
          let '(w1, e1) :=
            invoke cb "WsReadTransport: Subscription callback error"
              (id sub) (callback sub) (ev_entity_id data)
              (new_state data) (old_state data) w in
          let '(w2, e2) := notifyAll rest data w1 in
          (w2, e1 ++ e2)
        else notifyAll rest data w
    end.

Definition handleStateChanged (s : State) (data : EventData) (w : W)
      : W * list Effect :=
    notifyAll (JsMap.values (subscriptions s)) data w.

  (** The ['message'] handler of the socket of attempt [c]. *)
Definition onMessage (c : nat) (raw : option Parsed) (s : State) (w : W)
      : State * W * list Effect * list Job :=
    match raw with
    | None => (s, w, [Log Warn "WsReadTransport: Failed to parse message" ""], [])
    | Some parsed =>
        if bool_decide (m_type parsed = "auth_required") then
          (s, w, sendRaw None (authCmd (token s)) s, [])
        else if bool_decide (m_type parsed = "auth_invalid") then
          let msg := authMessage parsed in
          let s1 := clearConnectionTimeout c s in
          let '(s2, e2) := closeSocket s1 in
          let '(s3, e3, js) := rejectReady (authErr msg) s2 in
          let '(s4, e4) := settle c (Throw (authErr msg)) s3 in
          (s4, w,
           Log Error "WsReadTransport: Auth invalid" msg :: e2 ++ e3 ++ e4, js)
        else if bool_decide (m_type parsed = "auth_ok") then
          let s1 := set_isConnected true (clearConnectionTimeout c s) in
          let '(s2, js2) := setReady s1 in
          let '(s3, e3) := settle c (Ok ()) s2 in
          let '(s4, js4) :=
            if bool_decide (0 < JsMap.size (subscriptions s3))
            then activateStateSubscription s3
            else (s3, []) in
          (s4, w, e3, js2 ++ js4)
        else
          match pendingFor parsed s with
          | Some (i, who) =>
              (set_pending (JsMap.delete i (pending s)) s, w,
               [PendingResolved i], [JobAnswer who (Ok parsed)])
          | None =>
              match m_event parsed with
              | Some (event_type, data) =>
                  if bool_decide (m_type parsed = "event")
                     && bool_decide (event_type = "state_changed")
                  then let '(w', e) := handleStateChanged s data w in
                       (s, w', e, [])
                  else (s, w, [], [])
              | None => (s, w, [], [])
              end
          end
    end.

Definition handle (ev : Event) (s : State) (w : W)
      : State * W * list Effect * list Job :=
    match ev with
    | ApiConnect => let '(s', e) := connect false s in (s', w, e, [])
    | ApiDisconnect => let '(s', e) := disconnect s in (s', w, e, [])
    | ApiQuery q tag =>
        let '(s', js) := call getStatesCmd (CallerQuery q tag) s in (s', w, [], js)
    | ApiSubscribe subscriptionId ids callbackRef =>
        let '(s', js) := subscribeToStateChanges subscriptionId ids callbackRef s in
        (s', w, [], js)
    | ApiUnsubscribe subscriptionId => (unsubscribe subscriptionId s, w, [], [])
    | ApiUnsubscribeAll => (unsubscribeAll s, w, [], [])
    | SockOpen c => (set_readyState c OPEN s, w, [], [])
    | SockMessage c raw =>
        if bool_decide (is_Some (attempts s !! c)) then onMessage c raw s w
        else (s, w, [], [])
    | SockError c err =>
        if bool_decide (is_Some (attempts s !! c)) then
          let '(s', e) :=
            if negb (isConnected s)
            then settle c (Throw err) (clearConnectionTimeout c s)
            else (s, []) in
          (s', w, Log Error "WsReadTransport: WebSocket error" err :: e, [])
        else (s, w, [], [])
    | SockClose c =>
        if bool_decide (is_Some (attempts s !! c)) then
          let '(s', e, js) := onClose (set_readyState c CLOSED s) in (s', w, e, js)
        else (s, w, [], [])
    | ConnectTimeout c =>
        match attempts s !! c with
        | Some a =>
            if timeoutArmed a then
              let s1 := clearConnectionTimeout c s in
              if negb (isConnected s1) then
                let '(s2, e2) := closeSocket s1 in
                let '(s3, e3) := settle c (Throw "WebSocket connection timeout") s2 in
                (s3, w, Log Error "WsReadTransport: Connection timeout" "" :: e2 ++ e3, [])
              else (s1, w, [], [])
            else (s, w, [], [])
        | None => (s, w, [], [])
        end
    | ReconnectTimer t =>
        if bool_decide (t ∈ timers s) then
          let '(s', e) := connect true (set_timers (timers s ∖ {[t]}) s) in
          (s', w, e, [])
        else (s, w, [], [])
    | RequestTimeout i =>
        match JsMap.get i (pending s) with
        | Some who =>
            (set_pending (JsMap.delete i (pending s)) s, w,
             [PendingRejected i timedOutErr], [JobAnswer who (Throw timedOutErr)])
        | None => (s, w, [], [])
        end
    end.

  (** One turn of the event loop: the handler, then the jobs it made
      runnable. *)
Definition step (ev : Event) (s : State) (w : W) : State * W * list Effect :=
    let '(s1, w1, e1, js) := handle ev s w in
    let '(s2, e2, _) := drain js s1 in
    (s2, w1, e1 ++ e2).

  (** A turn in which several handlers run before any continuation does: the
      [ws] library emits the ['error'] and the ['close'] of a connection that
      failed one right after the other. *)
Fixpoint handleAll (evs : list Event) (s : State) (w : W)
      : State * W * list Effect * list Job :=
    match evs with
    | [] => (s, w, [], [])
    | ev :: rest =>
        let '(s1, w1, e1, js1) := handle ev s w in
        let '(s2, w2, e2, js2) := handleAll rest s1 w1 in
        (s2, w2, e1 ++ e2, js1 ++ js2)
    end.

Definition turn (evs : list Event) (s : State) (w : W)
      : State * W * list Effect :=
    let '(s1, w1, e1, js) := handleAll evs s w in
    let '(s2, e2, _) := drain js s1 in
    (s2, w1, e1 ++ e2).

  (** The turns of a process, one event each; a turn that leaves a rejection
      unhandled is the last one. *)
Fixpoint run (evs : list Event) (s : State) (w : W) : State * W * list Effect :=
    match evs with
    | [] => (s, w, [])
    | ev :: rest =>
        let '(s1, w1, e1) := step ev s w in
        if exits e1 then (s1, w1, e1)
        else
          let '(s2, w2, e2) := run rest s1 w1 in
          (s2, w2, e1 ++ e2)
    end.
End dispatch.

End Ws.

(** ** The transport selector, [createReadTransport] *)

Module Factory.

Record Options := {
  wsConnectionTimeout : N;
  preferWebSocket : bool;
  restPollingInterval : N;
}.

Definition defaults : Options :=
  {| wsConnectionTimeout := 5000; preferWebSocket := true;
     restPollingInterval := 1000 |}.

Inductive Transport :=
  | WsTransport (s : Ws.State)
  | RestTransport (s : Rest.State).

Record Created := {
  transport : Transport;
  activeTransport : string;
  wsAvailable : bool;
  restAvailable : bool;
}.

(** How [Promise.race([wsTransport.connect(), timeout])] settles; it is
    [Unsettled] when the process ends before it does. *)
Inductive Race :=
  | Connected
  | ConnectFailed (err : string)
  | TimedOut
  | Unsettled.

(** How a call of the selector ends: its promise settles, or the process ends
    before it does. *)
Inductive Ending :=
  | Settled (r : Result Created)
  | ProcessEnded.

(** The URL that [testRestConnection] fetches: [`${baseUrl}/`]. *)
Definition probeUrl (configBaseUrl : string) : string :=
  apiBase configBaseUrl +:+ "/".

Definition testRestConnection (net : Fetched unit) : bool :=
  match net with
  | Ok res => ok res
  | Throw _ => false
  end.

Section factory.
Context {W : Type}.
Variable cb :
    nat → string → option HassState → option HassState → W → W * Outcome.

  (** The race.  [turns] are the turns of the event loop that the new
      transport takes before the selector's timer fires, each with the events
      whose handlers run in it; the continuation of the selector runs at the
      end of the turn that settles the promise of [connect()] (attempt 0), so
      when the turns run out unsettled the race is lost to the timeout.  A
      turn that leaves a rejection unhandled is the last one. *)
Fixpoint raceConnect (turns : list (list Ws.Event)) (s : Ws.State) (w : W)
      : Ws.State * W * list Effect * Race :=
    match turns with
    | [] => (s, w, [], TimedOut)
    | evs :: rest =>
        let '(s1, w1, e1) := Ws.turn cb evs s w in
        match Ws.attempts s1 !! 0 ≫= Ws.settled with
        | Some (Ok _) => (s1, w1, e1, Connected)
        | Some (Throw err) => (s1, w1, e1, ConnectFailed err)
        | None =>
            if exits e1 then (s1, w1, e1, Unsettled)
            else
              let '(s2, w2, e2, r) := raceConnect rest s1 w1 in
              (s2, w2, e1 ++ e2, r)
        end
    end.

  (** The REST fallback at the end of [createReadTransport]. *)
Definition restFallback (restNet : Fetched unit) : list Effect * Result Created :=
    match Rest.connect Rest.init restNet with
    | (l, Ok rs) =>
        (l, Ok {| transport := RestTransport rs; activeTransport := "rest";
                  wsAvailable := false; restAvailable := true |})
    | (l, Throw err) =>
        (l ++ [Log Error "TransportFactory: REST connection also failed" err],
         Throw "Failed to connect to Home Assistant via WebSocket or REST")
    end.

  (** [createReadTransport(config, options)].  [forceRest] is
      [process.env.FORCE_REST_TRANSPORT === 'true']; [probe] answers the fetch
      of [testRestConnection] and [restNet] the fetch of
      [RestReadTransport.connect].  The first component is the streaming
      transport that was tried and given up, as [disconnect()] left it.  When
      the turn that settles the race leaves a rejection unhandled, the
      continuation of the selector still runs up to its next [await], and
      then the process ends. *)
Definition createReadTransport (options : Options) (forceRest : bool)
      (tok : string) (turns : list (list Ws.Event))
      (probe restNet : Fetched unit) (w : W)
      : option Ws.State * W * list Effect * Ending :=
    if preferWebSocket options && negb forceRest then
      let '(ws0, e0) := Ws.connect false (Ws.init tok) in
      let '(ws1, w1, e1, race) := raceConnect turns ws0 w in
      match race with
      | Unsettled => (None, w1, e0 ++ e1, ProcessEnded)
      | Connected =>
          (None, w1, e0 ++ e1,
           if exits e1 then ProcessEnded
           else
             Settled
               (Ok {| transport := WsTransport ws1;
                      activeTransport := "websocket";
                      wsAvailable := true;
                      restAvailable := testRestConnection probe |}))
      | ConnectFailed _ | TimedOut =>
          let err := match race with
                     | ConnectFailed err => err
                     | _ => "WebSocket connection timeout"
                     end in
          let '(ws2, e2) := Ws.disconnect ws1 in
          let '(e3, r) := restFallback restNet in
          let warn :=
            Log Warn "TransportFactory: WebSocket connection failed, trying REST fallback"
              err in
          if exits e1 then (Some ws2, w1, e0 ++ e1 ++ warn :: e2, ProcessEnded)
          else (Some ws2, w1, e0 ++ e1 ++ warn :: e2 ++ e3, Settled r)
      end
    else
      let '(e3, r) := restFallback restNet in (None, w, e3, Settled r).
End factory.

End Factory.

(** ** The live fan-out server, [createLiveWebSocketServer] *)

Module LiveWs.

(** [s.replace(/^(sensor|binary_sensor|number)\./, '')] and
    [s.replace(/_occupancy$|_mmwave_target_distance$/, '')] *)
Definition strip_prefix (p s : string) : option string :=
  if Stdlib.Strings.String.prefix p s
  then Some (Stdlib.Strings.String.substring (String.length p)
               (String.length s - String.length p) s)
  else None.

Definition strip_suffix (p s : string) : option string :=
  let n := String.length s - String.length p in
  if bool_decide (String.length p ≤ String.length s)
     && bool_decide (Stdlib.Strings.String.substring n (String.length p) s = p)
  then Some (Stdlib.Strings.String.substring 0 n s)
  else None.

Definition first_stripped (f : string → string → option string)
    (ps : list string) (s : string) : string :=
  default s (list_find (λ r, is_Some r) ((λ p, f p s) <$> ps) ≫= snd).

Definition stripDomain (s : string) : string :=
  first_stripped strip_prefix ["sensor."; "binary_sensor."; "number."] s.

Definition stripKind (s : string) : string :=
  first_stripped strip_suffix ["_occupancy"; "_mmwave_target_distance"] s.

(** Stored legacy mappings: the keys holding a string, and the tracking
    targets. *)
Record Mappings := {
  stored : list (string * string);
  trackingTargets : option (list (string * list (string * string)));
}.

(** The [entityMappings] field of a subscribe message: a JSON string (with the
    result of [JSON.parse], none when it throws) or an object. *)
Inductive MappingsField :=
  | MappingsString (parsed : option Mappings)
  | MappingsObject (m : Mappings).

Record SubscribeMsg := {
  deviceId : string;                     (* "" when absent *)
  profileId : string;
  entityNamePrefix : string;
  entityMappings : option MappingsField;
}.

Inductive ClientMsg :=
  | NotJson
  | Subscribe (m : SubscribeMsg)
  | Unsubscribe
  | OtherType.

(** The parts of a device profile that the handler reads. *)
Record Profile := {
  entityMap : list (string * string);
  zoneConfigEntities : option (list (string * option string));
  capabilities_zones : bool;
  entities : option (list (string * option string));
}.

Record ClientSubscription := {
  ws : nat;
  cs_deviceId : string;
  cs_profileId : string;
  entityIds : list string;               (* a [Set], in insertion order *)
  subscriptionId : string;
}.

Definition assoc {A} (k : string) (l : list (string * A)) : option A :=
  JsMap.get k l.

(** JS truthiness of a string that may be [null] or [undefined]. *)
Definition truthy (o : option string) : bool :=
  match o with
  | Some s => negb (bool_decide (s = ""))
  | None => false
  end.

(** [Set.prototype.add] *)
Definition add (x : string) (l : list string) : list string :=
  if bool_decide (x ∈ l) then l else l ++ [x].

Definition targetProps : list string :=
  ["x"; "y"; "distance"; "speed"; "angle"; "resolution"; "active"].

Definition entityKeys : list string :=
  ["presenceEntity"; "mmwaveEntity"; "pirEntity"; "temperatureEntity";
   "humidityEntity"; "illuminanceEntity"; "lightEntity"; "co2Entity";
   "distanceEntity"; "speedEntity"; "energyEntity"; "targetCountEntity";
   "modeEntity"; "trackingTargetCountEntity"; "trackingTargetsEntity";
   "maxDistanceEntity"; "installationAngleEntity"; "distanceMaxEntity";
   "triggerDistanceEntity"].

Section server.
  (** Collaborators outside this development: the profile loader, the
      device-mapping storage and the device entity service, and the built-in
      [template.replace('${name}', prefix)]. *)
Variable getProfileById : string → option Profile.
Variable hasMapping : string → bool.
Variable getEntityId : string → string → option string.
Variable getTargetEntities : string → nat → option (list (string * string)).
Variable replaceName : string → string → string.
  (** The sockets of the sessions: [readyState], whether [send] throws, and
      the reading of [Date.now()] when a session is served. *)
Variable readyState : nat → Ws.ReadyState.
Variable sendOutcome : nat → LiveMsg → Outcome.
Variable now : nat → N.

Definition send (client : nat) (m : LiveMsg) : Comp unit :=
    ([ClientSend client m],
     match sendOutcome client m with
     | Returned => Ok ()
     | Threw err => Throw err
     end).

  (** The callback given to [readTransport.subscribeToStateChanges([], ...)]:
      the body of [clients.forEach] for one client. *)
Definition forward (entityId : string) (newState : HassState)
      (entry : nat * ClientSubscription) : list Effect :=
    let '(clientWs, subscription) := entry in
    if bool_decide (entityId ∈ entityIds subscription)
       && bool_decide (readyState clientWs = Ws.OPEN)
    then
      let m := MsgStateUpdate entityId (state newState) (attributes newState)
                 (now clientWs) in
      ClientSend clientWs m ::
      match sendOutcome clientWs m with
      | Returned => []
      | Threw _ => [Log Error "Failed to send state update to client" entityId]
      end
    else [].

Definition onStateChange (clients : JsMap.t nat ClientSubscription)
      (entityId : string) (newState _oldState : option HassState)
      : list Effect :=
    match newState with
    | Some ns =>
        if bool_decide (entityId = "") then []
        else flat_map (forward entityId ns) clients
    | None => []
    end.

  (** [EntityResolver.resolve] and [EntityResolver.resolveTargetEntity] *)
Definition resolve (mappings : option Mappings) (prefix mappingKey : string)
      (template : option string) : option string :=
    match match mappings with
          | Some m => assoc mappingKey (stored m)
          | None => None
          end with
    | Some s => Some s
    | None =>
        if truthy template && truthy (Some prefix)
        then Some (replaceName (default "" template) prefix)
        else None
    end.

Definition storedTarget (mappings : option Mappings)
      (targetKey property : string) : option string :=
    match mappings with
    | Some m =>
        match trackingTargets m with
        | Some targets =>
            match assoc targetKey targets with
            | Some target => assoc property target
            | None => None
            end
        | None => None
        end
    | None => None
    end.

Definition resolveTargetEntity (mappings : option Mappings) (prefix : string)
      (targetNum : nat) (property : string) : option string :=
    let targetKey := "target" +:+ pretty targetNum in
    match storedTarget mappings targetKey property with
    | Some s => Some s
    | None =>
        if truthy (Some prefix) then
          let domain := if bool_decide (property = "active")
                        then "binary_sensor" else "sensor" in
          Some (domain +:+ "." +:+ prefix +:+ "_target_" +:+ pretty targetNum
                +:+ "_" +:+ property)
        else None
    end.

Section resolution.
Variable msg : SubscribeMsg.
Variable profile : Profile.
Variable deviceName : string.
Variable parsedMappings : option Mappings.
Variable hasDeviceMapping : bool.

Definition addEntity (ids : list string) (entry : string * option string)
        : list string :=
      let '(mappingKey, pattern) := entry in
      let fromDevice :=
        if hasDeviceMapping then getEntityId (deviceId msg) mappingKey else None in
      let entityId :=
        if truthy fromDevice then fromDevice
        else resolve parsedMappings deviceName mappingKey pattern in
      if truthy entityId then add (default "" entityId) ids else ids.

Definition zoneConfigEntries : list (string * option string) :=
      match zoneConfigEntities profile with
      | Some zones =>
          omap (λ z, if truthy z.2
                     then Some ("zoneConfigEntities." +:+ z.1 +:+ ".targetCountEntity", z.2)
                     else None) zones
      | None => []
      end.

Definition template (key : string) : option string :=
      match entities profile with
      | Some es => default None (assoc key es)
      | None => None
      end.

Definition zoneEntries : list (string * option string) :=
      if capabilities_zones profile && bool_decide (is_Some (entities profile))
      then
        flat_map (λ i,
          let zoneTargetCountKey := "zone" +:+ pretty i +:+ "TargetCount" in
          let zoneOccupancyKey := "zone" +:+ pretty i +:+ "Occupancy" in
          (if truthy (template zoneTargetCountKey)
           then [(zoneTargetCountKey, template zoneTargetCountKey)] else [])
          ++ (if truthy (template zoneOccupancyKey)
              then [(zoneOccupancyKey, template zoneOccupancyKey)] else []))
          [1; 2; 3; 4]
      else [].

Definition addTarget (i : nat) (ids : list string) (prop : string)
        : list string :=
      let targetSet :=
        if hasDeviceMapping then getTargetEntities (deviceId msg) i else None in
      let fromDevice :=
        match targetSet with
        | Some target => assoc prop target
        | None => None
        end in
      let entityId :=
        if truthy fromDevice then fromDevice
        else resolveTargetEntity parsedMappings deviceName i prop in
      if truthy entityId then add (default "" entityId) ids else ids.

Definition assumedEntries : list (string * option string) :=
      (if truthy (template "assumedPresent")
       then [("assumedPresent", template "assumedPresent")] else [])
      ++ (if truthy (template "assumedPresentRemaining")
          then [("assumedPresentRemaining", template "assumedPresentRemaining")]
          else []).

    (** The entity ids to monitor, in the order the handler adds them. *)
Definition resolveEntityIds : list string :=
      let ids1 :=
        foldl addEntity []
          (((λ k, (k, assoc k (entityMap profile))) <$> entityKeys)
           ++ zoneConfigEntries ++ zoneEntries) in
      let ids2 :=
        foldl (λ ids i, foldl (addTarget i) ids targetProps) ids1 [1; 2; 3] in
      foldl addEntity ids2 assumedEntries.
End resolution.

Definition deviceNameOf (msg : SubscribeMsg) : string :=
    if truthy (Some (entityNamePrefix msg)) then entityNamePrefix msg
    else stripKind (stripDomain (deviceId msg)).

Definition parseMappings (msg : SubscribeMsg) : list Effect * option Mappings :=
    match entityMappings msg with
    | Some (MappingsString (Some m)) => ([], Some m)
    | Some (MappingsString None) =>
        ([Log Warn "Invalid entityMappings JSON in WebSocket message" ""], None)
    | Some (MappingsObject m) => ([], Some m)
    | None => ([], None)
    end.

Definition hasMappingsOf (msg : SubscribeMsg) : bool :=
    hasMapping (deviceId msg) || bool_decide (is_Some (parseMappings msg).2).

Definition notFoundWarning (msg : SubscribeMsg) : LiveMsg :=
    MsgWarning "MAPPING_NOT_FOUND"
      "No entity mappings found for this device. Run entity discovery to auto-match entities."
      (deviceId msg).

  (** The subscribe branch up to [clients.set]: the checks, the warning, the
      resolution.  [None] is an early [return] after an error message. *)
Definition prepare (client : nat) (msg : SubscribeMsg) (stamp : N)
      : Comp (option ClientSubscription) :=
    if negb (truthy (Some (deviceId msg))) || negb (truthy (Some (profileId msg)))
    then send client (MsgError "deviceId and profileId required");; mret None
    else
      match getProfileById (profileId msg) with
      | None => send client (MsgError "Profile not found");; mret None
      | Some profile =>
          let deviceName := deviceNameOf msg in
          if negb (truthy (Some deviceName)) then
            send client (MsgError "Could not determine entity name prefix");;
            mret None
          else
            let '(log, parsedMappings) := parseMappings msg in
            (log, Ok ());;
            (if hasMappingsOf msg then mret ()
             else
               emit (Log Warn "No device mappings found - entity resolution may fail"
                       (deviceId msg));;
               send client (notFoundWarning msg));;
            mret (Some
              {| ws := client; cs_deviceId := deviceId msg;
                 cs_profileId := profileId msg;
                 entityIds :=
                   resolveEntityIds msg profile deviceName parsedMappings
                     (hasMapping (deviceId msg));
                 subscriptionId := deviceId msg +:+ "-" +:+ pretty stamp |})
      end.

Definition initialStateData (initialStates : JsMap.t string HassState)
      : list (string * (string * list (string * string))) :=
    foldl (λ acc p, JsMap.set p.1 (state p.2, attributes p.2) acc) []
      initialStates.

Definition subscribed (msg : SubscribeMsg) (session : ClientSubscription)
      (initial : option (JsMap.t string HassState)) : LiveMsg :=
    MsgSubscribed (deviceId msg) (profileId msg) (entityIds session)
      (initialStateData <$> initial) (hasMappingsOf msg).

  (** The subscribe branch after [clients.set]: the bulk fetch of the initial
      states, answered by [fetched], and the confirmation. *)
Definition confirm (client : nat) (msg : SubscribeMsg)
      (session : ClientSubscription)
      (fetched : Result (JsMap.t string HassState)) : Comp unit :=
    try_catch
      (initialStates ← await fetched;
       send client (subscribed msg session (Some initialStates)))
      (λ err,
         emit (Log Error "Failed to send initial states" err);;
         send client (subscribed msg session None)).

  (** The [catch] around the whole ['message'] handler. *)
Definition invalidMessage (client : nat) (err : string) : list Effect :=
    [Log Error "Failed to process WebSocket message" err;
     ClientSend client (MsgError "Invalid message format")].

  (** The ['message'] handler of a session. *)
Definition onMessage (clients : JsMap.t nat ClientSubscription) (client : nat)
      (data : ClientMsg) (stamp : N)
      (fetched : Result (JsMap.t string HassState))
      : JsMap.t nat ClientSubscription * list Effect :=
    match data with
    | NotJson => (clients, invalidMessage client "Unexpected token")
    | Subscribe msg =>
        match prepare client msg stamp with
        | (l1, Throw err) => (clients, l1 ++ invalidMessage client err)
        | (l1, Ok None) => (clients, l1)
        | (l1, Ok (Some session)) =>
            let '(l2, r) := confirm client msg session fetched in
            (JsMap.set client session clients,
             l1 ++ l2 ++ match r with
                         | Ok _ => []
                         | Throw err => invalidMessage client err
                         end)
        end
    | Unsubscribe => (JsMap.delete client clients, [])
    | OtherType => (clients, [])
    end.

  (** The ['close'] and ['error'] handlers of a session. *)
Definition onClose (clients : JsMap.t nat ClientSubscription) (client : nat)
      : JsMap.t nat ClientSubscription :=
    JsMap.delete client clients.
End server.

End LiveWs.


(** ** Observations on states and effect traces, for the statements below *)

(** The last record of the upstream list that carries the id [k]. *)
Definition lastOf (k : string) (allStates : list HassState) : option HassState :=
  last (filter (λ s, entity_id s = k) allStates).

(** The callback invocations in a trace, in order. *)
Definition invocations (eff : list Effect)
    : list (string * nat * string * option HassState * option HassState) :=
  omap (λ e, match e with
             | Invoke sid c x n o => Some (sid, c, x, n, o)
             | _ => None
             end) eff.

(** How often a trace invokes the callback of subscription [sid] for the
    entity [x]. *)
Definition is_call (sid x : string) (e : Effect) : bool :=
  match e with
  | Invoke sid' _ x' _ _ => bool_decide (sid' = sid) && bool_decide (x' = x)
  | _ => false
  end.

Fixpoint calls (sid x : string) (eff : list Effect) : nat :=
  match eff with
  | [] => 0
  | e :: rest => (if is_call sid x e then 1 else 0) + calls sid x rest
  end.

(** The messages a trace sends to a downstream client, in order. *)
Definition sentTo (client : nat) (eff : list Effect) : list LiveMsg :=
  omap (λ e, match e with
             | ClientSend c m => if decide (c = client) then Some m else None
             | _ => None
             end) eff.

(** The subscribers of the examples: they have no state of their own, and the
    callback with reference 1 throws while every other one returns. *)
Definition quiet (_ : nat) (_ : string) (_ _ : option HassState) (w : unit)
    : unit * Outcome := (w, Returned).

Definition faulty (c : nat) (_ : string) (_ _ : option HassState) (w : unit)
    : unit * Outcome :=
  (w, if decide (c = 1) then Threw "boom" else Returned).

(** Inbound messages of the examples: a bare message of a given type, and the
    turns of a successful first connection (socket 0). *)
Definition bare (t : string) : Ws.Parsed :=
  {| Ws.m_type := t; Ws.m_id := None; Ws.m_message := None;
     Ws.m_success := false; Ws.m_result := None; Ws.m_event := None |}.

Definition handshake (c : nat) : list Ws.Event :=
  [Ws.SockOpen c; Ws.SockMessage c (Some (bare "auth_required"));
   Ws.SockMessage c (Some (bare "auth_ok"))].

(** What the operations of the polling transport keep true of its state: the
    keys of the subscription map are distinct, every subscription is stored
    under its own id, and a subscription only remembers records of entities
    its filter lets through. *)
Definition rest_wf (st : Rest.State) : Prop :=
  NoDup (JsMap.keys (Rest.subscriptions st))
  ∧ ∀ k sub, (k, sub) ∈ Rest.subscriptions st →
      Rest.id sub = k
      ∧ ∀ x, is_Some (Rest.lastStates sub !! x) →
          size (Rest.entityIds sub) = 0 ∨ x ∈ Rest.entityIds sub.

(** Data of the examples: a record, a successful answer of [/states], and a
    polling transport with one subscription ([sub-1], watching the entity
    [sensor.abc_target_1_x]) after a first tick that showed it [seen]. *)
Definition sample (x st changed updated : string) : HassState :=
  {| entity_id := x; state := st; attributes := [];
     last_changed := changed; last_updated := updated |}.

Definition answers {A} (body : A) : Fetched A :=
  Ok {| status := 200; json := Ok body; text := Ok "" |}.

Definition seen : HassState :=
  sample "sensor.abc_target_1_x" "120" "10:00:00" "10:00:00".

Definition polled : Rest.State :=
  (Rest.tick quiet
     (Rest.subscribeToStateChanges "sub-1" ["sensor.abc_target_1_x"] 0 Rest.init)
     (answers [seen]) ()).1.1.

(** The invocations a change event is due: one for every subscription whose
    filter is empty or holds the changed entity, in the order of the map. *)
Definition due (s : Ws.State) (data : Ws.EventData)
    : list (string * nat * string * option HassState * option HassState) :=
  (λ sub, (Ws.id sub, Ws.callback sub, Ws.ev_entity_id data,
           Ws.new_state data, Ws.old_state data))
  <$> filter (λ sub, Ws.matches (Ws.ev_entity_id data) sub)
        (JsMap.values (Ws.subscriptions s)).

(** The callback with reference [c] throws when it is called with these
    arguments, whatever its subscriber's state. *)
Definition throwsOn {W} (cb : nat → string → option HassState →
    option HassState → W → W * Outcome) (c : nat) (x : string)
    (n o : option HassState) : Prop :=
  ∀ w, ∃ err, (cb c x n o w).2 = Threw err.

(** The trace that the invocations [invs] leave when they are made one after
    the other, whatever each of them does: every one of them is made, with
    the state its subscriber is in by then, and one that throws is followed
    by its error log. *)
Fixpoint deliver {W} (cb : nat → string → option HassState →
    option HassState → W → W * Outcome) (msg : string)
    (invs : list (string * nat * string * option HassState * option HassState))
    (w : W) : W * list Effect :=
  match invs with
  | [] => (w, [])
  | (sid, c, x, n, o) :: rest =>
      let '(w1, out) := cb c x n o w in
      let '(w2, e) := deliver cb msg rest w1 in
      (w2, Invoke sid c x n o ::
           match out with
           | Returned => e
           | Threw _ => Log Error msg sid :: e
           end)
  end.

(** The invocations that the records [l], taken in turn, are due from the
    subscription [sid] with callback [c] that remembers [last]: one for every
    record whose entity it remembers nothing of, or a record that differs
    ([Rest.stateChanged]); every record is remembered in its turn. *)
Fixpoint dueOf (sid : string) (c : nat) (last : gmap string HassState)
    (l : list HassState)
    : list (string * nat * string * option HassState * option HassState) :=
  match l with
  | [] => []
  | new :: rest =>
      (if match last !! entity_id new with
          | None => true
          | Some old => Rest.stateChanged old new
          end
       then [(sid, c, entity_id new, Some new, last !! entity_id new)]
       else [])
      ++ dueOf sid c (<[entity_id new := new]> last) rest
  end.

Definition remembered (last : gmap string HassState) (l : list HassState)
    : gmap string HassState :=
  foldl (λ m s, <[entity_id s := s]> m) last l.

(** The invocations a poll tick is due for the records [states], in the order
    of the subscription map, and the subscriptions it leaves. *)
Definition pollDue (subs : JsMap.t string Rest.Subscription)
    (states : list HassState)
    : list (string * nat * string * option HassState * option HassState) :=
  flat_map (λ p, dueOf (Rest.id p.2) (Rest.callback p.2) (Rest.lastStates p.2)
                   (Rest.relevantStates p.2 states)) subs.

Definition polledSubs (subs : JsMap.t string Rest.Subscription)
    (states : list HassState) : JsMap.t string Rest.Subscription :=
  (λ p, (p.1, Rest.set_lastStates
                (remembered (Rest.lastStates p.2)
                   (Rest.relevantStates p.2 states)) p.2)) <$> subs.

(** An inbound change event for the entity [x]. *)
Definition changeEvent (x : string) (o n : option HassState) : Ws.Parsed :=
  {| Ws.m_type := "event"; Ws.m_id := None; Ws.m_message := None;
     Ws.m_success := false; Ws.m_result := None;
     Ws.m_event := Some ("state_changed",
                         {| Ws.ev_entity_id := x; Ws.old_state := o;
                            Ws.new_state := n |}) |}.

(** A connected streaming transport with two subscriptions: [sub-1], whose
    callback (reference 1) throws, watches one entity, and [sub-2] watches
    them all. *)
Definition listening : Ws.State :=
  (Ws.run faulty
     (Ws.ApiConnect :: handshake 0
      ++ [Ws.ApiSubscribe "sub-1" ["sensor.abc_target_1_x"] 1;
          Ws.ApiSubscribe "sub-2" [] 2])
     (Ws.init "token") ()).1.1.

(** The fan-out scenario of the examples: the profile [epl], a device [abc]
    without stored mappings, sockets that are open and whose [send] returns,
    and the textual replacement of the first [${name}] of a template. *)
Definition replaceFirst (template prefix : string) : string :=
  match Stdlib.Strings.String.index 0 "${name}" template with
  | Some i =>
      Stdlib.Strings.String.substring 0 i template +:+ prefix
      +:+ Stdlib.Strings.String.substring (i + 7)
            (String.length template - (i + 7)) template
  | None => template
  end.

Definition eplProfile : LiveWs.Profile :=
  {| LiveWs.entityMap := [("presenceEntity", "binary_sensor.${name}_occupancy")];
     LiveWs.zoneConfigEntities := None;
     LiveWs.capabilities_zones := false;
     LiveWs.entities := None |}.

Definition profiles (profileId : string) : option LiveWs.Profile :=
  if bool_decide (profileId = "epl") then Some eplProfile else None.

Definition unmapped (_ : string) : bool := false.
Definition noEntity (_ _ : string) : option string := None.
Definition noTargets (_ : string) (_ : nat) : option (list (string * string)) :=
  None.
Definition allOpen (_ : nat) : Ws.ReadyState := Ws.OPEN.
Definition sends (_ : nat) (_ : LiveMsg) : Outcome := Returned.
Definition clock (_ : nat) : N := 1700000000000.

Definition abcRequest : LiveWs.SubscribeMsg :=
  {| LiveWs.deviceId := "abc"; LiveWs.profileId := "epl";
     LiveWs.entityNamePrefix := ""; LiveWs.entityMappings := None |}.

(** The sessions after client 1 subscribed for [abc] (and got its initial
    states). *)
Definition abcClients : JsMap.t nat LiveWs.ClientSubscription :=
  (LiveWs.onMessage profiles unmapped noEntity noTargets replaceFirst sends
     [] 1 (LiveWs.Subscribe abcRequest) 1700000000000 (Ok [])).1.

Definition abcSession : LiveWs.ClientSubscription :=
  default {| LiveWs.ws := 0; LiveWs.cs_deviceId := ""; LiveWs.cs_profileId := "";
             LiveWs.entityIds := []; LiveWs.subscriptionId := "" |}
    (JsMap.get 1 abcClients).

(** What the caller of a rejected command does with the rejection: a state
    query passes it on, [activateStateSubscription] logs it. *)
Definition rejectionOf (err : string) (who : Ws.Caller) : Effect :=
  match who with
  | Ws.CallerQuery _ tag => QuerySettled tag (Throw err)
  | Ws.CallerActivate => Log Error Ws.subscribeFailed err
  end.

(** A connected streaming transport with two state queries in flight (ids 1
    and 2). *)
Definition querying : Ws.State :=
  (Ws.run quiet
     (Ws.ApiConnect :: handshake 0
      ++ [Ws.ApiQuery Ws.QAllStates 7;
          Ws.ApiQuery (Ws.QState "sensor.abc_target_1_x") 8])
     (Ws.init "token") ()).1.1.

(** The pending requests a trace rejects, with the error, in order. *)
Definition rejections (eff : list Effect) : list (N * string) :=
  omap (λ e, match e with
             | PendingRejected i err => Some (i, err)
             | _ => None
             end) eff.

(** What a waiter of the ready promise does when the promise is rejected: a
    [call] fails its caller, [activateStateSubscription] logs. *)
Definition notReadyOf (err : string) (wt : Ws.Waiter) : Effect :=
  match wt with
  | Ws.WaitCall _ who => rejectionOf err who
  | Ws.WaitActivate => Log Error Ws.subscribeFailed err
  end.

(** The subscription [sub-1] of [polled]. *)
Definition polledSub : Rest.Subscription :=
  default {| Rest.id := ""; Rest.entityIds := ∅; Rest.callback := 0;
             Rest.lastStates := ∅ |}
    (JsMap.get "sub-1" (Rest.subscriptions polled)).

(** A streaming transport in its first handshake, with a subscription made
    meanwhile: [activateStateSubscription] awaits the ready promise. *)
Definition awaited : Ws.State :=
  (Ws.run quiet
     [Ws.ApiConnect; Ws.ApiSubscribe "sub-1" ["sensor.abc_target_1_x"] 1;
      Ws.SockOpen 0; Ws.SockMessage 0 (Some (bare "auth_required"))]
     (Ws.init "token") ()).1.1.

(** A polling transport with two subscriptions before its first tick:
    [sub-1], whose callback (reference 1) throws, watches one entity, and
    [sub-2] watches them all. *)
Definition watchedTwice : Rest.State :=
  Rest.subscribeToStateChanges "sub-2" [] 2
    (Rest.subscribeToStateChanges "sub-1" ["sensor.abc_target_1_x"] 1 Rest.init).

Definition watchesAll : Rest.Subscription :=
  {| Rest.id := "sub-2"; Rest.entityIds := list_to_set [];
     Rest.callback := 2; Rest.lastStates := ∅ |}.

(** The selector with the default options when nothing happens on the socket
    of the streaming transport before the selector's timer fires, and the
    REST API answers; and the streaming transport it gave up. *)
Definition timedOut : option Ws.State * unit * list Effect * Factory.Ending :=
  Factory.createReadTransport quiet Factory.defaults false "token" []
    (answers ()) (answers ()) ().

Definition abandoned : Ws.State := default (Ws.init "token") timedOut.1.1.1.

(** What the [ws] library emits, in one turn, on a socket that is closed
    during its opening handshake. *)
Definition aborted (c : nat) : list Ws.Event :=
  [Ws.SockError c "WebSocket was closed before the connection was established";
   Ws.SockClose c].

(** The turns of a handshake that the server refuses. *)
Definition refused : list (list Ws.Event) :=
  [[Ws.SockOpen 0]; [Ws.SockMessage 0 (Some (bare "auth_required"))];
   [Ws.SockMessage 0 (Some (bare "auth_invalid"))]].

(** The one turn of a connection that cannot be made: the [ws] library emits
    the error and the close together. *)
Definition unreachable : list (list Ws.Event) :=
  [[Ws.SockError 0 "connect ECONNREFUSED"; Ws.SockClose 0]].

(** A fetch that the polling transport counts as failed: the promise is
    rejected, the status is not a success, or the body does not parse. *)
Definition fetchFailed {A} (net : Fetched A) : bool :=
  match net with
  | Throw _ => true
  | Ok res =>
      negb (ok res) || match json res with
                       | Throw _ => true
                       | Ok _ => false
                       end
  end.

(** What an invocation of a poll tick tells its subscriber: it is made for a
    subscription of the map, carries a new record under that record's entity
    id, and carries as previous record nothing, or a record that differs from
    the new one in value or in [last_updated]. *)
Definition reportsChange (subs : JsMap.t string Rest.Subscription)
    (inv : string * nat * string * option HassState * option HassState) : Prop :=
  let '(sid, c, x, n, o) := inv in
  (∃ k sub, (k, sub) ∈ subs ∧ sid = Rest.id sub ∧ c = Rest.callback sub)
  ∧ ∃ new, n = Some new ∧ entity_id new = x
      ∧ match o with
        | None => True
        | Some old => Rest.stateChanged old new = true
        end.

(** A streaming transport right after its first handshake. *)
Definition connected : Ws.State :=
  (Ws.run quiet (Ws.ApiConnect :: handshake 0) (Ws.init "token") ()).1.1.

(** * Properties *)

(** ** JS maps *)

Section jsmap_facts.
Context {K : Type} `{EqDecision K} {V : Type}.
Implicit Types (m : JsMap.t K V) (k : K) (v : V).

Lemma get_set m k k' v :
    JsMap.get k (JsMap.set k' v m) = if decide (k = k') then Some v else JsMap.get k m.
Proof.
    induction m as [|[k0 v0] m IH]; simpl.
    - by destruct (decide (k = k')).
    - destruct (decide (k' = k0)) as [->|Hne]; simpl.
      + by destruct (decide (k = k0)).
      + destruct (decide (k = k0)) as [->|]; [|done].
        by destruct (decide (k0 = k')) as [->|].
Qed.

Lemma get_delete_ne m k k' :
    k ≠ k' → JsMap.get k (JsMap.delete k' m) = JsMap.get k m.
Proof.
    intros Hne. induction m as [|[k0 v0] m IH]; simpl; [done|].
    destruct (decide (k' = k0)) as [->|]; simpl.
    - by destruct (decide (k = k0)).
    - by destruct (decide (k = k0)).
Qed.

Lemma keys_set m k v :
    JsMap.keys (JsMap.set k v m)
    = if bool_decide (k ∈ JsMap.keys m) then JsMap.keys m else JsMap.keys m ++ [k].
Proof.
    unfold JsMap.keys. induction m as [|[k0 v0] m IH]; csimpl; [done|].
    destruct (decide (k = k0)) as [->|Hne]; csimpl.
    - rewrite bool_decide_eq_true_2; [done | by left].
    - rewrite IH. case_bool_decide as Hin.
      + rewrite bool_decide_eq_true_2; [done | by right].
      + rewrite bool_decide_eq_false_2; [done|].
        intros [->|?]%elem_of_cons; done.
Qed.

Lemma keys_set_NoDup m k v :
    NoDup (JsMap.keys m) → NoDup (JsMap.keys (JsMap.set k v m)).
Proof.
    intros Hnd. rewrite keys_set. case_bool_decide as Hin; [done|].
    apply NoDup_app. split_and!; [done | | apply NoDup_singleton].
    intros x Hx ->%list_elem_of_singleton. done.
Qed.

Lemma get_Some_elem_of m k v : JsMap.get k m = Some v → (k, v) ∈ m.
Proof.
    induction m as [|[k0 v0] m IH]; simpl; [done|].
    destruct (decide (k = k0)) as [->|]; [intros [= ->]; by left|].
    intros ?. right. by apply IH.
Qed.

Lemma get_None_keys m k : JsMap.get k m = None ↔ k ∉ JsMap.keys m.
Proof.
    unfold JsMap.keys. induction m as [|[k0 v0] m IH]; csimpl.
    - split; [intros _ ?%elem_of_nil; done | done].
    - destruct (decide (k = k0)) as [->|Hne].
      + split; [done | intros []; by left].
      + rewrite IH. split.
        * intros ? [?|?]%elem_of_cons; done.
        * intros Hn ?. apply Hn. by right.
Qed.
End jsmap_facts.

(** ** The selection loop of [getStates] *)

Lemma selectStates_get entityIds allStates result k :
  JsMap.get k (selectStates entityIds allStates result)
  = match (if bool_decide (k ∈ entityIds) then lastOf k allStates else None) with
    | Some s => Some s
    | None => JsMap.get k result
    end.
Proof.
  revert result. induction allStates as [|s rest IH]; intros result; simpl.
  - unfold lastOf. simpl. by case_bool_decide.
  - rewrite IH. unfold lastOf. rewrite filter_cons.
    case_bool_decide as Hk; [|by case_bool_decide; [rewrite get_set|]; 
                               try destruct (decide _); subst].
    destruct (decide (entity_id s = k)) as [Heq|Hne].
    + rewrite last_cons. destruct (last _) eqn:Hl; [done|].
      rewrite Heq, bool_decide_eq_true_2 by done.
      rewrite get_set. by destruct (decide (k = k)).
    + destruct (last _); [done|].
      case_bool_decide; [|done]. rewrite get_set.
      destruct (decide (k = entity_id s)); [by subst | done].
Qed.

Lemma selectStates_NoDup entityIds allStates result :
  NoDup (JsMap.keys result) →
  NoDup (JsMap.keys (selectStates entityIds allStates result)).
Proof.
  revert result. induction allStates as [|s rest IH]; intros result Hnd; simpl;
    [done|].
  apply IH. case_bool_decide; [by apply keys_set_NoDup | done].
Qed.

Lemma lastOf_entity_id k allStates s :
  lastOf k allStates = Some s → entity_id s = k ∧ s ∈ allStates.
Proof.
  unfold lastOf. intros Hl.
  assert (s ∈ filter (λ s, entity_id s = k) allStates) as Hin.
  { destruct (filter _ _) as [|x l] using rev_ind; [done|].
    rewrite last_snoc in Hl. injection Hl as ->.
    apply elem_of_app. right. by left. }
  by apply list_elem_of_filter in Hin.
Qed.

Lemma lastOf_is_Some k allStates :
  is_Some (lastOf k allStates) ↔ k ∈ entity_id <$> allStates.
Proof.
  unfold lastOf. rewrite list_elem_of_fmap. split.
  - intros [s Hs]. apply lastOf_entity_id in Hs as [? ?]. by exists s.
  - intros (s & -> & Hin).
    assert (s ∈ filter (λ s0, entity_id s0 = entity_id s) allStates) as Hf
      by by apply list_elem_of_filter.
    destruct (filter _ _) as [|x l] using rev_ind; [by apply elem_of_nil in Hf|].
    rewrite last_snoc. by eexists.
Qed.

(** ** Bulk and single state queries *)

Lemma rest_getAllStates_total net :
  ∃ log allStates, Rest.getAllStates net = (log, Ok allStates).
Proof.
  unfold Rest.getAllStates, try_catch, await, mbind, comp_bind.
  destruct net as [res|err]; [|by eexists _, _].
  destruct (ok res); simpl.
  - destruct (json res); by eexists _, _.
  - destruct (text res); by eexists _, _.
Qed.

Lemma rest_getAllStates_ok res allStates :
  ok res = true → json res = Ok allStates →
  Rest.getAllStates (Ok res) = ([], Ok allStates).
Proof.
  intros Hok Hjson.
  unfold Rest.getAllStates, try_catch, await, mbind, comp_bind.
  by rewrite Hok, Hjson.
Qed.

Lemma rest_getStates_total entityIds net :
  ∃ log allStates,
    Rest.getStates entityIds net = (log, Ok (selectStates entityIds allStates [])).
Proof.
  destruct (rest_getAllStates_total net) as (log & allStates & Hall).
  exists log, allStates. unfold Rest.getStates, mbind, comp_bind, mret, comp_ret.
  rewrite Hall. by rewrite app_nil_r.
Qed.

(** C6. A bulk state fetch over the ids [E] returns, on either transport, a
    map that holds exactly the ids of [E] found in the upstream state list,
    each with the (last) upstream record of that id; ids that upstream does
    not know are absent, and the fetch does not fail because of them: the
    polling transport returns a map whatever the network answers, and the
    streaming transport settles the query with a map whenever the answer to
    its command arrives. *)
Theorem getStates_exact_subset (E : list string) (allStates : list HassState) :
  let m := selectStates E allStates [] in
  (∀ k, is_Some (JsMap.get k m) ↔ k ∈ E ∧ k ∈ entity_id <$> allStates)
  ∧ (∀ k s, JsMap.get k m = Some s ↔ k ∈ E ∧ lastOf k allStates = Some s)
  ∧ (∀ k s, JsMap.get k m = Some s → entity_id s = k ∧ s ∈ allStates)
  ∧ NoDup (JsMap.keys m)
  ∧ (∀ net, ∃ log upstream,
        Rest.getStates E net = (log, Ok (selectStates E upstream [])))
  ∧ (∀ res, ok res = true → json res = Ok allStates →
        Rest.getStates E (Ok res) = ([], Ok m))
  ∧ (∀ response tag s, ∃ log upstream,
        Ws.answerTo (Ws.CallerQuery (Ws.QStates E) tag) (Ok response) s
        = (s, log ++ [QuerySettled tag (Ok (AnsMap (selectStates E upstream [])))]))
  ∧ (∀ response tag s,
        Ws.m_type response = "result" → Ws.m_success response = true →
        Ws.m_result response = Some allStates →
        Ws.answerTo (Ws.CallerQuery (Ws.QStates E) tag) (Ok response) s
        = (s, [QuerySettled tag (Ok (AnsMap m))])).
Proof.
  intros m.
  assert (∀ k s, JsMap.get k m = Some s ↔ k ∈ E ∧ lastOf k allStates = Some s)
    as Hget.
  { intros k s. unfold m. rewrite selectStates_get. simpl.
    case_bool_decide as Hk.
    - destruct (lastOf k allStates); naive_solver.
    - naive_solver. }
  split_and!.
  - intros k. rewrite <- lastOf_is_Some. unfold is_Some.
    setoid_rewrite Hget. naive_solver.
  - done.
  - intros k s [_ Hl]%Hget. by apply lastOf_entity_id.
  - by apply selectStates_NoDup, NoDup_nil.
  - intros net. apply rest_getStates_total.
  - intros res Hok Hjson. unfold Rest.getStates, mbind, comp_bind, mret, comp_ret.
    by rewrite (rest_getAllStates_ok _ _ Hok Hjson).
  - intros response tag s. unfold Ws.answerTo, Ws.getAllStates.
    destruct (_ && _); by eexists _, _.
  - intros response tag s Ht Hs Hr. unfold Ws.answerTo, Ws.getAllStates.
    rewrite Ht, Hs, Hr. done.
Qed.

Lemma rest_getState_total entityId net :
  ∃ log r, Rest.getState entityId net = (log, Ok r).
Proof.
  unfold Rest.getState, try_catch, await, mbind, comp_bind.
  destruct net as [res|err]; [|by eexists _, _].
  destruct (ok res); simpl.
  - destruct (json res); by eexists _, _.
  - destruct (status res =? 404)%N; [by eexists _, _|].
    destruct (text res); by eexists _, _.
Qed.

(** C9, as the code has it. [RestReadTransport.getState] never raises: it
    returns [null] on a 404, on any other failed status and on any fetch or
    parse error.  [WsReadTransport.getState] returns [null] when the id is
    absent from the bulk result, but it has no handler of its own: when the
    underlying [call] is rejected, the query is rejected with the same
    error. *)
Theorem getState_null_or_rejected (entityId : string) :
  (∀ net, ∃ log r, Rest.getState entityId net = (log, Ok r))
  ∧ (∀ res, status res = 404%N → Rest.getState entityId (Ok res) = ([], Ok None))
  ∧ (∀ res, ok res = false → ∃ log, Rest.getState entityId (Ok res) = (log, Ok None))
  ∧ (∀ res err, ok res = true → json res = Throw err →
       ∃ log, Rest.getState entityId (Ok res) = (log, Ok None))
  ∧ (∀ err, ∃ log, Rest.getState entityId (Throw err) = (log, Ok None))
  ∧ (∀ response tag s, ∃ log upstream,
       Ws.answerTo (Ws.CallerQuery (Ws.QState entityId) tag) (Ok response) s
       = (s, log ++ [QuerySettled tag (Ok (AnsOne (Ws.getState entityId upstream)))]))
  ∧ (∀ allStates, entityId ∉ entity_id <$> allStates →
       Ws.getState entityId allStates = None)
  ∧ (∀ err tag s,
       Ws.answerTo (Ws.CallerQuery (Ws.QState entityId) tag) (Throw err) s
       = (s, [QuerySettled tag (Throw err)])).
Proof.
  split_and!.
  - apply rest_getState_total.
  - intros res H404. unfold Rest.getState, try_catch, await, mbind, comp_bind, ok.
    by rewrite H404.
  - intros res Hok. unfold Rest.getState, try_catch, await, mbind, comp_bind.
    rewrite Hok. simpl. destruct (status res =? 404)%N; [by eexists|].
    destruct (text res); by eexists.
  - intros res err Hok Hjson.
    unfold Rest.getState, try_catch, await, mbind, comp_bind.
    rewrite Hok, Hjson. by eexists.
  - intros err. by eexists.
  - intros response tag s. unfold Ws.answerTo, Ws.getAllStates.
    destruct (_ && _); by eexists _, _.
  - intros allStates Hnot. unfold Ws.getState, Ws.getStates.
    rewrite selectStates_get. case_bool_decide; [|done].
    destruct (lastOf entityId allStates) eqn:Hl; [|done].
    exfalso. apply Hnot, lastOf_is_Some. by eexists.
  - done.
Qed.

(** C9 as stated fails on the streaming transport: a [getState] whose
    [get_states] command is never answered is rejected when the request timer
    fires. *)
Lemma getState_ws_rejected_on_timeout :
  last (Ws.run quiet
          (Ws.ApiConnect :: handshake 0
           ++ [Ws.ApiQuery (Ws.QState "sensor.abc_target_1_x") 7;
               Ws.RequestTimeout 1])
          (Ws.init "token") ()).2
  = Some (QuerySettled 7 (Throw "WS request timed out")).
Proof. vm_compute. reflexivity. Qed.

(** ** The polling tick *)

Lemma calls_app sid x e1 e2 :
  calls sid x (e1 ++ e2) = calls sid x e1 + calls sid x e2.
Proof. induction e1 as [|e e1 IH]; simpl; [done|]. rewrite IH. lia. Qed.

Lemma filter_filter_implied {A} (P Q : A → Prop)
    `{∀ a, Decision (P a)} `{∀ a, Decision (Q a)} (l : list A) :
  (∀ a, P a → Q a) → filter P (filter Q l) = filter P l.
Proof.
  intros HPQ. induction l as [|a l IH]; [done|].
  rewrite (filter_cons Q). destruct (decide (Q a)) as [HQ|HQ].
  - rewrite !filter_cons. by rewrite IH.
  - rewrite filter_cons. destruct (decide (P a)) as [HP|]; [|done].
    by apply HPQ in HP.
Qed.

Section polling_facts.
Context {W : Type}.
Variable cb :
  nat → string → option HassState → option HassState → W → W * Outcome.

Lemma invoke_calls msg sid' c x' n o w sid x :
  calls sid x (invoke cb msg sid' c x' n o w).2
  = if bool_decide (sid' = sid) && bool_decide (x' = x) then 1 else 0.
Proof.
  unfold invoke. destruct (cb c x' n o w) as [w' out]. simpl.
  destruct out; simpl; destruct (_ && _); done.
Qed.

Lemma invoke_invocations msg sid c x n o w :
  invocations (invoke cb msg sid c x n o w).2 = [(sid, c, x, n, o)].
Proof.
  unfold invoke. destruct (cb c x n o w) as [w' out]. by destruct out.
Qed.

(** One record: the subscription keeps its identity and filter and remembers
    the record; it is told when it knew no record or a different one. *)
Lemma notify_spec sub w newState :
  ∃ w' eff,
    Rest.notify cb sub w newState
    = (Rest.set_lastStates
         (<[entity_id newState := newState]> (Rest.lastStates sub)) sub, w', eff)
    ∧ ∀ sid x,
        calls sid x eff
        = if bool_decide (Rest.id sub = sid)
             && bool_decide (entity_id newState = x)
             && match Rest.lastStates sub !! x with
                | None => true
                | Some o => Rest.stateChanged o newState
                end
          then 1 else 0.
Proof.
  unfold Rest.notify.
  destruct (Rest.lastStates sub !! entity_id newState) as [o|] eqn:Hold.
  - destruct (Rest.stateChanged o newState) eqn:Hch.
    + destruct (invoke _ _ _ _ _ _ _ _) as [w' eff] eqn:Hinv.
      exists w', eff. split; [done|]. intros sid x.
      change eff with (w', eff).2. rewrite <- Hinv, invoke_calls.
      case_bool_decide; [|done]. case_bool_decide as Hx; [|done].
      subst x. by rewrite Hold, Hch.
    + exists w, []. split; [done|]. intros sid x. simpl.
      case_bool_decide; [|done]. case_bool_decide as Hx; [|done].
      subst x. by rewrite Hold, Hch.
  - destruct (invoke _ _ _ _ _ _ _ _) as [w' eff] eqn:Hinv.
    exists w', eff. split; [done|]. intros sid x.
    change eff with (w', eff).2. rewrite <- Hinv, invoke_calls.
    case_bool_decide; [|done]. case_bool_decide as Hx; [|done].
    subst x. by rewrite Hold.
Qed.

(** The records of one tick, for one subscription, when none of them is about
    the entity [x]: no call for [x], and what is remembered of [x] stays. *)
Lemma notifyAll_other sub w l x :
  filter (λ s, entity_id s = x) l = [] →
  ∃ sub' w' eff,
    Rest.notifyAll cb sub w l = (sub', w', eff)
    ∧ Rest.id sub' = Rest.id sub
    ∧ Rest.entityIds sub' = Rest.entityIds sub
    ∧ Rest.lastStates sub' !! x = Rest.lastStates sub !! x
    ∧ ∀ sid, calls sid x eff = 0.
Proof.
  revert sub w. induction l as [|s l IH]; intros sub w Hf; simpl.
  - by eexists _, _, _.
  - rewrite filter_cons in Hf.
    destruct (decide (entity_id s = x)) as [|Hne]; [done|].
    destruct (notify_spec sub w s) as (w1 & e1 & -> & Hc1).
    destruct (IH (Rest.set_lastStates
                    (<[entity_id s := s]> (Rest.lastStates sub)) sub) w1 Hf)
      as (sub' & w' & e2 & -> & Hid & Hids & Hlast & Hc2).
    eexists _, _, _. split; [done|]. split_and!; [done | done | |].
    + rewrite Hlast. simpl. by rewrite lookup_insert_ne.
    + intros sid. rewrite calls_app, Hc1, Hc2.
      rewrite (bool_decide_eq_false_2 (entity_id s = x)) by done.
      by rewrite andb_false_r.
Qed.

(** The same when exactly one record, [new], is about [x]. *)
Lemma notifyAll_one sub w l x new :
  filter (λ s, entity_id s = x) l = [new] →
  ∃ sub' w' eff,
    Rest.notifyAll cb sub w l = (sub', w', eff)
    ∧ Rest.id sub' = Rest.id sub
    ∧ Rest.entityIds sub' = Rest.entityIds sub
    ∧ Rest.lastStates sub' !! x = Some new
    ∧ (∀ sid, sid ≠ Rest.id sub → calls sid x eff = 0)
    ∧ calls (Rest.id sub) x eff
      = if match Rest.lastStates sub !! x with
           | None => true
           | Some o => Rest.stateChanged o new
           end
        then 1 else 0.
Proof.
  revert sub w. induction l as [|s l IH]; intros sub w Hf; simpl; [done|].
  rewrite filter_cons in Hf.
  destruct (notify_spec sub w s) as (w1 & e1 & -> & Hc1).
  destruct (decide (entity_id s = x)) as [Heq|Hne].
  - injection Hf as -> Hf.
    destruct (notifyAll_other
                (Rest.set_lastStates
                   (<[entity_id new := new]> (Rest.lastStates sub)) sub) w1 l x Hf)
      as (sub' & w' & e2 & -> & Hid & Hids & Hlast & Hc2).
    eexists _, _, _. split; [done|]. split_and!; [done | done | | |].
    + rewrite Hlast. simpl. by rewrite Heq, lookup_insert_eq.
    + intros sid Hsid. rewrite calls_app, Hc1, Hc2.
      by rewrite (bool_decide_eq_false_2 (Rest.id sub = sid)).
    + rewrite calls_app, Hc1, Hc2.
      rewrite !bool_decide_eq_true_2 by done. simpl. lia.
  - destruct (IH (Rest.set_lastStates
                    (<[entity_id s := s]> (Rest.lastStates sub)) sub) w1 Hf)
      as (sub' & w' & e2 & -> & Hid & Hids & Hlast & Hc2 & Hc3).
    eexists _, _, _. split; [done|]. split_and!; [done | done | done | |].
    + intros sid Hsid. rewrite calls_app, Hc1, (Hc2 sid Hsid).
      rewrite (bool_decide_eq_false_2 (entity_id s = x)) by done.
      by rewrite andb_false_r.
    + rewrite calls_app, Hc1. simpl in Hc3.
      rewrite lookup_insert_ne in Hc3 by done. rewrite Hc3.
      rewrite (bool_decide_eq_false_2 (entity_id s = x)) by done.
      by rewrite andb_false_r.
Qed.
(** Whatever the records, a subscription keeps its identity and filter, only
    its own id appears in the calls, and it remembers nothing beyond what it
    knew and what it was shown. *)
Lemma notifyAll_frame sub w l :
  ∃ sub' w' eff,
    Rest.notifyAll cb sub w l = (sub', w', eff)
    ∧ Rest.id sub' = Rest.id sub
    ∧ Rest.entityIds sub' = Rest.entityIds sub
    ∧ Rest.callback sub' = Rest.callback sub
    ∧ (∀ sid x, sid ≠ Rest.id sub → calls sid x eff = 0)
    ∧ (∀ x, is_Some (Rest.lastStates sub' !! x) →
         is_Some (Rest.lastStates sub !! x) ∨ x ∈ entity_id <$> l).
Proof.
  revert sub w. induction l as [|s l IH]; intros sub w; simpl.
  - eexists _, _, _. split; [done|]. split_and!; auto.
  - destruct (notify_spec sub w s) as (w1 & e1 & -> & Hc1).
    destruct (IH (Rest.set_lastStates
                    (<[entity_id s := s]> (Rest.lastStates sub)) sub) w1)
      as (sub' & w' & e2 & -> & Hid & Hids & Hcb & Hc2 & Hl).
    eexists _, _, _. split; [done|]. split_and!; [done | done | done | |].
    + intros sid x Hsid. rewrite calls_app, Hc1, (Hc2 sid x Hsid).
      by rewrite (bool_decide_eq_false_2 (Rest.id sub = sid)).
    + intros x [Hx|Hx]%Hl.
      * simpl in Hx. destruct (decide (entity_id s = x)) as [<-|Hne].
        -- right. by left.
        -- left. by rewrite lookup_insert_ne in Hx.
      * right. by right.
Qed.

Lemma relevantStates_relevant sub states x :
  x ∈ entity_id <$> Rest.relevantStates sub states →
  size (Rest.entityIds sub) = 0 ∨ x ∈ Rest.entityIds sub.
Proof.
  unfold Rest.relevantStates. case_bool_decide as Hsz; [by left|].
  intros (s & -> & Hs)%list_elem_of_fmap. right.
  by apply list_elem_of_filter in Hs as [? _].
Qed.

Lemma relevantStates_filter sub states x :
  size (Rest.entityIds sub) = 0 ∨ x ∈ Rest.entityIds sub →
  filter (λ s, entity_id s = x) (Rest.relevantStates sub states)
  = filter (λ s, entity_id s = x) states.
Proof.
  intros Hrel. unfold Rest.relevantStates. case_bool_decide as Hsz; [done|].
  destruct Hrel as [?|Hx]; [done|].
  apply filter_filter_implied. by intros s ->.
Qed.

(** The loop over the subscriptions keeps the keys and the well-formedness of
    the map. *)
Lemma pollSubscriptions_frame states subs w :
  ∃ subs' w' eff,
    Rest.pollSubscriptions cb states subs w = (subs', w', eff)
    ∧ JsMap.keys subs' = JsMap.keys subs
    ∧ (∀ k sub', (k, sub') ∈ subs' →
         ∃ sub, (k, sub) ∈ subs
           ∧ Rest.id sub' = Rest.id sub
           ∧ Rest.entityIds sub' = Rest.entityIds sub
           ∧ ∀ x, is_Some (Rest.lastStates sub' !! x) →
               is_Some (Rest.lastStates sub !! x)
               ∨ size (Rest.entityIds sub) = 0 ∨ x ∈ Rest.entityIds sub)
    ∧ (∀ sid x, sid ∉ Rest.id <$> JsMap.values subs → calls sid x eff = 0).
Proof.
  revert w. induction subs as [|[k sub] subs IH]; intros w; simpl.
  - eexists _, _, _. split; [done|]. split_and!; [done | | done].
    by intros ? ? ?%elem_of_nil.
  - destruct (notifyAll_frame sub w (Rest.relevantStates sub states))
      as (sub1 & w1 & e1 & -> & Hid & Hids & _ & Hc1 & Hl1).
    destruct (IH w1) as (subs' & w' & e2 & -> & Hkeys & Hsubs & Hc2).
    eexists _, _, _. split; [done|]. split_and!.
    + unfold JsMap.keys in *. csimpl. by rewrite Hkeys.
    + intros k' sub' [[= -> ->]|Hin]%elem_of_cons.
      * exists sub. split; [by left|]. split_and!; [done | done |].
        intros x [?|Hx]%Hl1; [by left|]. right.
        by apply relevantStates_relevant in Hx.
      * destruct (Hsubs _ _ Hin) as (sub0 & ? & ?). exists sub0.
        split; [by right | done].
    + intros sid x Hsid. unfold JsMap.values in Hsid. csimpl in Hsid.
      rewrite calls_app, Hc1, Hc2; [done | |].
      * intros ?. apply Hsid. by right.
      * intros ->. apply Hsid. by left.
Qed.

Lemma pollSubscriptions_calls states subs w sid x sub new :
  NoDup (JsMap.keys subs) →
  (∀ k s, (k, s) ∈ subs → Rest.id s = k) →
  JsMap.get sid subs = Some sub →
  filter (λ s, entity_id s = x) (Rest.relevantStates sub states) = [new] →
  ∃ subs' w' eff sub',
    Rest.pollSubscriptions cb states subs w = (subs', w', eff)
    ∧ JsMap.get sid subs' = Some sub'
    ∧ Rest.entityIds sub' = Rest.entityIds sub
    ∧ Rest.lastStates sub' !! x = Some new
    ∧ calls sid x eff
      = if match Rest.lastStates sub !! x with
           | None => true
           | Some o => Rest.stateChanged o new
           end
        then 1 else 0.
Proof.
  revert w. induction subs as [|[k sub0] subs IH]; intros w Hnd Hid Hget Hf;
    simpl in *; [done|].
  unfold JsMap.keys in Hnd. csimpl in Hnd. apply NoDup_cons in Hnd as [Hk Hnd].
  destruct (decide (sid = k)) as [->|Hne].
  - injection Hget as ->.
    assert (Rest.id sub = k) as Hidk by (apply Hid; by left). subst k.
    destruct (notifyAll_one sub w _ x new Hf)
      as (sub1 & w1 & e1 & -> & ? & ? & ? & _ & Hc1).
    destruct (pollSubscriptions_frame states subs w1)
      as (subs' & w' & e2 & -> & _ & _ & Hc2).
    eexists _, _, _, sub1. split; [done|]. simpl.
    destruct (decide (_ = _)); [|done]. split_and!; [done | done | done |].
    rewrite calls_app, Hc2, Hc1; [lia|].
    intros (s & Hs & Hin)%list_elem_of_fmap. apply Hk.
    apply list_elem_of_fmap in Hin as ([k' s'] & -> & Hin).
    assert (Rest.id s' = k') as <- by (apply Hid; by right).
    simpl in Hs. rewrite Hs.
    apply list_elem_of_fmap. by exists (Rest.id s', s').
  - destruct (notifyAll_frame sub0 w (Rest.relevantStates sub0 states))
      as (sub1 & w1 & e1 & -> & ? & ? & _ & Hc1 & _).
    destruct (IH w1) as (subs' & w' & e2 & sub' & -> & ? & ? & ? & Hc2);
      [done | | done | done |].
    { intros ???. apply Hid. by right. }
    eexists _, _, _, sub'. split; [done|]. simpl.
    destruct (decide (sid = k)); [done|]. split_and!; [done | done | done |].
    rewrite calls_app, Hc1, Hc2; [done|].
    intros ->. apply Hne. apply Hid. by left.
Qed.
End polling_facts.

Lemma elem_of_set {K V} `{EqDecision K} (m : JsMap.t K V) k v k' v' :
  (k, v) ∈ JsMap.set k' v' m → (k, v) = (k', v') ∨ (k, v) ∈ m.
Proof.
  induction m as [|[k0 v0] m IH]; simpl.
  - intros ->%list_elem_of_singleton. by left.
  - destruct (decide (k' = k0)) as [->|].
    + intros [->|?]%elem_of_cons; [by left | right; by right].
    + intros [->|[?|?]%IH]%elem_of_cons; [right; by left | by left |].
      right. by right.
Qed.

Lemma selectStates_keyed entityIds allStates result k v :
  (∀ k v, (k, v) ∈ result → entity_id v = k) →
  (k, v) ∈ selectStates entityIds allStates result → entity_id v = k.
Proof.
  revert result. induction allStates as [|s rest IH]; intros result Hres; simpl.
  - apply Hres.
  - apply IH. case_bool_decide; [|done].
    intros k' v' [[= -> ->]|?]%elem_of_set; [done | by apply Hres].
Qed.

Lemma values_filter_keyed (m : JsMap.t string HassState) x :
  NoDup (JsMap.keys m) →
  (∀ k v, (k, v) ∈ m → entity_id v = k) →
  filter (λ s, entity_id s = x) (JsMap.values m)
  = match JsMap.get x m with Some s => [s] | None => [] end.
Proof.
  unfold JsMap.keys, JsMap.values.
  induction m as [|[k v] m IH]; intros Hnd Hkey; csimpl; [done|].
  apply NoDup_cons in Hnd as [Hk Hnd].
  assert (entity_id v = k) as Hv by (apply Hkey; by left).
  rewrite filter_cons, Hv.
  assert (∀ k v, (k, v) ∈ m → entity_id v = k) as Hkey'
    by (intros ???; apply Hkey; by right).
  destruct (decide (x = k)) as [->|Hne].
  - destruct (decide (k = k)); [|done]. f_equal.
    rewrite IH by done.
    destruct (JsMap.get k m) eqn:Hg; [|done].
    apply get_Some_elem_of in Hg. exfalso. apply Hk.
    apply list_elem_of_fmap. by eexists (_, _).
  - destruct (decide (k = x)); [done|]. by apply IH.
Qed.

Lemma collectEntityIds_nonempty subs acc :
  size (Rest.collectEntityIds subs acc) ≠ 0 →
  acc ⊆ Rest.collectEntityIds subs acc
  ∧ ∀ sub, sub ∈ subs →
      size (Rest.entityIds sub) ≠ 0
      ∧ Rest.entityIds sub ⊆ Rest.collectEntityIds subs acc.
Proof.
  revert acc. induction subs as [|sub0 subs IH]; intros acc; simpl.
  - intros _. split; [done|]. by intros ? ?%elem_of_nil.
  - case_bool_decide as Hsz; [by rewrite size_empty|].
    intros [Hacc Hsubs]%IH. split; [set_solver|].
    intros sub [->|Hin]%elem_of_cons; [split; [done | set_solver]|].
    by apply Hsubs.
Qed.

Lemma stateChanged_iff oldState newState :
  Rest.stateChanged oldState newState = true
  ↔ state oldState ≠ state newState
    ∨ last_updated oldState ≠ last_updated newState.
Proof.
  unfold Rest.stateChanged. repeat case_bool_decide; naive_solver.
Qed.

Lemma stateChanged_refl s : Rest.stateChanged s s = false.
Proof. unfold Rest.stateChanged. by repeat case_bool_decide. Qed.

Section tick_facts.
Context {W : Type}.
Variable cb :
  nat → string → option HassState → option HassState → W → W * Outcome.

(** The records a subscription is shown about [x] in a tick whose fetch
    answers [allStates]: those of [allStates], when its filter lets [x]
    through and upstream holds one record of [x]. *)
Lemma tick_states st sid sub x new res allStates :
  JsMap.get sid (Rest.subscriptions st) = Some sub →
  size (Rest.entityIds sub) = 0 ∨ x ∈ Rest.entityIds sub →
  ok res = true → json res = Ok allStates →
  filter (λ s, entity_id s = x) allStates = [new] →
  ∃ states,
    Rest.fetchStates
      (Rest.collectEntityIds (JsMap.values (Rest.subscriptions st)) ∅) (Ok res)
    = ([], Ok states)
    ∧ filter (λ s, entity_id s = x) (Rest.relevantStates sub states) = [new].
Proof.
  intros Hget Hrel Hok Hjson Hone. unfold Rest.fetchStates.
  case_bool_decide as Hsz.
  - exists allStates. split; [by apply rest_getAllStates_ok|].
    by rewrite relevantStates_filter.
  - eexists. split.
    { unfold Rest.getStates, mbind, comp_bind, mret, comp_ret.
      by rewrite (rest_getAllStates_ok _ _ Hok Hjson). }
    rewrite relevantStates_filter by done.
    rewrite values_filter_keyed.
    + rewrite selectStates_get. unfold lastOf. rewrite Hone. simpl.
      rewrite bool_decide_eq_true_2; [done|].
      apply elem_of_elements.
      apply collectEntityIds_nonempty in Hsz as [_ Hsubs].
      assert (sub ∈ JsMap.values (Rest.subscriptions st)) as Hin.
      { apply get_Some_elem_of in Hget. apply list_elem_of_fmap.
        by eexists (_, _). }
      destruct (Hsubs _ Hin) as [Hne Hsub].
      destruct Hrel as [?|?]; [done | by apply Hsub].
    + by apply selectStates_NoDup, NoDup_nil.
    + intros k v. apply selectStates_keyed. by intros ? ? ?%elem_of_nil.
Qed.

Lemma tick_calls st sid x sub new res allStates w :
  rest_wf st →
  JsMap.get sid (Rest.subscriptions st) = Some sub →
  size (Rest.entityIds sub) = 0 ∨ x ∈ Rest.entityIds sub →
  ok res = true → json res = Ok allStates →
  filter (λ s, entity_id s = x) allStates = [new] →
  ∃ st' w' eff sub',
    Rest.tick cb st (Ok res) w = (st', w', eff)
    ∧ rest_wf st'
    ∧ JsMap.get sid (Rest.subscriptions st') = Some sub'
    ∧ Rest.entityIds sub' = Rest.entityIds sub
    ∧ Rest.lastStates sub' !! x = Some new
    ∧ calls sid x eff
      = if match Rest.lastStates sub !! x with
           | None => true
           | Some o => Rest.stateChanged o new
           end
        then 1 else 0.
Proof.
  intros [Hnd Hwf] Hget Hrel Hok Hjson Hone.
  destruct (tick_states st sid sub x new res allStates Hget Hrel Hok Hjson Hone)
    as (states & Hfetch & Hf).
  destruct (pollSubscriptions_calls cb states (Rest.subscriptions st) w sid x
              sub new Hnd) as (subs' & w' & eff & sub' & Hpoll & ? & ? & ? & Hc);
    [by intros k s [? _]%Hwf | done | done |].
  destruct (pollSubscriptions_frame cb states (Rest.subscriptions st) w)
    as (subs2 & w2 & eff2 & Hpoll2 & Hkeys & Hsubs & _).
  rewrite Hpoll in Hpoll2. injection Hpoll2 as <- <- <-.
  exists (Rest.set_subscriptions subs' st), w', eff, sub'.
  split.
  { unfold Rest.tick, Rest.pollStates. rewrite bool_decide_eq_false_2.
    - rewrite Hfetch, Hpoll. simpl. by rewrite app_nil_r.
    - unfold JsMap.size. by destruct (Rest.subscriptions st). }
  split_and!; [|done..].
  split; simpl; [by rewrite Hkeys|].
  intros k s' (s & Hin & Hid & Hids & Hlast)%Hsubs.
  destruct (Hwf _ _ Hin) as [Hk Hr]. split; [congruence|].
  intros y [Hy|Hy]%Hlast; rewrite Hids; [by apply Hr | done].
Qed.
End tick_facts.

(** The operations of the polling transport keep its state well formed. *)
Lemma rest_wf_init : rest_wf Rest.init.
Proof. split; [apply NoDup_nil_2 | by intros ? ? ?%elem_of_nil]. Qed.

Lemma rest_wf_subscribe subscriptionId ids callbackRef st :
  rest_wf st →
  rest_wf (Rest.subscribeToStateChanges subscriptionId ids callbackRef st).
Proof.
  intros [Hnd Hwf]. split; simpl; [by apply keys_set_NoDup|].
  intros k sub [[= -> ->]|Hin]%elem_of_set; [|by apply Hwf].
  split; [done|]. simpl. intros x [? Hx]. by rewrite lookup_empty in Hx.
Qed.

Lemma rest_wf_tick {W} (cb : nat → string → option HassState →
    option HassState → W → W * Outcome) st net w :
  rest_wf st → rest_wf (Rest.tick cb st net w).1.1.
Proof.
  intros [Hnd Hwf]. unfold Rest.tick, Rest.pollStates.
  case_bool_decide; [done|].
  destruct (Rest.fetchStates _ _) as [log [states|err]]; [|done].
  destruct (pollSubscriptions_frame cb states (Rest.subscriptions st) w)
    as (subs' & w' & eff & -> & Hkeys & Hsubs & _).
  split; simpl; [by rewrite Hkeys|].
  intros k s' (s & Hin & Hid & Hids & Hlast)%Hsubs.
  destruct (Hwf _ _ Hin) as [Hk Hr]. split; [congruence|].
  intros y [Hy|Hy]%Hlast; rewrite Hids; [by apply Hr | done].
Qed.

Section tick_claim.
Context {W : Type}.
Variable cb :
  nat → string → option HassState → option HassState → W → W * Outcome.

(** C1, as the code has it. Let a subscription of the polling transport hold a
    last-known record for the entity [x], and let a tick fetch exactly one
    record for [x]. The tick calls the subscription's callback for [x] once
    when the new record differs from the last-known one in the state value or
    in the [last_updated] timestamp, and not at all otherwise; [last_changed]
    is not compared.  In particular a following tick that fetches the same
    record again makes no call for [x]. *)
Theorem poll_tick_fires_iff_changed (st : Rest.State) (sid x : string)
    (sub : Rest.Subscription) (oldState newState : HassState)
    (res : Response (list HassState)) (allStates : list HassState) (w : W) :
  rest_wf st →
  JsMap.get sid (Rest.subscriptions st) = Some sub →
  Rest.lastStates sub !! x = Some oldState →
  ok res = true → json res = Ok allStates →
  filter (λ s, entity_id s = x) allStates = [newState] →
  let eff := (Rest.tick cb st (Ok res) w).2 in
  let st' := (Rest.tick cb st (Ok res) w).1.1 in
  (calls sid x eff = 1
   ↔ state oldState ≠ state newState
     ∨ last_updated oldState ≠ last_updated newState)
  ∧ (calls sid x eff = 0
     ↔ state oldState = state newState
       ∧ last_updated oldState = last_updated newState)
  ∧ (∀ res' allStates' w',
       ok res' = true → json res' = Ok allStates' →
       filter (λ s, entity_id s = x) allStates' = [newState] →
       calls sid x (Rest.tick cb st' (Ok res') w').2 = 0).
Proof.
  intros Hwf Hget Hold Hok Hjson Hone eff st'.
  assert (size (Rest.entityIds sub) = 0 ∨ x ∈ Rest.entityIds sub) as Hrel.
  { destruct Hwf as [_ Hwf]. apply get_Some_elem_of in Hget.
    destruct (Hwf _ _ Hget) as [_ Hr]. apply Hr. by rewrite Hold. }
  destruct (tick_calls cb st sid x sub newState res allStates w
              Hwf Hget Hrel Hok Hjson Hone)
    as (st1 & w1 & eff1 & sub1 & Htick & Hwf1 & Hget1 & Hids1 & Hlast1 & Hc).
  subst eff st'. rewrite Htick. simpl. rewrite Hold in Hc. rewrite Hc.
  pose proof (stateChanged_iff oldState newState) as Hch.
  split_and!.
  - destruct (Rest.stateChanged oldState newState); [naive_solver|].
    split; [done|]. intros ?%Hch. done.
  - destruct (Rest.stateChanged oldState newState).
    + split; [done|]. intros [? ?]. destruct Hch as [Hch _].
      destruct Hch; done.
    + split; [|done]. intros _.
      destruct (decide (state oldState = state newState));
        destruct (decide (last_updated oldState = last_updated newState));
        naive_solver.
  - intros res' allStates' w' Hok' Hjson' Hone'.
    destruct (tick_calls cb st1 sid x sub1 newState res' allStates' w'
                Hwf1 Hget1) as (? & ? & ? & ? & Htick' & _ & _ & _ & _ & Hc');
      [by rewrite Hids1 | done..|].
    rewrite Htick'. simpl. by rewrite Hc', Hlast1, stateChanged_refl.
Qed.
End tick_claim.

Lemma polled_remembers :
  ∃ sub, JsMap.get "sub-1" (Rest.subscriptions polled) = Some sub
         ∧ Rest.lastStates sub !! "sensor.abc_target_1_x" = Some seen.
Proof. eexists. split; vm_compute; reflexivity. Qed.

Lemma polledSub_get :
  JsMap.get "sub-1" (Rest.subscriptions polled) = Some polledSub.
Proof. vm_compute. reflexivity. Qed.

Lemma polledSub_last :
  Rest.lastStates polledSub !! "sensor.abc_target_1_x" = Some seen.
Proof. vm_compute. reflexivity. Qed.

Lemma polled_wf : rest_wf polled.
Proof. apply rest_wf_tick, rest_wf_subscribe, rest_wf_init. Qed.

(** A tick that fetches a record whose [last_updated] alone moved makes one
    call. *)
Lemma poll_tick_witness :
  calls "sub-1" "sensor.abc_target_1_x"
    (Rest.tick quiet polled
       (answers [sample "sensor.abc_target_1_x" "120" "10:00:00" "10:00:05"])
       ()).2 = 1.
Proof.
  pose proof (poll_tick_fires_iff_changed quiet polled "sub-1"
                "sensor.abc_target_1_x" polledSub seen
                (sample "sensor.abc_target_1_x" "120" "10:00:00" "10:00:05")
                {| status := 200;
                   json := Ok [sample "sensor.abc_target_1_x" "120"
                                 "10:00:00" "10:00:05"];
                   text := Ok "" |}
                [sample "sensor.abc_target_1_x" "120" "10:00:00" "10:00:05"] ()
                polled_wf polledSub_get polledSub_last eq_refl eq_refl eq_refl)
    as [Hone _].
  apply Hone. right. vm_compute. discriminate.
Defined.

(** C1 as stated fails: a tick where only [last_changed] differs from the
    last-known record (same value, same [last_updated]) makes no call. *)
Lemma poll_tick_ignores_last_changed :
  let newState := sample "sensor.abc_target_1_x" "120" "10:00:05" "10:00:00" in
  Rest.lastStates
    (default {| Rest.id := ""; Rest.entityIds := ∅; Rest.callback := 0;
                Rest.lastStates := ∅ |}
       (JsMap.get "sub-1" (Rest.subscriptions polled)))
    !! "sensor.abc_target_1_x" = Some seen
  ∧ state newState = state seen
  ∧ last_changed newState ≠ last_changed seen
  ∧ calls "sub-1" "sensor.abc_target_1_x"
      (Rest.tick quiet polled (answers [newState]) ()).2 = 0.
Proof. vm_compute. split_and!; [done | done | discriminate | done]. Qed.

(** ** Isolation of failing callbacks *)

Lemma invocations_app e1 e2 :
  invocations (e1 ++ e2) = invocations e1 ++ invocations e2.
Proof. apply omap_app. Qed.

Section isolation.
Context {W : Type}.
Variable cb :
  nat → string → option HassState → option HassState → W → W * Outcome.

Lemma invoke_logged msg sid c x n o w sid' c' x' n' o' :
  Invoke sid' c' x' n' o' ∈ (invoke cb msg sid c x n o w).2 →
  throwsOn cb c' x' n' o' →
  Log Error msg sid' ∈ (invoke cb msg sid c x n o w).2.
Proof.
  unfold invoke. intros Hin Hthrows.
  destruct (cb c x n o w) as [w' out] eqn:Hcb. simpl in *.
  assert (Invoke sid' c' x' n' o' = Invoke sid c x n o) as Heq.
  { destruct out; simpl in Hin.
    - by apply list_elem_of_singleton in Hin.
    - apply elem_of_cons in Hin as [?|Hin]; [done|].
      by apply list_elem_of_singleton in Hin. }
  injection Heq as -> -> -> -> ->.
  destruct (Hthrows w) as [err Herr]. rewrite Hcb in Herr.
  simpl in Herr. subst out. apply list_elem_of_further, list_elem_of_here.
Qed.

Lemma deliver_app msg invs1 invs2 w :
  deliver cb msg (invs1 ++ invs2) w
  = ((deliver cb msg invs2 (deliver cb msg invs1 w).1).1,
     (deliver cb msg invs1 w).2
     ++ (deliver cb msg invs2 (deliver cb msg invs1 w).1).2).
Proof.
  revert w. induction invs1 as [|[[[[sid c] x] n] o] invs1 IH]; intros w.
  - simpl. by destruct (deliver cb msg invs2 w).
  - cbn [app deliver]. destruct (cb c x n o w) as [w1 out].
    rewrite IH. destruct (deliver cb msg invs1 w1) as [w2 e2].
    cbn [fst snd]. destruct (deliver cb msg invs2 w2) as [w3 e3].
    cbn [fst snd]. by destruct out.
Qed.

Lemma deliver_invocations msg invs w :
  invocations (deliver cb msg invs w).2 = invs.
Proof.
  revert w. induction invs as [|[[[[sid c] x] n] o] invs IH]; intros w;
    [done|].
  cbn [deliver]. destruct (cb c x n o w) as [w1 out]. specialize (IH w1).
  destruct (deliver cb msg invs w1) as [w2 e2]. cbn [fst snd] in *.
  destruct out; simpl; by rewrite IH.
Qed.

(** The dispatch of a change event is the delivery of the invocations that
    are due, in order. *)
Lemma ws_notifyAll_deliver subs data w :
  Ws.notifyAll cb subs data w
  = deliver cb "WsReadTransport: Subscription callback error"
      ((λ sub, (Ws.id sub, Ws.callback sub, Ws.ev_entity_id data,
                Ws.new_state data, Ws.old_state data))
       <$> filter (λ sub, Ws.matches (Ws.ev_entity_id data) sub) subs) w.
Proof.
  revert w. induction subs as [|sub subs IH]; intros w; [done|].
  cbn [Ws.notifyAll]. destruct (Ws.matches _ sub) eqn:Hm.
  - rewrite filter_cons_True by by apply Is_true_true.
    rewrite fmap_cons. cbn [deliver]. unfold invoke.
    destruct (cb _ _ _ _ w) as [w1 out]. rewrite IH.
    destruct (deliver _ _ _ w1) as [w2 e2]. by destruct out.
  - rewrite filter_cons_False by by apply Is_true_false. apply IH.
Qed.

(** The loops of a poll tick are the delivery of the invocations that are
    due, in order; what the subscriptions remember afterwards does not depend
    on the callbacks. *)
Lemma rest_notifyAll_deliver sub w l :
  Rest.notifyAll cb sub w l
  = (Rest.set_lastStates (remembered (Rest.lastStates sub) l) sub,
     (deliver cb "RestReadTransport: Subscription callback error"
        (dueOf (Rest.id sub) (Rest.callback sub) (Rest.lastStates sub) l) w).1,
     (deliver cb "RestReadTransport: Subscription callback error"
        (dueOf (Rest.id sub) (Rest.callback sub) (Rest.lastStates sub) l) w).2).
Proof.
  revert sub w. induction l as [|s l IH]; intros sub w.
  - by destruct sub.
  - cbn [Rest.notifyAll dueOf remembered foldl]. unfold Rest.notify.
    rewrite deliver_app.
    destruct (match Rest.lastStates sub !! entity_id s with
              | Some o => Rest.stateChanged o s
              | None => true
              end).
    + cbn [deliver]. unfold invoke.
      destruct (cb _ _ _ _ w) as [w1 out]. rewrite IH. cbn [fst snd].
      cbn [Rest.id Rest.callback Rest.lastStates Rest.set_lastStates
           Rest.entityIds].
      destruct (deliver _ _ _ w1) as [w2 e2]. by destruct out.
    + rewrite IH. cbn [deliver fst snd].
      cbn [Rest.id Rest.callback Rest.lastStates Rest.set_lastStates
           Rest.entityIds].
      by destruct (deliver _ _ _ w) as [w2 e2].
Qed.

Lemma rest_pollSubscriptions_deliver states subs w :
  Rest.pollSubscriptions cb states subs w
  = (polledSubs subs states,
     (deliver cb "RestReadTransport: Subscription callback error"
        (pollDue subs states) w).1,
     (deliver cb "RestReadTransport: Subscription callback error"
        (pollDue subs states) w).2).
Proof.
  revert w. induction subs as [|[k sub] subs IH]; intros w; [done|].
  cbn [Rest.pollSubscriptions]. rewrite rest_notifyAll_deliver, IH.
  unfold pollDue, polledSubs. rewrite fmap_cons. cbn [flat_map].
  rewrite deliver_app. by cbn [fst snd].
Qed.

Lemma ws_notifyAll_invocations subs data w :
  invocations (Ws.notifyAll cb subs data w).2
  = (λ sub, (Ws.id sub, Ws.callback sub, Ws.ev_entity_id data,
             Ws.new_state data, Ws.old_state data))
    <$> filter (λ sub, Ws.matches (Ws.ev_entity_id data) sub) subs.
Proof.
  revert w. induction subs as [|sub subs IH]; intros w; simpl; [done|].
  destruct (Ws.matches _ sub) eqn:Hm.
  - rewrite filter_cons_True by by apply Is_true_true.
    destruct (invoke _ _ _ _ _ _ _ _) as [w1 e1] eqn:Hinv.
    specialize (IH w1). destruct (Ws.notifyAll _ _ _ w1) as [w2 e2].
    simpl in *. rewrite invocations_app, IH.
    change e1 with (w1, e1).2. by rewrite <- Hinv, invoke_invocations.
  - rewrite filter_cons_False by by apply Is_true_false. apply IH.
Qed.

Lemma ws_notifyAll_logged subs data w sid c x n o :
  Invoke sid c x n o ∈ (Ws.notifyAll cb subs data w).2 →
  throwsOn cb c x n o →
  Log Error "WsReadTransport: Subscription callback error" sid
  ∈ (Ws.notifyAll cb subs data w).2.
Proof.
  revert w. induction subs as [|sub subs IH]; intros w; simpl;
    [by intros ?%elem_of_nil|].
  destruct (Ws.matches _ sub); [|apply IH].
  pose proof (invoke_logged "WsReadTransport: Subscription callback error"
                (Ws.id sub) (Ws.callback sub) (Ws.ev_entity_id data)
                (Ws.new_state data) (Ws.old_state data) w sid c x n o) as Hn.
  destruct (invoke _ _ _ _ _ _ _ _) as [w1 e1].
  specialize (IH w1). destruct (Ws.notifyAll _ _ _ w1) as [w2 e2].
  simpl in *. intros [Hin|Hin]%elem_of_app Hthrows; apply elem_of_app.
  - left. by apply Hn.
  - right. by apply IH.
Qed.

Lemma rest_notify_logged sub w s sid c x n o :
  Invoke sid c x n o ∈ (Rest.notify cb sub w s).2 →
  throwsOn cb c x n o →
  Log Error "RestReadTransport: Subscription callback error" sid
  ∈ (Rest.notify cb sub w s).2.
Proof.
  unfold Rest.notify.
  destruct (match _ with Some _ => _ | None => _ end);
    [|by intros ?%elem_of_nil].
  destruct (invoke _ _ _ _ _ _ _ _) as [w1 e1] eqn:Hinv. simpl.
  change e1 with (w1, e1).2. rewrite <- Hinv. apply invoke_logged.
Qed.

Lemma rest_notifyAll_logged sub w l sid c x n o :
  Invoke sid c x n o ∈ (Rest.notifyAll cb sub w l).2 →
  throwsOn cb c x n o →
  Log Error "RestReadTransport: Subscription callback error" sid
  ∈ (Rest.notifyAll cb sub w l).2.
Proof.
  revert sub w. induction l as [|s l IH]; intros sub w; simpl;
    [by intros ?%elem_of_nil|].
  pose proof (rest_notify_logged sub w s sid c x n o) as Hn.
  destruct (Rest.notify cb sub w s) as [[sub1 w1] e1].
  specialize (IH sub1 w1). destruct (Rest.notifyAll cb sub1 w1 l) as [[sub2 w2] e2].
  simpl in *. intros [Hin|Hin]%elem_of_app Hthrows; apply elem_of_app.
  - left. by apply Hn.
  - right. by apply IH.
Qed.

Lemma rest_pollSubscriptions_logged states subs w sid c x n o :
  Invoke sid c x n o ∈ (Rest.pollSubscriptions cb states subs w).2 →
  throwsOn cb c x n o →
  Log Error "RestReadTransport: Subscription callback error" sid
  ∈ (Rest.pollSubscriptions cb states subs w).2.
Proof.
  revert w. induction subs as [|[k sub] subs IH]; intros w; simpl;
    [by intros ?%elem_of_nil|].
  pose proof (rest_notifyAll_logged sub w (Rest.relevantStates sub states)
                sid c x n o) as Hn.
  destruct (Rest.notifyAll cb sub w _) as [[sub1 w1] e1].
  specialize (IH w1).
  destruct (Rest.pollSubscriptions cb states subs w1) as [[subs2 w2] e2].
  simpl in *. intros [Hin|Hin]%elem_of_app Hthrows; apply elem_of_app.
  - left. by apply Hn.
  - right. by apply IH.
Qed.
End isolation.

(** What a tick leaves in the transport and whom it calls does not depend on
    how the callbacks behave. *)
Section independence.
Context {W W' : Type}.
Variable cb :
  nat → string → option HassState → option HassState → W → W * Outcome.
Variable cb' :
  nat → string → option HassState → option HassState → W' → W' * Outcome.

Lemma rest_notify_indep sub w w' s :
  (Rest.notify cb sub w s).1.1 = (Rest.notify cb' sub w' s).1.1
  ∧ invocations (Rest.notify cb sub w s).2
    = invocations (Rest.notify cb' sub w' s).2.
Proof.
  unfold Rest.notify.
  destruct (match _ with Some _ => _ | None => _ end); [|done].
  pose proof (invoke_invocations cb
    "RestReadTransport: Subscription callback error" (Rest.id sub)
    (Rest.callback sub) (entity_id s) (Some s)
    (Rest.lastStates sub !! entity_id s) w) as H1.
  pose proof (invoke_invocations cb'
    "RestReadTransport: Subscription callback error" (Rest.id sub)
    (Rest.callback sub) (entity_id s) (Some s)
    (Rest.lastStates sub !! entity_id s) w') as H2.
  destruct (invoke cb _ _ _ _ _ _ _), (invoke cb' _ _ _ _ _ _ _).
  simpl in *. by rewrite H1, H2.
Qed.

Lemma rest_notifyAll_indep sub w w' l :
  (Rest.notifyAll cb sub w l).1.1 = (Rest.notifyAll cb' sub w' l).1.1
  ∧ invocations (Rest.notifyAll cb sub w l).2
    = invocations (Rest.notifyAll cb' sub w' l).2.
Proof.
  revert sub w w'. induction l as [|s l IH]; intros sub w w'; simpl; [done|].
  destruct (rest_notify_indep sub w w' s) as [Hs He].
  destruct (Rest.notify cb sub w s) as [[sub1 w1] e1].
  destruct (Rest.notify cb' sub w' s) as [[sub1' w1'] e1'].
  simpl in *. subst sub1'.
  destruct (IH sub1 w1 w1') as [Hs2 He2].
  destruct (Rest.notifyAll cb sub1 w1 l) as [[sub2 w2] e2].
  destruct (Rest.notifyAll cb' sub1 w1' l) as [[sub2' w2'] e2'].
  simpl in *. by rewrite !invocations_app, He, He2, Hs2.
Qed.

Lemma rest_pollSubscriptions_indep states subs w w' :
  (Rest.pollSubscriptions cb states subs w).1.1
  = (Rest.pollSubscriptions cb' states subs w').1.1
  ∧ invocations (Rest.pollSubscriptions cb states subs w).2
    = invocations (Rest.pollSubscriptions cb' states subs w').2.
Proof.
  revert w w'. induction subs as [|[k sub] subs IH]; intros w w'; simpl; [done|].
  destruct (rest_notifyAll_indep sub w w' (Rest.relevantStates sub states))
    as [Hs He].
  destruct (Rest.notifyAll cb sub w _) as [[sub1 w1] e1].
  destruct (Rest.notifyAll cb' sub w' _) as [[sub1' w1'] e1'].
  simpl in *. subst sub1'.
  destruct (IH w1 w1') as [Hs2 He2].
  destruct (Rest.pollSubscriptions cb states subs w1) as [[subs2 w2] e2].
  destruct (Rest.pollSubscriptions cb' states subs w1') as [[subs2' w2'] e2'].
  simpl in *. by rewrite !invocations_app, He, He2, Hs2.
Qed.

Lemma rest_tick_indep st net w w' :
  (Rest.tick cb st net w).1.1 = (Rest.tick cb' st net w').1.1
  ∧ invocations (Rest.tick cb st net w).2
    = invocations (Rest.tick cb' st net w').2.
Proof.
  unfold Rest.tick, Rest.pollStates. case_bool_decide; [done|].
  destruct (Rest.fetchStates _ _) as [log [states|err]]; [|done].
  destruct (rest_pollSubscriptions_indep states (Rest.subscriptions st) w w')
    as [Hs He].
  destruct (Rest.pollSubscriptions cb _ _ _) as [[subs1 w1] e1].
  destruct (Rest.pollSubscriptions cb' _ _ _) as [[subs1' w1'] e1'].
  simpl in *. subst subs1'. split; [done|].
  by rewrite !app_nil_r, !invocations_app, He.
Qed.
End independence.

Lemma rest_fetchStates_logs ids net e :
  e ∈ (Rest.fetchStates ids net).1 → ∃ l m d, e = Log l m d.
Proof.
  assert (∀ e, e ∈ (Rest.getAllStates net).1 → ∃ l m d, e = Log l m d) as Hall.
  { clear e. intros e.
    unfold Rest.getAllStates, try_catch, await, mbind, comp_bind, emit.
    destruct net as [res|err]; simpl.
    - destruct (ok res); simpl.
      + destruct (json res); simpl; [by intros ?%elem_of_nil|].
        intros ->%list_elem_of_singleton. by eexists _, _, _.
      + destruct (text res); simpl;
          intros ->%list_elem_of_singleton; by eexists _, _, _.
    - intros ->%list_elem_of_singleton. by eexists _, _, _. }
  unfold Rest.fetchStates. case_bool_decide; [apply Hall|].
  unfold Rest.getStates, mbind, comp_bind, mret, comp_ret.
  specialize (Hall e). destruct (Rest.getAllStates net) as [log [l|err]];
    simpl in *; [|done].
  by rewrite !app_nil_r.
Qed.

Lemma invocations_logs eff :
  (∀ e, e ∈ eff → ∃ l m d, e = Log l m d) → invocations eff = [].
Proof.
  induction eff as [|e eff IH]; intros Hlog; [done|].
  destruct (Hlog e) as (l & m & d & ->); [by left|].
  simpl. apply IH. intros e' He'. apply Hlog. by right.
Qed.

Lemma rest_fetchStates_total ids net :
  ∃ log states, Rest.fetchStates ids net = (log, Ok states).
Proof.
  unfold Rest.fetchStates. case_bool_decide.
  - apply rest_getAllStates_total.
  - destruct (rest_getStates_total (elements ids) net)
      as (log & allStates & Hg).
    unfold mbind, comp_bind, mret, comp_ret. rewrite Hg. by eexists _, _.
Qed.

Section isolation_claim.
Context {W : Type}.
Variable cb :
  nat → string → option HassState → option HassState → W → W * Outcome.

(** C7. When a change event reaches the streaming transport, or a poll tick
    runs on the polling transport, a callback that throws is caught and
    logged and stops nothing.  On the streaming transport every subscription
    that matches the event is invoked, in order, and the state of the
    transport is the one before the event.  On the polling transport every
    subscription is invoked for every record it is due (a record of an
    entity it watches that it knew nothing of, or knew differently; one
    invocation for a subscription that watches the entity when exactly one
    changed record of it is fetched), and the state left is what the
    subscriptions are to remember, the same under any other behaviour of the
    callbacks.  On both, the trace of the turn is the delivery of the due
    invocations one after the other: each is made whatever the ones before
    did, and each one that throws is followed by its error log. *)
Theorem callback_failure_isolated (s : Ws.State) (c : nat) (parsed : Ws.Parsed)
    (data : Ws.EventData) (st : Rest.State) (net : Fetched (list HassState))
    (w : W) :
  Ws.m_type parsed = "event" →
  Ws.m_event parsed = Some ("state_changed", data) →
  Ws.pendingFor parsed s = None →
  is_Some (Ws.attempts s !! c) →
  let r := Ws.step cb (Ws.SockMessage c (Some parsed)) s w in
  let t := Rest.tick cb st net w in
  let wsError := "WsReadTransport: Subscription callback error" in
  let restError := "RestReadTransport: Subscription callback error" in
  r.1.1 = s
  ∧ invocations r.2 = due s data
  ∧ (r.1.2, r.2) = deliver cb wsError (due s data) w
  ∧ (∀ sid k x n o,
       Invoke sid k x n o ∈ r.2 → throwsOn cb k x n o →
       Log Error wsError sid ∈ r.2)
  ∧ (∀ W' (cb' : nat → string → option HassState → option HassState →
                 W' → W' * Outcome) w',
       (Rest.tick cb' st net w').1.1 = t.1.1
       ∧ invocations (Rest.tick cb' st net w').2 = invocations t.2)
  ∧ (JsMap.size (Rest.subscriptions st) ≠ 0 →
       ∃ log states,
         Rest.fetchStates
           (Rest.collectEntityIds (JsMap.values (Rest.subscriptions st)) ∅) net
         = (log, Ok states)
         ∧ t.1.1 = Rest.set_subscriptions
                     (polledSubs (Rest.subscriptions st) states) st
         ∧ invocations t.2 = pollDue (Rest.subscriptions st) states
         ∧ t.1.2
           = (deliver cb restError (pollDue (Rest.subscriptions st) states) w).1
         ∧ t.2
           = log
             ++ (deliver cb restError
                   (pollDue (Rest.subscriptions st) states) w).2)
  ∧ (∀ sid k x n o,
       Invoke sid k x n o ∈ t.2 → throwsOn cb k x n o →
       Log Error restError sid ∈ t.2)
  ∧ (∀ sid sub x new res allStates,
       rest_wf st →
       net = Ok res → ok res = true → json res = Ok allStates →
       JsMap.get sid (Rest.subscriptions st) = Some sub →
       size (Rest.entityIds sub) = 0 ∨ x ∈ Rest.entityIds sub →
       filter (λ s, entity_id s = x) allStates = [new] →
       match Rest.lastStates sub !! x with
       | None => True
       | Some old => Rest.stateChanged old new = true
       end →
       calls sid x t.2 = 1).
Proof.
  intros Htype Hevent Hpending Hsock r t wsError restError.
  assert (r = (s, (Ws.handleStateChanged cb s data w).1,
               (Ws.handleStateChanged cb s data w).2)) as Hr.
  { subst r. unfold Ws.step, Ws.handle.
    rewrite bool_decide_eq_true_2 by done. unfold Ws.onMessage.
    rewrite Htype, Hpending, Hevent. simpl.
    destruct (Ws.handleStateChanged cb s data w) as [w' e]. simpl.
    by rewrite app_nil_r. }
  rewrite Hr. cbn [fst snd]. split_and!.
  - done.
  - apply ws_notifyAll_invocations.
  - unfold Ws.handleStateChanged, due. rewrite ws_notifyAll_deliver.
    by destruct (deliver _ _ _ w).
  - intros sid k x n o. apply ws_notifyAll_logged.
  - intros W' cb' w'. apply rest_tick_indep.
  - intros Hsize. subst t. unfold Rest.tick, Rest.pollStates.
    rewrite bool_decide_eq_false_2 by done.
    destruct (rest_fetchStates_total
                (Rest.collectEntityIds (JsMap.values (Rest.subscriptions st)) ∅)
                net) as (log & states & Hfetch).
    pose proof (rest_fetchStates_logs
      (Rest.collectEntityIds (JsMap.values (Rest.subscriptions st)) ∅) net)
      as Hlog.
    rewrite Hfetch in Hlog |- *. cbn [fst snd] in Hlog.
    exists log, states. split; [done|].
    rewrite rest_pollSubscriptions_deliver. cbn [fst snd].
    rewrite app_nil_r. split_and!; [done | | done | done].
    rewrite invocations_app, (invocations_logs log Hlog).
    apply deliver_invocations.
  - intros sid k x n o. subst t. unfold Rest.tick, Rest.pollStates.
    case_bool_decide; [by intros ?%elem_of_nil|].
    pose proof (rest_fetchStates_logs
      (Rest.collectEntityIds (JsMap.values (Rest.subscriptions st)) ∅) net) as Hlog.
    destruct (Rest.fetchStates _ _) as [log [states|err]]; simpl in *.
    + pose proof (rest_pollSubscriptions_logged cb states
                    (Rest.subscriptions st) w sid k x n o) as Hp.
      destruct (Rest.pollSubscriptions cb _ _ _) as [[subs1 w1] e1].
      simpl in *. rewrite app_nil_r.
      intros [Hin|Hin]%elem_of_app Hthrows.
      * apply Hlog in Hin as (? & ? & ? & ?). done.
      * apply elem_of_app. right. by apply Hp.
    + intros [Hin|Hin]%elem_of_app Hthrows.
      * apply Hlog in Hin as (? & ? & ? & ?). done.
      * set_solver.
  - intros sid sub x new res allStates Hwf -> Hok Hjson Hget Hrel Hone Hch.
    destruct (tick_calls cb st sid x sub new res allStates w
                Hwf Hget Hrel Hok Hjson Hone)
      as (st1 & w1 & eff1 & sub1 & Htick & _ & _ & _ & _ & Hc).
    subst t. rewrite Htick. cbn [snd]. rewrite Hc.
    destruct (Rest.lastStates sub !! x); [by rewrite Hch | done].
Qed.
End isolation_claim.

Lemma watchedTwice_wf : rest_wf watchedTwice.
Proof. apply rest_wf_subscribe, rest_wf_subscribe, rest_wf_init. Qed.

Lemma watchedTwice_get :
  JsMap.get "sub-2" (Rest.subscriptions watchedTwice) = Some watchesAll.
Proof. vm_compute. reflexivity. Qed.

(** The two subscriptions of [listening] are both invoked for a change of the
    watched entity although the callback of the first throws, and the
    transport is as before; and the two subscriptions of [watchedTwice] are
    both invoked by the tick that first shows them the entity, the failure of
    the first being logged. *)
Lemma callback_failure_witness :
  let ev := changeEvent "sensor.abc_target_1_x" None (Some seen) in
  let r := Ws.step faulty (Ws.SockMessage 0 (Some ev)) listening () in
  let t := Rest.tick faulty watchedTwice (answers [seen]) () in
  r.1.1 = listening
  ∧ invocations r.2
    = [("sub-1", 1, "sensor.abc_target_1_x", Some seen, None);
       ("sub-2", 2, "sensor.abc_target_1_x", Some seen, None)]
  ∧ Log Error "WsReadTransport: Subscription callback error" "sub-1" ∈ r.2
  ∧ calls "sub-2" "sensor.abc_target_1_x" t.2 = 1
  ∧ Log Error "RestReadTransport: Subscription callback error" "sub-1" ∈ t.2.
Proof.
  pose proof (callback_failure_isolated faulty listening 0
    (changeEvent "sensor.abc_target_1_x" None (Some seen))
    {| Ws.ev_entity_id := "sensor.abc_target_1_x"; Ws.old_state := None;
       Ws.new_state := Some seen |}
    watchedTwice (answers [seen]) () eq_refl eq_refl eq_refl
    (ex_intro _ _ eq_refl)) as (Hs & Hi & _ & Hl & _ & _ & Hl' & Hc).
  split_and!; [exact Hs | exact Hi | | |].
  - apply (Hl "sub-1" 1 "sensor.abc_target_1_x" (Some seen) None).
    + vm_compute. apply list_elem_of_here.
    + intros []. by exists "boom".
  - apply (Hc "sub-2" watchesAll "sensor.abc_target_1_x" seen
             {| status := 200; json := Ok [seen]; text := Ok "" |} [seen]
             watchedTwice_wf eq_refl eq_refl eq_refl watchedTwice_get
             (or_introl eq_refl) eq_refl I).
  - apply (Hl' "sub-1" 1 "sensor.abc_target_1_x" (Some seen) None).
    + vm_compute. apply list_elem_of_here.
    + intros []. by exists "boom".
Defined.

(** ** The live fan-out server *)

Lemma sentTo_app client e1 e2 :
  sentTo client (e1 ++ e2) = sentTo client e1 ++ sentTo client e2.
Proof. apply omap_app. Qed.

Lemma sentTo_send client m eff :
  sentTo client (ClientSend client m :: eff) = m :: sentTo client eff.
Proof. unfold sentTo. simpl. by destruct (decide (client = client)). Qed.

Lemma sentTo_log client l m d eff :
  sentTo client (Log l m d :: eff) = sentTo client eff.
Proof. reflexivity. Qed.

Lemma flat_map_cons_eq {A B} (f : A → list B) x l :
  flat_map f (x :: l) = f x ++ flat_map f l.
Proof. reflexivity. Qed.

Section fanout.
Variable getProfileById : string → option LiveWs.Profile.
Variable hasMapping : string → bool.
Variable getEntityId : string → string → option string.
Variable getTargetEntities : string → nat → option (list (string * string)).
Variable replaceName : string → string → string.
Variable readyState : nat → Ws.ReadyState.
Variable sendOutcome : nat → LiveMsg → Outcome.
Variable now : nat → N.

Lemma sentTo_forward client entityId ns k session :
  sentTo client (LiveWs.forward readyState sendOutcome now entityId ns (k, session))
  = if decide (k = client) then
      if bool_decide (entityId ∈ LiveWs.entityIds session)
         && bool_decide (readyState k = Ws.OPEN)
      then [MsgStateUpdate entityId (state ns) (attributes ns) (now k)]
      else []
    else [].
Proof.
  unfold LiveWs.forward. destruct (_ && _); simpl.
  - destruct (decide (k = client)); by destruct (sendOutcome _ _).
  - by destruct (decide (k = client)).
Qed.

Lemma sentTo_other client entityId ns clients :
  client ∉ JsMap.keys clients →
  sentTo client
    (flat_map (LiveWs.forward readyState sendOutcome now entityId ns) clients) = [].
Proof.
  unfold JsMap.keys. induction clients as [|[k session] clients IH]; [done|].
  rewrite fmap_cons, flat_map_cons_eq.
  intros Hnot. rewrite sentTo_app, sentTo_forward, IH.
  - destruct (decide (k = client)) as [->|]; [|done].
    exfalso. apply Hnot. by left.
  - intros ?. apply Hnot. by right.
Qed.

Lemma sentTo_session client session entityId ns clients :
  NoDup (JsMap.keys clients) →
  JsMap.get client clients = Some session →
  sentTo client
    (flat_map (LiveWs.forward readyState sendOutcome now entityId ns) clients)
  = if bool_decide (entityId ∈ LiveWs.entityIds session)
       && bool_decide (readyState client = Ws.OPEN)
    then [MsgStateUpdate entityId (state ns) (attributes ns) (now client)]
    else [].
Proof.
  unfold JsMap.keys. induction clients as [|[k s] clients IH]; [done|].
  rewrite fmap_cons, flat_map_cons_eq.
  intros [Hk Hnd]%NoDup_cons Hget. simpl in Hget, Hk.
  rewrite sentTo_app, sentTo_forward.
  destruct (decide (client = k)) as [->|Hne].
  - injection Hget as ->. destruct (decide (k = k)); [|done].
    rewrite sentTo_other by done. by rewrite app_nil_r.
  - destruct (decide (k = client)); [done|]. by apply IH.
Qed.

(** C8, as the code has it. For a change event that carries an entity id and
    a new state, a registered session whose socket is open is sent exactly one
    [state_update] for the entity when the entity is in its interest filter,
    and nothing otherwise.  Whatever the event, a session is sent nothing for
    an entity outside its filter, nothing while its socket is not open, and
    nothing but [state_update] messages of the changed entity.  An event
    without an entity id, and an event without a new state (the removal of an
    entity), is forwarded to no session at all, whatever the filters hold. *)
Theorem state_update_iff_in_filter (clients : JsMap.t nat LiveWs.ClientSubscription)
    (client : nat) (session : LiveWs.ClientSubscription) (entityId : string)
    (newState oldState : option HassState) :
  NoDup (JsMap.keys clients) →
  JsMap.get client clients = Some session →
  let eff := LiveWs.onStateChange readyState sendOutcome now clients
               entityId newState oldState in
  (∀ ns, newState = Some ns → entityId ≠ "" → readyState client = Ws.OPEN →
     sentTo client eff
     = if bool_decide (entityId ∈ LiveWs.entityIds session)
       then [MsgStateUpdate entityId (state ns) (attributes ns) (now client)]
       else [])
  ∧ (entityId ∉ LiveWs.entityIds session → sentTo client eff = [])
  ∧ (readyState client ≠ Ws.OPEN → sentTo client eff = [])
  ∧ (∀ m, m ∈ sentTo client eff →
       entityId ≠ ""
       ∧ ∃ ns, newState = Some ns
               ∧ m = MsgStateUpdate entityId (state ns) (attributes ns)
                       (now client))
  ∧ (entityId = "" → eff = [])
  ∧ (newState = None → eff = []).
Proof.
  intros Hnd Hget eff. subst eff. unfold LiveWs.onStateChange.
  destruct newState as [ns|];
    [|by split_and!; [| | |intros ? ?%elem_of_nil| | ]].
  case_bool_decide as Hempty;
    [by split_and!; [| | |intros ? ?%elem_of_nil| | ]|].
  rewrite (sentTo_session _ _ _ _ _ Hnd Hget).
  split_and!.
  - intros ? [= <-] _ Hopen. rewrite (bool_decide_eq_true_2 _ Hopen).
    by rewrite andb_true_r.
  - intros Hnot. by rewrite (bool_decide_eq_false_2 _ Hnot).
  - intros Hclosed. rewrite (bool_decide_eq_false_2 _ Hclosed).
    by rewrite andb_false_r.
  - intros m. destruct (_ && _); [|by intros ?%elem_of_nil].
    intros ->%list_elem_of_singleton. split; [done|]. by exists ns.
  - done.
  - done.
Qed.

(** C10. A subscribe request that passes the checks of the handler (device id
    and profile id given, profile found, a device name derived) registers the
    session with the resolved entity ids; when the bulk fetch of the initial
    states then fails, the session stays registered and is sent a
    [subscribed] confirmation that lists the resolved entities and has no
    [initialStates] field.  (When the device has no mappings the handler first
    sends a warning; that send is taken to return.) *)
Theorem subscribe_survives_fetch_failure
    (clients : JsMap.t nat LiveWs.ClientSubscription) (client : nat)
    (msg : LiveWs.SubscribeMsg) (profile : LiveWs.Profile) (stamp : N)
    (err : string) :
  LiveWs.truthy (Some (LiveWs.deviceId msg)) = true →
  LiveWs.truthy (Some (LiveWs.profileId msg)) = true →
  getProfileById (LiveWs.profileId msg) = Some profile →
  LiveWs.truthy (Some (LiveWs.deviceNameOf msg)) = true →
  (LiveWs.hasMappingsOf hasMapping msg = false →
   sendOutcome client (LiveWs.notFoundWarning msg) = Returned) →
  let r := LiveWs.onMessage getProfileById hasMapping getEntityId
             getTargetEntities replaceName sendOutcome clients client
             (LiveWs.Subscribe msg) stamp (Throw err) in
  let resolved := LiveWs.resolveEntityIds getEntityId getTargetEntities
                    replaceName msg profile (LiveWs.deviceNameOf msg)
                    (LiveWs.parseMappings msg).2
                    (hasMapping (LiveWs.deviceId msg)) in
  (∃ session, JsMap.get client r.1 = Some session
              ∧ LiveWs.entityIds session = resolved)
  ∧ sentTo client r.2
    = (if LiveWs.hasMappingsOf hasMapping msg then []
       else [LiveWs.notFoundWarning msg])
      ++ MsgSubscribed (LiveWs.deviceId msg) (LiveWs.profileId msg) resolved
           None (LiveWs.hasMappingsOf hasMapping msg)
      :: match sendOutcome client
                 (MsgSubscribed (LiveWs.deviceId msg) (LiveWs.profileId msg)
                    resolved None (LiveWs.hasMappingsOf hasMapping msg)) with
         | Returned => []
         | Threw _ => [MsgError "Invalid message format"]
         end.
Proof.
  intros Hdev Hprof Hfound Hname Hwarn r resolved. subst r resolved.
  unfold LiveWs.onMessage, LiveWs.prepare.
  rewrite Hdev, Hprof, Hfound, Hname. simpl.
  destruct (LiveWs.parseMappings msg) as [log parsedMappings] eqn:Hparse.
  assert (sentTo client log = []) as Hlog.
  { unfold LiveWs.parseMappings in Hparse.
    destruct (LiveWs.entityMappings msg) as [[[m|]|m]|];
      by injection Hparse as <- <-. }
  unfold LiveWs.confirm, LiveWs.subscribed, LiveWs.send, try_catch, await, emit,
    mbind, comp_bind, mret, comp_ret. simpl.
  destruct (LiveWs.hasMappingsOf hasMapping msg) eqn:Hhas; simpl.
  - rewrite get_set. destruct (decide (client = client)); [|done].
    split; [by eexists|].
    rewrite !app_nil_r, sentTo_app, Hlog, sentTo_log, sentTo_send. simpl.
    f_equal. destruct (sendOutcome client (MsgSubscribed _ _ _ _ _)); [done|].
    unfold LiveWs.invalidMessage. by rewrite sentTo_log, sentTo_send.
  - rewrite (Hwarn eq_refl). simpl.
    rewrite get_set. destruct (decide (client = client)); [|done].
    split; [by eexists|].
    rewrite !sentTo_app, Hlog, !sentTo_log, !sentTo_send. simpl.
    do 2 f_equal.
    destruct (sendOutcome client (MsgSubscribed _ _ _ _ _)); [done|].
    unfold LiveWs.invalidMessage. by rewrite sentTo_log, sentTo_send.
Qed.
End fanout.

Lemma abcSession_get : JsMap.get 1 abcClients = Some abcSession.
Proof. vm_compute. reflexivity. Qed.

Lemma abcClients_NoDup : NoDup (JsMap.keys abcClients).
Proof. vm_compute. apply NoDup_singleton. Qed.

(** The scenario of the specification: the session of device [abc] is sent
    the change of [sensor.abc_target_1_x] and not the change of
    [sensor.xyz_temp]. *)
Lemma state_update_witness :
  sentTo 1
    (LiveWs.onStateChange allOpen sends clock abcClients
       "sensor.abc_target_1_x" (Some seen) None)
  = [MsgStateUpdate "sensor.abc_target_1_x" "120" [] 1700000000000]
  ∧ sentTo 1
      (LiveWs.onStateChange allOpen sends clock abcClients "sensor.xyz_temp"
         (Some (sample "sensor.xyz_temp" "21.5" "10:00:00" "10:00:00")) None)
    = [].
Proof.
  split.
  - destruct (state_update_iff_in_filter allOpen sends clock abcClients 1
                abcSession "sensor.abc_target_1_x" (Some seen) None
                abcClients_NoDup abcSession_get)
      as (Hsent & _).
    exact (Hsent seen eq_refl ltac:(discriminate) eq_refl).
  - destruct (state_update_iff_in_filter allOpen sends clock abcClients 1
                abcSession "sensor.xyz_temp"
                (Some (sample "sensor.xyz_temp" "21.5" "10:00:00" "10:00:00"))
                None abcClients_NoDup abcSession_get)
      as (_ & Hout & _).
    apply Hout. vm_compute. intros Hin.
    repeat (apply elem_of_cons in Hin as [Hin|Hin]; [discriminate Hin|]).
    by apply elem_of_nil in Hin.
Defined.

(** C8 as stated fails: the removal of an entity reaches the server as a
    change event without a new state, and the session that watches the entity
    over an open socket is sent nothing. *)
Lemma state_update_skips_removed_entity :
  (∃ session, JsMap.get 1 abcClients = Some session
              ∧ "sensor.abc_target_1_x" ∈ LiveWs.entityIds session)
  ∧ allOpen 1 = Ws.OPEN
  ∧ sentTo 1
      (LiveWs.onStateChange allOpen sends clock abcClients
         "sensor.abc_target_1_x" None (Some seen))
    = [].
Proof.
  split_and!; [|done..]. exists abcSession. split; [apply abcSession_get|].
  vm_compute. apply list_elem_of_further, list_elem_of_here.
Qed.

(** The request of device [abc] when the bulk fetch is rejected. *)
Lemma subscribe_fetch_failure_witness :
  let r := LiveWs.onMessage profiles unmapped noEntity noTargets replaceFirst
             sends [] 1 (LiveWs.Subscribe abcRequest) 1700000000000
             (Throw "WS request timed out") in
  r.1 = abcClients
  ∧ ∃ resolved,
      sentTo 1 r.2
      = [LiveWs.notFoundWarning abcRequest;
         MsgSubscribed "abc" "epl" resolved None false]
      ∧ "sensor.abc_target_1_x" ∈ resolved.
Proof.
  destruct (subscribe_survives_fetch_failure profiles unmapped noEntity
              noTargets replaceFirst sends [] 1 abcRequest eplProfile
              1700000000000 "WS request timed out"
              eq_refl eq_refl eq_refl eq_refl (λ _, eq_refl))
    as [_ Hsent].
  split; [vm_compute; reflexivity|].
  eexists. split; [exact Hsent|].
  vm_compute. apply list_elem_of_further, list_elem_of_here.
Defined.

(** ** The streaming transport: close, failed authentication, reconnect *)

Lemma answerTo_throw who err s :
  Ws.answerTo who (Throw err) s = (s, [rejectionOf err who]).
Proof. by destruct who. Qed.

Lemma run_jobs_rejections err (l : list (N * Ws.Caller)) s :
  Ws.run_jobs ((λ p, Ws.JobAnswer p.2 (Throw err)) <$> l) s
  = (s, (λ p, rejectionOf err p.2) <$> l, []).
Proof.
  induction l as [|[i who] l IH]; [done|].
  rewrite !fmap_cons. simpl. rewrite answerTo_throw. simpl.
  rewrite IH. done.
Qed.

(** Waiters of a rejected ready promise only report the failure: the state is
    untouched and no further job is made runnable. *)
Lemma run_jobs_not_ready err (ws : list Ws.Waiter) s :
  Ws.run_jobs ((λ wt, Ws.JobReady wt (Throw err)) <$> ws) s
  = (s, notReadyOf err <$> ws, []).
Proof.
  induction ws as [|wt ws IH]; [done|].
  rewrite !fmap_cons. simpl. destruct wt as [cmd who|].
  - rewrite answerTo_throw. by rewrite IH.
  - by rewrite IH.
Qed.

Lemma drain_not_ready err (ws : list Ws.Waiter) s :
  Ws.drain ((λ wt, Ws.JobReady wt (Throw err)) <$> ws) s
  = (s, notReadyOf err <$> ws, []).
Proof.
  unfold Ws.drain. rewrite run_jobs_not_ready. simpl. by rewrite app_nil_r.
Qed.

Lemma drain_nil s : Ws.drain [] s = (s, [], []).
Proof. reflexivity. Qed.

Lemma drain_rejections err (l : list (N * Ws.Caller)) s :
  Ws.drain ((λ p, Ws.JobAnswer p.2 (Throw err)) <$> l) s
  = (s, (λ p, rejectionOf err p.2) <$> l, []).
Proof.
  unfold Ws.drain. rewrite run_jobs_rejections. simpl. by rewrite app_nil_r.
Qed.

(** The queue is empty after the passes of [drain]: no continuation is
    dropped. *)
Lemma run_job_spawn j s :
  ∀ j', j' ∈ (Ws.run_job j s).2 →
        ∃ cmd who r, j' = Ws.JobReady (Ws.WaitCall cmd who) r.
Proof.
  intros j'. destruct j as [[cmd who|] [[]|err]|who r]; simpl;
    try (destruct (Ws.issue _ _ _)); try (destruct (Ws.answerTo _ _ _));
    simpl; try (by intros ?%elem_of_nil).
  unfold Ws.call. destruct (Ws.readyPromise s); simpl;
    try (by intros ?%elem_of_nil);
    intros ->%list_elem_of_singleton; by eexists _, _, _.
Qed.

Lemma run_jobs_spawn js s :
  ∀ j', j' ∈ (Ws.run_jobs js s).2 →
        ∃ cmd who r, j' = Ws.JobReady (Ws.WaitCall cmd who) r.
Proof.
  revert s. induction js as [|j js IH]; intros s j'; simpl;
    [by intros ?%elem_of_nil|].
  pose proof (run_job_spawn j s j') as Hj.
  destruct (Ws.run_job j s) as [[s1 e1] n1].
  specialize (IH s1 j'). destruct (Ws.run_jobs js s1) as [[s2 e2] n2].
  simpl in *. intros [?|?]%elem_of_app; auto.
Qed.

Lemma run_jobs_calls_final js s :
  (∀ j, j ∈ js → ∃ cmd who r, j = Ws.JobReady (Ws.WaitCall cmd who) r) →
  (Ws.run_jobs js s).2 = [].
Proof.
  revert s. induction js as [|j js IH]; intros s Hjs; [done|]. simpl.
  destruct (Hjs j) as (cmd & who & r & ->); [by left|].
  assert ((Ws.run_job (Ws.JobReady (Ws.WaitCall cmd who) r) s).2 = []) as Hn.
  { destruct r as [[]|err]; unfold Ws.run_job.
    - by destruct (Ws.issue cmd who s).
    - by destruct (Ws.answerTo who (Throw err) s). }
  destruct (Ws.run_job _ s) as [[s1 e1] n1]. simpl in Hn. subst n1.
  specialize (IH s1). destruct (Ws.run_jobs js s1) as [[s2 e2] n2].
  simpl in *. apply IH. intros j' Hj'. apply Hjs. by right.
Qed.

Lemma drain_complete js s : (Ws.drain js s).2 = [].
Proof.
  unfold Ws.drain.
  pose proof (run_jobs_spawn js s) as H1.
  destruct (Ws.run_jobs js s) as [[s1 e1] n1]. simpl in H1.
  pose proof (run_jobs_calls_final n1 s1 H1) as H2.
  destruct (Ws.run_jobs n1 s1) as [[s2 e2] n2]. simpl in H2. subst n2.
  done.
Qed.

Lemma rejections_app e1 e2 :
  rejections (e1 ++ e2) = rejections e1 ++ rejections e2.
Proof. apply omap_app. Qed.

Lemma rejections_rejected err (l : list (N * Ws.Caller)) :
  rejections ((λ p, PendingRejected p.1 err) <$> l) = (λ p, (p.1, err)) <$> l.
Proof. induction l as [|p l IH]; [done|]. csimpl. by rewrite <- IH. Qed.

Lemma rejections_callers err (l : list (N * Ws.Caller)) :
  rejections ((λ p, rejectionOf err p.2) <$> l) = [].
Proof. induction l as [|[i who] l IH]; [done|]. csimpl. by destruct who. Qed.

Lemma rejections_log l m d eff : rejections (Log l m d :: eff) = rejections eff.
Proof. reflexivity. Qed.

Lemma rejections_timer k h eff : rejections (TimerSet k h :: eff) = rejections eff.
Proof. reflexivity. Qed.

(** ** Turns that end the process *)

Lemma exits_app e1 e2 : exits (e1 ++ e2) = exits e1 || exits e2.
Proof. apply existsb_app. Qed.

Lemma exits_cons e eff : exits (e :: eff) = exits [e] || exits eff.
Proof. unfold exits. simpl. by rewrite orb_false_r. Qed.

Lemma exits_fmap {A} (f : A → Effect) (l : list A) :
  (∀ a, exits [f a] = false) → exits (f <$> l) = false.
Proof.
  intros Hf. induction l as [|a l IH]; [done|].
  rewrite fmap_cons. change (f a :: (f <$> l)) with ([f a] ++ (f <$> l)).
  by rewrite exits_app, Hf, IH.
Qed.

Lemma exits_elem_of eff : exits eff = true ↔ ∃ err, UnhandledRejection err ∈ eff.
Proof.
  induction eff as [|e eff IH].
  - split; [done|]. by intros [? ?%elem_of_nil].
  - change (e :: eff) with ([e] ++ eff). rewrite exits_app.
    split.
    + intros [He|He]%orb_true_iff.
      * destruct e; try done. eexists. by left.
      * apply IH in He as [err ?]. exists err. by right.
    + intros [err [<-|Hin]%elem_of_cons]; [done|].
      apply orb_true_iff. right. apply IH. by exists err.
Qed.

Section liveness.
Context {W : Type}.
Variable cb :
  nat → string → option HassState → option HassState → W → W * Outcome.

Lemma invoke_exits msg sid c x n o w :
  exits (invoke cb msg sid c x n o w).2 = false.
Proof. unfold invoke. destruct (cb c x n o w) as [w' out]. by destruct out. Qed.

Lemma ws_notifyAll_exits subs data w :
  exits (Ws.notifyAll cb subs data w).2 = false.
Proof.
  revert w. induction subs as [|sub subs IH]; intros w; simpl; [done|].
  destruct (Ws.matches _ sub); [|apply IH].
  pose proof (invoke_exits "WsReadTransport: Subscription callback error"
                (Ws.id sub) (Ws.callback sub) (Ws.ev_entity_id data)
                (Ws.new_state data) (Ws.old_state data) w) as H1.
  destruct (invoke _ _ _ _ _ _ _ _) as [w1 e1]. specialize (IH w1).
  destruct (Ws.notifyAll cb subs data w1) as [w2 e2]. simpl in *.
  by rewrite exits_app, H1, IH.
Qed.

Lemma sendRaw_exits oid cmd s : exits (Ws.sendRaw oid cmd s) = false.
Proof. unfold Ws.sendRaw. by destruct (Ws.openSocket s). Qed.

Lemma issue_exits cmd who s : exits (Ws.issue cmd who s).2 = false.
Proof. unfold Ws.issue. simpl. by rewrite exits_app, sendRaw_exits. Qed.

Lemma answerTo_exits who r s : exits (Ws.answerTo who r s).2 = false.
Proof.
  destruct who as [q tag|], r as [response|err]; simpl; try done.
  unfold Ws.getAllStates. by destruct (_ && _).
Qed.

Lemma run_job_exits j s : exits (Ws.run_job j s).1.2 = false.
Proof.
  destruct j as [[cmd who|] [u|err]|who r]; unfold Ws.run_job.
  - pose proof (issue_exits cmd who s). by destruct (Ws.issue cmd who s).
  - pose proof (answerTo_exits who (Throw err) s).
    by destruct (Ws.answerTo who (Throw err) s).
  - by destruct (Ws.call Ws.subscribeCmd Ws.CallerActivate s).
  - done.
  - pose proof (answerTo_exits who r s). by destruct (Ws.answerTo who r s).
Qed.

Lemma run_jobs_exits js s : exits (Ws.run_jobs js s).1.2 = false.
Proof.
  revert s. induction js as [|j js IH]; intros s; simpl; [done|].
  pose proof (run_job_exits j s) as H1.
  destruct (Ws.run_job j s) as [[s1 e1] n1]. specialize (IH s1).
  destruct (Ws.run_jobs js s1) as [[s2 e2] n2]. simpl in *.
  by rewrite exits_app, H1, IH.
Qed.

Lemma drain_exits js s : exits (Ws.drain js s).1.2 = false.
Proof.
  unfold Ws.drain.
  pose proof (run_jobs_exits js s) as H1.
  destruct (Ws.run_jobs js s) as [[s1 e1] n1].
  pose proof (run_jobs_exits n1 s1) as H2.
  destruct (Ws.run_jobs n1 s1) as [[s2 e2] n2].
  pose proof (run_jobs_exits n2 s2) as H3.
  destruct (Ws.run_jobs n2 s2) as [[s3 e3] n3]. simpl in *.
  by rewrite !exits_app, H1, H2, H3.
Qed.

Lemma settle_exits c r s : exits (Ws.settle c r s).2 = false.
Proof.
  unfold Ws.settle. destruct (Ws.attempts s !! c) as [a|]; [|done].
  destruct (Ws.settled a); [done|]. simpl.
  destruct r; [done|]. by destruct (Ws.isReconnect a).
Qed.

Lemma closeSocket_exits s : exits (Ws.closeSocket s).2 = false.
Proof.
  unfold Ws.closeSocket. destruct (Ws.socket s) as [c|]; [|done].
  by destruct (Ws.attempts s !! c).
Qed.

Lemma disconnect_exits s : exits (Ws.disconnect s).2 = false.
Proof.
  unfold Ws.disconnect.
  destruct (match Ws.reconnectTimeout s with
            | Some _ => _
            | None => _
            end) as [s1 e1] eqn:H1.
  assert (exits e1 = false) as He1.
  { destruct (Ws.reconnectTimeout s); by injection H1 as <- <-. }
  destruct (Ws.socket s1) as [c|].
  - pose proof (closeSocket_exits s1) as H2.
    destruct (Ws.closeSocket s1) as [s2 e2]. simpl in *.
    by rewrite exits_app, He1, H2.
  - simpl. by rewrite exits_app, He1.
Qed.

(** Only an [auth_invalid] message can leave a rejection unhandled. *)
Lemma handle_exits ev s w :
  exits (Ws.handle cb ev s w).1.2 = true →
  ∃ c parsed, ev = Ws.SockMessage c (Some parsed)
              ∧ Ws.m_type parsed = "auth_invalid".
Proof.
  destruct ev as [| |q tag|sid ids cbr|sid| |c|c raw|c err|c|c|t|i];
    unfold Ws.handle.
  - done.
  - pose proof (disconnect_exits s). destruct (Ws.disconnect s). simpl in *.
    congruence.
  - by destruct (Ws.call _ _ s).
  - by destruct (Ws.subscribeToStateChanges _ _ _ s).
  - done.
  - done.
  - done.
  - case_bool_decide; [|done]. destruct raw as [parsed|]; [|done].
    unfold Ws.onMessage.
    case_bool_decide; [simpl; by rewrite sendRaw_exits|].
    case_bool_decide as Hinv; [intros _; by exists c, parsed|].
    case_bool_decide.
    { destruct (Ws.setReady _) as [s2 js2].
      pose proof (settle_exits c (Ok ()) s2) as Hq1.
      destruct (Ws.settle c (Ok ()) s2) as [s3 e3].
      destruct (if bool_decide _ then _ else _) as [s4 js4]. simpl in *.
      congruence. }
    destruct (Ws.pendingFor parsed s) as [[i who]|]; [done|].
    destruct (Ws.m_event parsed) as [[event_type data]|]; [|done].
    destruct (_ && _); [|done].
    pose proof (ws_notifyAll_exits (JsMap.values (Ws.subscriptions s)) data w)
      as Hq1.
    unfold Ws.handleStateChanged.
    destruct (Ws.notifyAll cb _ data w) as [w' e]. simpl in *. congruence.
  - case_bool_decide; [|done].
    destruct (negb (Ws.isConnected s)); [|done].
    pose proof (settle_exits c (Throw err) (Ws.clearConnectionTimeout c s)) as Hq1.
    destruct (Ws.settle c (Throw err) _) as [s' e]. simpl in *. congruence.
  - case_bool_decide; [|done].
    unfold Ws.onClose. simpl. rewrite exits_app.
    rewrite exits_fmap by done. done.
  - destruct (Ws.attempts s !! c) as [a|]; [|done].
    destruct (Ws.timeoutArmed a); [|done].
    destruct (negb (Ws.isConnected _)); [|done].
    pose proof (closeSocket_exits (Ws.clearConnectionTimeout c s)) as Hq1.
    destruct (Ws.closeSocket _) as [s2 e2].
    pose proof (settle_exits c (Throw "WebSocket connection timeout") s2) as Hq2.
    destruct (Ws.settle c _ s2) as [s3 e3]. simpl in *.
    rewrite exits_app. rewrite Hq1, Hq2. done.
  - by case_bool_decide.
  - by destruct (JsMap.get i (Ws.pending s)).
Qed.

Lemma step_exits ev s w :
  exits (Ws.step cb ev s w).2 = true →
  ∃ c parsed, ev = Ws.SockMessage c (Some parsed)
              ∧ Ws.m_type parsed = "auth_invalid".
Proof.
  unfold Ws.step. pose proof (handle_exits ev s w) as Hh.
  destruct (Ws.handle cb ev s w) as [[[s1 w1] e1] js].
  pose proof (drain_exits js s1) as Hd.
  destruct (Ws.drain js s1) as [[s2 e2] n]. simpl in *.
  rewrite exits_app, Hd, orb_false_r. exact Hh.
Qed.

(** A turn of any other event leaves the process running. *)
Lemma step_goes_on ev s w :
  (∀ c parsed, ev = Ws.SockMessage c (Some parsed) →
               Ws.m_type parsed ≠ "auth_invalid") →
  exits (Ws.step cb ev s w).2 = false.
Proof.
  intros Hev. destruct (exits _) eqn:He; [|done].
  apply step_exits in He as (c & parsed & -> & Htype).
  by destruct (Hev c parsed).
Qed.

Lemma run_cons ev evs s w :
  exits (Ws.step cb ev s w).2 = false →
  Ws.run cb (ev :: evs) s w
  = ((Ws.run cb evs (Ws.step cb ev s w).1.1 (Ws.step cb ev s w).1.2).1.1,
     (Ws.run cb evs (Ws.step cb ev s w).1.1 (Ws.step cb ev s w).1.2).1.2,
     (Ws.step cb ev s w).2
     ++ (Ws.run cb evs (Ws.step cb ev s w).1.1 (Ws.step cb ev s w).1.2).2).
Proof.
  intros He. cbn [Ws.run].
  destruct (Ws.step cb ev s w) as [[s1 w1] e1]. cbn [fst snd] in *.
  rewrite He. by destruct (Ws.run cb evs s1 w1) as [[s2 w2] e2].
Qed.

Lemma run_exit ev evs s w :
  exits (Ws.step cb ev s w).2 = true →
  Ws.run cb (ev :: evs) s w = Ws.step cb ev s w.
Proof.
  intros He. cbn [Ws.run].
  destruct (Ws.step cb ev s w) as [[s1 w1] e1]. cbn [fst snd] in *.
  by rewrite He.
Qed.
End liveness.

(** ** The correlation-id counter *)

Section counter.
Context {W : Type}.
Variable cb :
  nat → string → option HassState → option HassState → W → W * Outcome.

Lemma incr_ge n : (n ≤ Ws.incr n)%N.
Proof. unfold Ws.incr. destruct (n <? 2 ^ 53)%N; lia. Qed.

(** No handler touches the counter: only [call], in the continuation that
    sends a command, takes an id. *)
Lemma handle_nextId ev s w :
  Ws.nextId (Ws.handle cb ev s w).1.1.1 = Ws.nextId s.
Proof.
  destruct ev;
    unfold Ws.handle, Ws.onMessage, Ws.connect, Ws.disconnect, Ws.call,
      Ws.subscribeToStateChanges, Ws.activateStateSubscription,
      Ws.unsubscribe, Ws.unsubscribeAll, Ws.onClose, Ws.settle,
      Ws.rejectReady, Ws.setReady, Ws.closeSocket, Ws.clearConnectionTimeout,
      Ws.set_readyState, Ws.set_attempt, Ws.handleStateChanged;
    repeat case_match; simplify_eq/=; done.
Qed.

Lemma run_job_nextId j s :
  (Ws.nextId s ≤ Ws.nextId (Ws.run_job j s).1.1)%N.
Proof.
  destruct j as [[cmd who|] [u|err]|who r];
    unfold Ws.run_job, Ws.issue, Ws.answerTo, Ws.call;
    repeat case_match; simplify_eq/=; try lia; apply incr_ge.
Qed.

Lemma run_jobs_nextId js s :
  (Ws.nextId s ≤ Ws.nextId (Ws.run_jobs js s).1.1)%N.
Proof.
  revert s. induction js as [|j js IH]; intros s; simpl; [lia|].
  pose proof (run_job_nextId j s) as H1.
  destruct (Ws.run_job j s) as [[s1 e1] n1]. specialize (IH s1).
  destruct (Ws.run_jobs js s1) as [[s2 e2] n2]. simpl in *. lia.
Qed.

Lemma drain_nextId js s :
  (Ws.nextId s ≤ Ws.nextId (Ws.drain js s).1.1)%N.
Proof.
  unfold Ws.drain.
  pose proof (run_jobs_nextId js s) as H1.
  destruct (Ws.run_jobs js s) as [[s1 e1] n1].
  pose proof (run_jobs_nextId n1 s1) as H2.
  destruct (Ws.run_jobs n1 s1) as [[s2 e2] n2].
  pose proof (run_jobs_nextId n2 s2) as H3.
  destruct (Ws.run_jobs n2 s2) as [[s3 e3] n3]. simpl in *. lia.
Qed.

Lemma step_nextId ev s w :
  (Ws.nextId s ≤ Ws.nextId (Ws.step cb ev s w).1.1)%N.
Proof.
  unfold Ws.step. pose proof (handle_nextId ev s w) as H1.
  destruct (Ws.handle cb ev s w) as [[[s1 w1] e1] js].
  pose proof (drain_nextId js s1) as H2.
  destruct (Ws.drain js s1) as [[s2 e2] n]. simpl in *. lia.
Qed.

(** The counter never goes down, whatever the turns. *)
Lemma run_nextId evs s w :
  (Ws.nextId s ≤ Ws.nextId (Ws.run cb evs s w).1.1)%N.
Proof.
  revert s w. induction evs as [|ev evs IH]; intros s w; simpl; [lia|].
  pose proof (step_nextId ev s w) as H1.
  destruct (Ws.step cb ev s w) as [[s1 w1] e1].
  destruct (exits e1); [done|]. specialize (IH s1 w1).
  destruct (Ws.run cb evs s1 w1) as [[s2 w2] e2]. simpl in *. lia.
Qed.
End counter.

Section close.
Context {W : Type}.
Variable cb :
  nat → string → option HassState → option HassState → W → W * Outcome.

(** The turn of a ['close'] event, in full. *)
Lemma step_close s c w :
  is_Some (Ws.attempts s !! c) →
  Ws.step cb (Ws.SockClose c) s w
  = ((Ws.onClose (Ws.set_readyState c Ws.CLOSED s)).1.1, w,
     Log Warn "WsReadTransport: WebSocket closed" ""
     :: ((λ p, PendingRejected p.1 Ws.closedErr) <$> Ws.pending s)
     ++ [TimerSet "reconnect" (N.of_nat (Ws.nextTimer s))]
     ++ ((λ p, rejectionOf Ws.closedErr p.2) <$> Ws.pending s)).
Proof.
  intros [a Ha]. unfold Ws.step, Ws.handle.
  rewrite bool_decide_eq_true_2 by by eexists.
  unfold Ws.onClose, Ws.set_readyState. rewrite Ha. simpl.
  rewrite drain_rejections. simpl. by rewrite <- app_assoc.
Qed.

(** What the turn of a ['close'] event leaves. *)
Lemma step_close_fields s c w :
  is_Some (Ws.attempts s !! c) →
  let r := Ws.step cb (Ws.SockClose c) s w in
  r.1.2 = w
  ∧ Ws.reconnectTimeout r.1.1 = Some (Ws.nextTimer s)
  ∧ Ws.timers r.1.1 = Ws.timers s ∪ {[Ws.nextTimer s]}
  ∧ Ws.nextSocket r.1.1 = Ws.nextSocket s
  ∧ Ws.subscriptions r.1.1 = Ws.subscriptions s
  ∧ Ws.nextId r.1.1 = Ws.nextId s
  ∧ Ws.pending r.1.1 = []
  ∧ Ws.readyPromise r.1.1 = Ws.Pending []
  ∧ Ws.stateSubscriptionActive r.1.1 = false
  ∧ Ws.isConnected r.1.1 = false
  ∧ Ws.token r.1.1 = Ws.token s
  ∧ TimerSet "reconnect" (N.of_nat (Ws.nextTimer s)) ∈ r.2.
Proof.
  intros Hc r. subst r. rewrite (step_close s c w Hc).
  destruct Hc as [a Ha]. unfold Ws.onClose, Ws.set_readyState. rewrite Ha.
  simpl. split_and!; try done. set_solver.
Qed.

(** What the turn of an armed reconnect timer leaves: a new socket. *)
Lemma step_reconnect_fields s t w :
  t ∈ Ws.timers s →
  let r := Ws.step cb (Ws.ReconnectTimer t) s w in
  r.1.2 = w
  ∧ r.2 = [SocketNew (Ws.nextSocket s) "/api/websocket";
           TimerSet "connect" (N.of_nat (Ws.nextSocket s))]
  ∧ Ws.socket r.1.1 = Some (Ws.nextSocket s)
  ∧ Ws.attempts r.1.1 !! Ws.nextSocket s
    = Some {| Ws.readyState := Ws.CONNECTING; Ws.timeoutArmed := true;
              Ws.settled := None; Ws.isReconnect := true |}
  ∧ Ws.subscriptions r.1.1 = Ws.subscriptions s
  ∧ Ws.nextId r.1.1 = Ws.nextId s
  ∧ Ws.pending r.1.1 = Ws.pending s
  ∧ Ws.readyPromise r.1.1 = Ws.readyPromise s
  ∧ Ws.stateSubscriptionActive r.1.1 = Ws.stateSubscriptionActive s
  ∧ Ws.isConnected r.1.1 = Ws.isConnected s
  ∧ Ws.token r.1.1 = Ws.token s.
Proof.
  intros Ht r. subst r. unfold Ws.step, Ws.handle.
  rewrite bool_decide_eq_true_2 by done. simpl.
  split_and!; try done. by rewrite lookup_insert_eq.
Qed.

(** The turn of a ['close'] event, and the turn of the reconnect timer it
    arms. *)
Lemma close_turn (s : Ws.State) (c : nat) (w : W) :
  is_Some (Ws.attempts s !! c) →
  let r := Ws.step cb (Ws.SockClose c) s w in
  let r' := Ws.step cb (Ws.ReconnectTimer (Ws.nextTimer s)) r.1.1 r.1.2 in
  Ws.pending r.1.1 = []
  ∧ Ws.nextId r.1.1 = Ws.nextId s
  ∧ Ws.isConnected r.1.1 = false
  ∧ Ws.stateSubscriptionActive r.1.1 = false
  ∧ Ws.reconnectTimeout r.1.1 = Some (Ws.nextTimer s)
  ∧ Ws.nextTimer s ∈ Ws.timers r.1.1
  ∧ rejections r.2 = (λ p, (p.1, Ws.closedErr)) <$> Ws.pending s
  ∧ (∀ i who, (i, who) ∈ Ws.pending s → rejectionOf Ws.closedErr who ∈ r.2)
  ∧ (∀ i, PendingResolved i ∉ r.2)
  ∧ Ws.socket r'.1.1 = Some (Ws.nextSocket s)
  ∧ Ws.nextId r'.1.1 = Ws.nextId s.
Proof.
  intros Hc r r'.
  destruct (step_close_fields s c w Hc) as (_ & _ & Ht & Hs & _ & Hi & _).
  fold r in Ht, Hs, Hi.
  assert (Ws.nextTimer s ∈ Ws.timers r.1.1) as Harmed.
  { rewrite Ht. apply elem_of_union. right. by apply elem_of_singleton. }
  destruct (step_reconnect_fields r.1.1 (Ws.nextTimer s) r.1.2 Harmed)
    as (_ & _ & Hk & _ & _ & Hi' & _).
  fold r' in Hk, Hi'. rewrite Hs in Hk. rewrite Hi in Hi'.
  clearbody r'. subst r. rewrite (step_close s c w Hc).
  assert (∃ a, Ws.attempts s !! c = Some a) as [a Ha] by done.
  unfold Ws.onClose, Ws.set_readyState. rewrite Ha. simpl.
  split_and!; try done.
  - set_solver.
  - rewrite rejections_app, rejections_rejected.
    rewrite rejections_timer, rejections_callers. by rewrite app_nil_r.
  - intros i who Hin. right. apply elem_of_app. right. right.
    apply list_elem_of_fmap. by exists (i, who).
  - intros i [Hin|Hin]%elem_of_cons; [done|].
    apply elem_of_app in Hin as [Hin|Hin].
    + apply list_elem_of_fmap in Hin as (? & ? & ?). done.
    + apply elem_of_cons in Hin as [Hin|Hin]; [done|].
      apply list_elem_of_fmap in Hin as ([? who] & Heq & ?). by destruct who.
Qed.

(** C2, as the code has it. When the streaming channel closes, every
    registered pending request is failed with the connection-closed error
    (each caller sees the rejection) and the pending table is emptied; the
    connected flag and the upstream-subscribed flag drop and a reconnect timer
    is armed.  The correlation-id counter is not reset: the close leaves it at
    its value, and so does the reconnect attempt that the timer starts; and
    whatever happens afterwards, the counter never falls below the value it
    had before the close. *)
Theorem close_fails_pending_keeps_counter (s : Ws.State) (c : nat) (w : W) :
  is_Some (Ws.attempts s !! c) →
  let r := Ws.step cb (Ws.SockClose c) s w in
  let r' := Ws.step cb (Ws.ReconnectTimer (Ws.nextTimer s)) r.1.1 r.1.2 in
  Ws.pending r.1.1 = []
  ∧ Ws.nextId r.1.1 = Ws.nextId s
  ∧ Ws.isConnected r.1.1 = false
  ∧ Ws.stateSubscriptionActive r.1.1 = false
  ∧ Ws.reconnectTimeout r.1.1 = Some (Ws.nextTimer s)
  ∧ Ws.nextTimer s ∈ Ws.timers r.1.1
  ∧ rejections r.2 = (λ p, (p.1, Ws.closedErr)) <$> Ws.pending s
  ∧ (∀ i who, (i, who) ∈ Ws.pending s → rejectionOf Ws.closedErr who ∈ r.2)
  ∧ (∀ i, PendingResolved i ∉ r.2)
  ∧ Ws.socket r'.1.1 = Some (Ws.nextSocket s)
  ∧ Ws.nextId r'.1.1 = Ws.nextId s
  ∧ (∀ evs w', (Ws.nextId s ≤ Ws.nextId (Ws.run cb evs r.1.1 w').1.1)%N).
Proof.
  intros Hc r r'.
  destruct (close_turn s c w Hc)
    as (H1 & H2 & H3 & H4 & H5 & H6 & H7 & H8 & H9 & H10 & H11).
  fold r r' in H1, H2, H3, H4, H5, H6, H7, H8, H9, H10, H11.
  split_and!; try done.
  intros evs w'. pose proof (run_nextId cb evs r.1.1 w') as Hmono.
  rewrite H2 in Hmono. exact Hmono.
Qed.
End close.

(** With two state queries in flight, the close fails both. *)
Lemma close_witness :
  let r := Ws.step quiet (Ws.SockClose 0) querying () in
  Ws.pending querying = [(1%N, Ws.CallerQuery Ws.QAllStates 7);
                         (2%N, Ws.CallerQuery (Ws.QState "sensor.abc_target_1_x") 8)]
  ∧ Ws.pending r.1.1 = []
  ∧ QuerySettled 7 (Throw "WebSocket connection closed") ∈ r.2
  ∧ QuerySettled 8 (Throw "WebSocket connection closed") ∈ r.2.
Proof.
  destruct (close_fails_pending_keeps_counter quiet querying 0 ()
              (ex_intro _ _ eq_refl)) as (Hp & _ & _ & _ & _ & _ & _ & Hrej & _).
  split_and!.
  - vm_compute. reflexivity.
  - exact Hp.
  - apply (Hrej 1%N (Ws.CallerQuery Ws.QAllStates 7)).
    vm_compute. apply list_elem_of_here.
  - apply (Hrej 2%N (Ws.CallerQuery (Ws.QState "sensor.abc_target_1_x") 8)).
    vm_compute. apply list_elem_of_further, list_elem_of_here.
Defined.

(** C2 as stated fails: the close does not reset the counter.  After one
    command (id 1) and a close, the counter still stands at 2, the value a new
    transport starts from being 1, and the first command after the reconnect
    goes out with id 2. *)
Lemma close_does_not_reset_counter :
  let closed :=
    (Ws.run quiet
       (Ws.ApiConnect :: handshake 0
        ++ [Ws.ApiQuery Ws.QAllStates 7; Ws.SockClose 0])
       (Ws.init "token") ()).1.1 in
  Ws.nextId (Ws.init "token") = 1%N
  ∧ Ws.nextId closed = 2%N
  ∧ last (Ws.run quiet
            (Ws.ReconnectTimer 0 :: handshake 1 ++ [Ws.ApiQuery Ws.QAllStates 9])
            closed ()).2
    = Some (TimerSet "request" 2).
Proof. vm_compute. done. Qed.

Section auth.
Context {W : Type}.
Variable cb :
  nat → string → option HassState → option HassState → W → W * Outcome.

(** [this.socket?.close()] touches nothing but the ready state of the current
    socket. *)
Lemma closeSocket_frame s c a :
  Ws.attempts s !! c = Some a →
  ∃ a',
    Ws.attempts (Ws.closeSocket s).1 !! c = Some a'
    ∧ Ws.settled a' = Ws.settled a
    ∧ Ws.isReconnect a' = Ws.isReconnect a
    ∧ Ws.timeoutArmed a' = Ws.timeoutArmed a
    ∧ Ws.timers (Ws.closeSocket s).1 = Ws.timers s
    ∧ Ws.nextTimer (Ws.closeSocket s).1 = Ws.nextTimer s
    ∧ Ws.nextSocket (Ws.closeSocket s).1 = Ws.nextSocket s
    ∧ Ws.reconnectTimeout (Ws.closeSocket s).1 = Ws.reconnectTimeout s
    ∧ Ws.readyPromise (Ws.closeSocket s).1 = Ws.readyPromise s
    ∧ ∀ c0, Ws.socket s = Some c0 → (Ws.closeSocket s).2 = [SocketClose c0].
Proof.
  intros Ha. unfold Ws.closeSocket, Ws.set_readyState.
  destruct (Ws.socket s) as [c0|]; simpl.
  - destruct (Ws.attempts s !! c0) as [a0|] eqn:Ha0; simpl.
    + destruct (decide (c0 = c)) as [->|Hne].
      * rewrite lookup_insert_eq. eexists. split; [done|].
        rewrite Ha in Ha0. injection Ha0 as ->.
        split_and!; try done. by intros ? [= ->].
      * rewrite lookup_insert_ne by done. exists a.
        split_and!; try done. by intros ? [= ->].
    + exists a. split_and!; try done. by intros ? [= ->].
  - exists a. split_and!; done.
Qed.

(** The turn of an [auth_invalid] message on the socket of attempt [c]. *)
Lemma step_auth_invalid s c a parsed w :
  Ws.attempts s !! c = Some a →
  Ws.settled a = None →
  Ws.m_type parsed = "auth_invalid" →
  let err := Ws.authErr (Ws.authMessage parsed) in
  let r := Ws.step cb (Ws.SockMessage c (Some parsed)) s w in
  r.1.2 = w
  ∧ ConnectSettled c (Throw err) ∈ r.2
  ∧ (Ws.attempts r.1.1 !! c ≫= Ws.settled) = Some (Throw err)
  ∧ (∀ c0, Ws.socket s = Some c0 → SocketClose c0 ∈ r.2)
  ∧ (∀ ws, Ws.readyPromise s = Ws.Pending ws →
       Ws.readyPromise r.1.1 = Ws.Rejected err
       ∧ ∀ wt, wt ∈ ws → notReadyOf err wt ∈ r.2)
  ∧ Ws.timers r.1.1 = Ws.timers s
  ∧ Ws.nextTimer r.1.1 = Ws.nextTimer s
  ∧ Ws.nextSocket r.1.1 = Ws.nextSocket s
  ∧ Ws.reconnectTimeout r.1.1 = Ws.reconnectTimeout s
  ∧ (Ws.readyPromise s = Ws.Pending [] → UnhandledRejection err ∈ r.2)
  ∧ (exits r.2 = true ↔ Ws.readyPromise s = Ws.Pending []).
Proof.
  intros Ha Hunsettled Htype err r. subst r.
  unfold Ws.step, Ws.handle. rewrite bool_decide_eq_true_2 by by eexists.
  unfold Ws.onMessage. rewrite Htype. simpl. fold err.
  set (s1 := Ws.clearConnectionTimeout c s).
  assert (Ws.attempts s1 !! c
          = Some {| Ws.readyState := Ws.readyState a; Ws.timeoutArmed := false;
                    Ws.settled := Ws.settled a;
                    Ws.isReconnect := Ws.isReconnect a |}) as Ha1.
  { unfold s1, Ws.clearConnectionTimeout. rewrite Ha. simpl.
    by rewrite lookup_insert_eq. }
  assert (Ws.timers s1 = Ws.timers s ∧ Ws.nextTimer s1 = Ws.nextTimer s
          ∧ Ws.nextSocket s1 = Ws.nextSocket s
          ∧ Ws.reconnectTimeout s1 = Ws.reconnectTimeout s
          ∧ Ws.readyPromise s1 = Ws.readyPromise s
          ∧ Ws.socket s1 = Ws.socket s) as (Ht1 & Hn1 & Hs1 & Hr1 & Hp1 & Hk1).
  { unfold s1, Ws.clearConnectionTimeout. by rewrite Ha. }
  destruct (closeSocket_frame s1 c _ Ha1)
    as (a2 & Ha2 & Hset2 & Hrec2 & _ & Ht2 & Hn2 & Hs2 & Hr2 & Hp2 & He2).
  pose proof (closeSocket_exits s1) as Hx2.
  destruct (Ws.closeSocket s1) as [s2 e2]. simpl in *.
  rewrite Hunsettled in Hset2.
  assert (∀ c0, Ws.socket s = Some c0 → SocketClose c0 ∈ e2) as Hclose.
  { intros c0 Hc0. rewrite <- Hk1 in Hc0. rewrite (He2 _ Hc0).
    apply list_elem_of_here. }
  rewrite <- Hp1, <- Hp2.
  unfold Ws.rejectReady, Ws.settle.
  assert (exits (if Ws.isReconnect a2
                 then [Log Error "WsReadTransport: Reconnect failed" err]
                 else []) = false) as Hx4 by by destruct (Ws.isReconnect a2).
  assert (∀ ws : list Ws.Waiter, exits (notReadyOf err <$> ws) = false) as Hx5.
  { intros ws. apply exits_fmap. by intros [? []|]. }
  destruct (Ws.readyPromise s2) as [[|wt ws]| |] eqn:Hready;
    cbv beta iota zeta; cbn [Ws.attempts Ws.set_readyPromise];
    rewrite Ha2; cbv beta iota zeta; rewrite Hset2; cbv beta iota zeta;
    rewrite ?drain_not_ready, ?drain_nil; cbv beta iota zeta; cbn [fst snd];
    unfold Ws.set_attempt, Ws.set_attempts;
    cbn [Ws.attempts Ws.timers Ws.nextTimer Ws.nextSocket Ws.reconnectTimeout
         Ws.readyPromise Ws.set_readyPromise];
    rewrite lookup_insert_eq; cbn [mbind option_bind Ws.settled];
    (split_and!; [done | | done | | | congruence | congruence | congruence
                 | congruence | | ]).
  - apply elem_of_app. left. right. apply elem_of_app. right.
    apply elem_of_app. right. apply list_elem_of_here.
  - intros c0 Hc0. apply elem_of_app. left. right. apply elem_of_app. left.
    by apply Hclose.
  - intros ws [= <-]. split; [done|]. by intros wt ?%elem_of_nil.
  - intros _. apply elem_of_app. left. right. apply elem_of_app. right.
    apply elem_of_app. left. apply list_elem_of_here.
  - split; [done|]. intros _.
    rewrite !exits_app, exits_cons, !exits_app. simpl.
    by rewrite !orb_true_r.
  - apply elem_of_app. left. right. apply elem_of_app. right.
    apply elem_of_app. right. apply list_elem_of_here.
  - intros c0 Hc0. apply elem_of_app. left. right. apply elem_of_app. left.
    by apply Hclose.
  - intros ws' [= <-]. split; [done|]. intros wt' Hwt'.
    apply elem_of_app. right. apply list_elem_of_fmap. by exists wt'.
  - done.
  - split; [|done].
    rewrite !exits_app, exits_cons, !exits_app, (exits_cons (ConnectSettled _ _)).
    by rewrite Hx2, Hx4, Hx5.
  - apply elem_of_app. left. right. apply elem_of_app. right.
    apply elem_of_app. right. apply list_elem_of_here.
  - intros c0 Hc0. apply elem_of_app. left. right. apply elem_of_app. left.
    by apply Hclose.
  - done.
  - done.
  - split; [|done].
    rewrite !exits_app, exits_cons, !exits_app, (exits_cons (ConnectSettled _ _)).
    by rewrite Hx2, Hx4.
  - apply elem_of_app. left. right. apply elem_of_app. right.
    apply elem_of_app. right. apply list_elem_of_here.
  - intros c0 Hc0. apply elem_of_app. left. right. apply elem_of_app. left.
    by apply Hclose.
  - done.
  - done.
  - split; [|done].
    rewrite !exits_app, exits_cons, !exits_app, (exits_cons (ConnectSettled _ _)).
    by rewrite Hx2, Hx4.
Qed.

(** C3, as the code has it. When the handshake is acknowledged with invalid
    credentials, the pending [connect()] fails with the error
    [Auth invalid: <message>], the ready promise is rejected with it, those
    who await it are told, and the socket is closed; the handler itself arms
    no timer.  The transport does not keep the failure apart from other
    failures: unless the rejection of the ready promise is left unhandled
    (nobody awaited it), in which case this turn is the last of the process,
    the close event of the socket arms the reconnect timer as after any
    close, and when the timer fires the transport opens a new socket. *)
Theorem auth_invalid_rejects_then_reconnects (s : Ws.State) (c : nat)
    (a : Ws.Attempt) (parsed : Ws.Parsed) (w : W) :
  Ws.attempts s !! c = Some a →
  Ws.settled a = None →
  Ws.m_type parsed = "auth_invalid" →
  let err := Ws.authErr (Ws.authMessage parsed) in
  let turns := [Ws.SockMessage c (Some parsed); Ws.SockClose c;
                Ws.ReconnectTimer (Ws.nextTimer s)] in
  let r := Ws.step cb (Ws.SockMessage c (Some parsed)) s w in
  let r' := Ws.step cb (Ws.SockClose c) r.1.1 r.1.2 in
  let r'' := Ws.step cb (Ws.ReconnectTimer (Ws.nextTimer s)) r'.1.1 r'.1.2 in
  ConnectSettled c (Throw err) ∈ r.2
  ∧ (Ws.attempts r.1.1 !! c ≫= Ws.settled) = Some (Throw err)
  ∧ (∀ c0, Ws.socket s = Some c0 → SocketClose c0 ∈ r.2)
  ∧ (∀ ws, Ws.readyPromise s = Ws.Pending ws →
       Ws.readyPromise r.1.1 = Ws.Rejected err
       ∧ ∀ wt, wt ∈ ws → notReadyOf err wt ∈ r.2)
  ∧ Ws.timers r.1.1 = Ws.timers s
  ∧ Ws.reconnectTimeout r.1.1 = Ws.reconnectTimeout s
  ∧ (exits r.2 = true ↔ Ws.readyPromise s = Ws.Pending [])
  ∧ (Ws.readyPromise s = Ws.Pending [] →
       UnhandledRejection err ∈ r.2 ∧ Ws.run cb turns s w = r)
  ∧ (Ws.readyPromise s ≠ Ws.Pending [] →
       Ws.run cb turns s w = (r''.1.1, r''.1.2, r.2 ++ r'.2 ++ r''.2)
       ∧ exits (Ws.run cb turns s w).2 = false
       ∧ Ws.reconnectTimeout r'.1.1 = Some (Ws.nextTimer s)
       ∧ Ws.nextTimer s ∈ Ws.timers r'.1.1
       ∧ TimerSet "reconnect" (N.of_nat (Ws.nextTimer s)) ∈ r'.2
       ∧ SocketNew (Ws.nextSocket s) "/api/websocket" ∈ r''.2
       ∧ Ws.socket r''.1.1 = Some (Ws.nextSocket s)).
Proof.
  intros Ha Hunsettled Htype err turns r r' r''.
  destruct (step_auth_invalid s c a parsed w Ha Hunsettled Htype)
    as (Hw & Hrej & Hset & Hclose & Hready & Ht & Hn & Hs & Hr & Hun & Hex).
  fold err r in Hw, Hrej, Hset, Hclose, Hready, Ht, Hn, Hs, Hr, Hun, Hex.
  assert (is_Some (Ws.attempts r.1.1 !! c)) as Hc.
  { destruct (Ws.attempts r.1.1 !! c); [by eexists | done]. }
  destruct (step_close_fields cb r.1.1 c r.1.2 Hc)
    as (Hw' & Hr' & Ht' & Hs' & _ & _ & _ & _ & _ & _ & _ & Hset').
  fold r' in Hw', Hr', Ht', Hs', Hset'. rewrite Hn in Hr', Ht', Hset'.
  assert (Ws.nextTimer s ∈ Ws.timers r'.1.1) as Harmed.
  { rewrite Ht'. apply elem_of_union. right. by apply elem_of_singleton. }
  destruct (step_reconnect_fields cb r'.1.1 (Ws.nextTimer s) r'.1.2 Harmed)
    as (_ & He'' & Hk'' & _).
  fold r'' in He'', Hk''. rewrite Hs', Hs in He'', Hk''.
  split_and!; try done.
  - intros Hnone. split; [by apply Hun|].
    subst turns. apply run_exit. fold r. by apply Hex.
  - intros Hsome.
    assert (exits r.2 = false) as Hlive.
    { destruct (exits r.2); [|done]. by destruct Hsome, Hex as [-> _]. }
    assert (exits r'.2 = false) as Hlive'.
    { subst r'. apply step_goes_on. by intros ? ? [=]. }
    assert (exits r''.2 = false) as Hlive''.
    { subst r''. apply step_goes_on. by intros ? ? [=]. }
    assert (Ws.run cb turns s w = (r''.1.1, r''.1.2, r.2 ++ r'.2 ++ r''.2))
      as Hrun.
    { subst turns. rewrite run_cons by done. fold r.
      rewrite run_cons by done. fold r'.
      rewrite run_cons by done. fold r''. cbn [Ws.run fst snd].
      by rewrite app_nil_r. }
    rewrite Hrun. cbn [fst snd].
    split_and!; try done.
    + by rewrite !exits_app, Hlive, Hlive', Hlive''.
    + rewrite He''. apply list_elem_of_here.
Qed.
End auth.

(** The refusal reaches a transport whose subscription awaits readiness:
    [connect()] fails with the auth error, the subscription's
    [activateStateSubscription] logs its failure, and the close of the socket
    arms reconnect timer 0. *)
Lemma auth_invalid_witness :
  let r := Ws.step quiet (Ws.SockMessage 0 (Some (bare "auth_invalid")))
             awaited () in
  let r' := Ws.step quiet (Ws.SockClose 0) r.1.1 r.1.2 in
  ConnectSettled 0 (Throw "Auth invalid: Unknown auth error") ∈ r.2
  ∧ exits r.2 = false
  ∧ Ws.reconnectTimeout r'.1.1 = Some 0.
Proof.
  intros r r'.
  destruct (auth_invalid_rejects_then_reconnects quiet awaited 0
              {| Ws.readyState := Ws.OPEN; Ws.timeoutArmed := true;
                 Ws.settled := None; Ws.isReconnect := false |}
              (bare "auth_invalid") () eq_refl eq_refl eq_refl)
    as (H1 & _ & _ & _ & _ & _ & H2 & _ & H3).
  destruct H3 as (_ & _ & H4 & _); [vm_compute; discriminate|].
  split_and!; [exact H1 | | exact H4].
  apply not_true_is_false. intros He. apply H2 in He.
  vm_compute in He. discriminate He.
Defined.

(** C3 as stated fails: a subscription is made while the transport is in its
    first handshake, so that [activateStateSubscription] awaits the ready
    promise.  The invalid-credentials acknowledgment fails [connect()]; the
    process goes on; the close of the socket schedules a reconnect, and when
    its timer fires the transport connects again on its own. *)
Lemma auth_invalid_is_retried :
  let r :=
    Ws.run quiet
      [Ws.ApiConnect; Ws.ApiSubscribe "sub-1" ["sensor.abc_target_1_x"] 1;
       Ws.SockOpen 0;
       Ws.SockMessage 0 (Some (bare "auth_required"));
       Ws.SockMessage 0 (Some (bare "auth_invalid"));
       Ws.SockClose 0;
       Ws.ReconnectTimer 0]
      (Ws.init "token") () in
  r.2 = [SocketNew 0 "/api/websocket"; TimerSet "connect" 0;
         SocketSend 0 None (Ws.authCmd "token");
         Log Error "WsReadTransport: Auth invalid" "Unknown auth error";
         SocketClose 0;
         ConnectSettled 0 (Throw "Auth invalid: Unknown auth error");
         Log Error "WsReadTransport: Failed to subscribe to state_changed"
           "Auth invalid: Unknown auth error";
         Log Warn "WsReadTransport: WebSocket closed" "";
         TimerSet "reconnect" 0;
         SocketNew 1 "/api/websocket"; TimerSet "connect" 1]
  ∧ exits r.2 = false
  ∧ Ws.socket r.1.1 = Some 1.
Proof. vm_compute. done. Qed.

Section reconnect.
Context {W : Type}.
Variable cb :
  nat → string → option HassState → option HassState → W → W * Outcome.

Lemma step_open s c a w :
  Ws.attempts s !! c = Some a →
  Ws.step cb (Ws.SockOpen c) s w
  = (Ws.set_attempt c
       {| Ws.readyState := Ws.OPEN; Ws.timeoutArmed := Ws.timeoutArmed a;
          Ws.settled := Ws.settled a; Ws.isReconnect := Ws.isReconnect a |} s,
     w, []).
Proof.
  intros Ha. unfold Ws.step, Ws.handle, Ws.set_readyState. by rewrite Ha.
Qed.

Lemma step_auth_required s c c0 w :
  is_Some (Ws.attempts s !! c) →
  Ws.openSocket s = Some c0 →
  Ws.step cb (Ws.SockMessage c (Some (bare "auth_required"))) s w
  = (s, w, [SocketSend c0 None (Ws.authCmd (Ws.token s))]).
Proof.
  intros Hc Hopen. unfold Ws.step, Ws.handle.
  rewrite bool_decide_eq_true_2 by done.
  unfold Ws.onMessage, Ws.sendRaw. rewrite Hopen. done.
Qed.

(** The change event of an entity reaches the subscriptions, and nothing
    else. *)
Lemma step_change_event s c x o n w :
  is_Some (Ws.attempts s !! c) →
  Ws.step cb (Ws.SockMessage c (Some (changeEvent x o n))) s w
  = (s,
     (Ws.handleStateChanged cb s
        {| Ws.ev_entity_id := x; Ws.old_state := o; Ws.new_state := n |} w).1,
     (Ws.handleStateChanged cb s
        {| Ws.ev_entity_id := x; Ws.old_state := o; Ws.new_state := n |} w).2).
Proof.
  intros Hc. unfold Ws.step, Ws.handle.
  rewrite bool_decide_eq_true_2 by done. unfold Ws.onMessage. simpl.
  destruct (Ws.handleStateChanged cb s _ w) as [w' e]. simpl.
  by rewrite app_nil_r.
Qed.

(** The acknowledgment of the credentials on the current, open socket of a
    transport that holds subscriptions and is not subscribed upstream: the
    transport is connected and the subscribe command goes out under the next
    id. *)
Lemma step_auth_ok s c a w :
  Ws.socket s = Some c →
  Ws.attempts s !! c = Some a →
  Ws.readyState a = Ws.OPEN →
  Ws.readyPromise s = Ws.Pending [] →
  Ws.stateSubscriptionActive s = false →
  0 < JsMap.size (Ws.subscriptions s) →
  let r := Ws.step cb (Ws.SockMessage c (Some (bare "auth_ok"))) s w in
  r.1.2 = w
  ∧ SocketSend c (Some (Ws.nextId s)) Ws.subscribeCmd ∈ r.2
  ∧ Ws.pending r.1.1 = JsMap.set (Ws.nextId s) Ws.CallerActivate (Ws.pending s)
  ∧ Ws.subscriptions r.1.1 = Ws.subscriptions s
  ∧ Ws.isConnected r.1.1 = true
  ∧ Ws.readyPromise r.1.1 = Ws.Fulfilled
  ∧ Ws.stateSubscriptionActive r.1.1 = false
  ∧ (∀ c0, is_Some (Ws.attempts s !! c0) → is_Some (Ws.attempts r.1.1 !! c0)).
Proof.
  intros Hsock Ha Hopen Hready Hflag Hsubs r. subst r.
  unfold Ws.step, Ws.handle. rewrite bool_decide_eq_true_2 by by eexists.
  unfold Ws.onMessage. simpl.
  unfold Ws.clearConnectionTimeout. rewrite Ha. simpl.
  unfold Ws.setReady. simpl. rewrite Hready. simpl.
  unfold Ws.settle. simpl. rewrite lookup_insert_eq. simpl.
  destruct (Ws.settled a) eqn:Hset; simpl.
  - rewrite bool_decide_eq_true_2 by done.
    unfold Ws.activateStateSubscription. simpl. rewrite Hflag. simpl.
    unfold Ws.drain, Ws.run_jobs, Ws.run_job, Ws.call. simpl.
    unfold Ws.issue, Ws.sendRaw, Ws.openSocket. simpl.
    rewrite Hsock. rewrite lookup_insert_eq. simpl. rewrite Hopen. simpl.
    split_and!; try done.
    + set_solver.
    + intros c0 Hc0. destruct (decide (c = c0)) as [->|];
        [rewrite lookup_insert_eq | rewrite lookup_insert_ne]; done.
  - rewrite bool_decide_eq_true_2 by done.
    unfold Ws.activateStateSubscription. simpl. rewrite Hflag. simpl.
    unfold Ws.drain, Ws.run_jobs, Ws.run_job, Ws.call. simpl.
    unfold Ws.issue, Ws.sendRaw, Ws.openSocket. simpl.
    rewrite Hsock. rewrite insert_insert_eq, lookup_insert_eq. simpl.
    rewrite Hopen. simpl.
    split_and!; try done.
    + set_solver.
    + intros c0 Hc0. destruct (decide (c = c0)) as [->|];
        [rewrite lookup_insert_eq | rewrite lookup_insert_ne]; done.
Qed.
(** The result of the subscribe command marks the transport subscribed. *)
Lemma step_subscribe_result s c response i w :
  is_Some (Ws.attempts s !! c) →
  Ws.m_type response = "result" →
  Ws.m_id response = Some i →
  JsMap.get i (Ws.pending s) = Some Ws.CallerActivate →
  Ws.step cb (Ws.SockMessage c (Some response)) s w
  = (Ws.set_stateSubscriptionActive true
       (Ws.set_pending (JsMap.delete i (Ws.pending s)) s),
     w, [PendingResolved i]).
Proof.
  intros Hc Htype Hid Hget. unfold Ws.step, Ws.handle.
  rewrite bool_decide_eq_true_2 by done.
  unfold Ws.onMessage, Ws.pendingFor. rewrite Htype, Hid, Hget. done.
Qed.

(** C4. Let a transport that holds subscriptions lose its channel and
    reconnect: the socket closes, the reconnect timer fires, the new socket
    opens and the handshake is acknowledged.  The subscriptions are the ones
    held before, and with the acknowledgment the subscribe-to-change-events
    command is sent again on the new socket, under the next correlation id,
    without any call by the owner.  Once its result arrives the transport is
    marked subscribed, and a change event then invokes every subscription,
    made before the outage, that matches it. *)
Theorem reconnect_resubscribes (s : Ws.State) (c : nat) (w : W) :
  is_Some (Ws.attempts s !! c) →
  0 < JsMap.size (Ws.subscriptions s) →
  let c' := Ws.nextSocket s in
  let i := Ws.nextId s in
  let r := Ws.run cb
             (Ws.SockClose c :: Ws.ReconnectTimer (Ws.nextTimer s)
              :: handshake c') s w in
  Ws.subscriptions r.1.1 = Ws.subscriptions s
  ∧ Ws.isConnected r.1.1 = true
  ∧ SocketSend c' (Some i) Ws.subscribeCmd ∈ r.2
  ∧ Ws.pending r.1.1 = [(i, Ws.CallerActivate)]
  ∧ ∀ response,
      Ws.m_type response = "result" → Ws.m_id response = Some i →
      let r' := Ws.step cb (Ws.SockMessage c' (Some response)) r.1.1 r.1.2 in
      Ws.stateSubscriptionActive r'.1.1 = true
      ∧ Ws.subscriptions r'.1.1 = Ws.subscriptions s
      ∧ ∀ x o n,
          invocations
            (Ws.step cb (Ws.SockMessage c' (Some (changeEvent x o n)))
               r'.1.1 r'.1.2).2
          = due s {| Ws.ev_entity_id := x; Ws.old_state := o;
                     Ws.new_state := n |}.
Proof.
  intros Hc Hsubs c' i r.
  pose proof (step_close_fields cb s c w Hc) as F1. cbv zeta in F1.
  destruct (Ws.step cb (Ws.SockClose c) s w) as [[s1 w1] e1] eqn:E1.
  cbn [fst snd] in F1.
  destruct F1 as (_ & _ & Ht1 & Hs1 & Hsub1 & Hi1 & Hp1 & Hr1 & Hf1 & _ & _ & _).
  assert (Ws.nextTimer s ∈ Ws.timers s1) as Hin.
  { rewrite Ht1. apply elem_of_union. right. by apply elem_of_singleton. }
  pose proof (step_reconnect_fields cb s1 (Ws.nextTimer s) w1 Hin) as F2.
  cbv zeta in F2.
  destruct (Ws.step cb (Ws.ReconnectTimer (Ws.nextTimer s)) s1 w1)
    as [[s2 w2] e2] eqn:E2.
  cbn [fst snd] in F2.
  destruct F2 as (_ & _ & Hk2 & Ha2 & Hsub2 & Hi2 & Hp2 & Hr2 & Hf2 & _ & _).
  rewrite Hs1 in Hk2, Ha2. fold c' in Hk2, Ha2.
  pose proof (step_open s2 c' _ w2 Ha2) as E3. cbn [Ws.timeoutArmed
    Ws.settled Ws.isReconnect] in E3.
  set (s3 := Ws.set_attempt c' _ s2) in E3.
  assert (Ws.attempts s3 !! c'
          = Some {| Ws.readyState := Ws.OPEN; Ws.timeoutArmed := true;
                    Ws.settled := None; Ws.isReconnect := true |}) as Ha3.
  { unfold s3, Ws.set_attempt, Ws.set_attempts. cbn [Ws.attempts].
    by rewrite lookup_insert_eq. }
  assert (Ws.socket s3 = Some c' ∧ Ws.nextId s3 = i ∧ Ws.pending s3 = []
          ∧ Ws.subscriptions s3 = Ws.subscriptions s
          ∧ Ws.readyPromise s3 = Ws.Pending []
          ∧ Ws.stateSubscriptionActive s3 = false)
    as (Hk3 & Hi3 & Hp3 & Hsub3 & Hr3 & Hf3).
  { unfold s3, Ws.set_attempt, Ws.set_attempts.
    cbn [Ws.socket Ws.nextId Ws.pending Ws.subscriptions Ws.readyPromise
         Ws.stateSubscriptionActive].
    by rewrite Hk2, Hi2, Hi1, Hp2, Hp1, Hsub2, Hsub1, Hr2, Hr1, Hf2, Hf1. }
  assert (Ws.openSocket s3 = Some c') as Hopen3.
  { unfold Ws.openSocket. by rewrite Hk3, Ha3. }
  pose proof (step_auth_required s3 c' c' w2 ltac:(by rewrite Ha3) Hopen3)
    as E4.
  pose proof (step_auth_ok s3 c' _ w2 Hk3 Ha3 eq_refl Hr3 Hf3
                ltac:(by rewrite Hsub3)) as F5.
  cbv zeta in F5.
  destruct (Ws.step cb (Ws.SockMessage c' (Some (bare "auth_ok"))) s3 w2)
    as [[s5 w5] e5] eqn:E5.
  cbn [fst snd] in F5.
  destruct F5 as (_ & Hsend5 & Hp5 & Hsub5 & Hc5 & _ & _ & Hat5).
  rewrite Hi3 in Hsend5, Hp5. rewrite Hp3 in Hp5. rewrite Hsub3 in Hsub5.
  assert (r = (s5, w5,
               e1 ++ e2 ++ [] ++ [SocketSend c' None (Ws.authCmd (Ws.token s3))]
               ++ e5 ++ [])) as Hr.
  { subst r. unfold handshake.
    rewrite !run_cons
      by (apply step_goes_on; intros ? ? ?; by simplify_eq).
    rewrite E1. cbn [fst snd]. rewrite E2. cbn [fst snd].
    rewrite E3. cbn [fst snd]. rewrite E4. cbn [fst snd].
    rewrite E5. cbn [fst snd]. reflexivity. }
  rewrite Hr. cbn [fst snd]. split_and!; [done | done | | done |].
  - rewrite !elem_of_app. right. right. right. right. by left.
  - intros response Htype Hid.
    assert (is_Some (Ws.attempts s5 !! c')) as Hc5'
      by (apply Hat5; by rewrite Ha3).
    assert (JsMap.get i (Ws.pending s5) = Some Ws.CallerActivate) as Hget.
    { rewrite Hp5. cbn [JsMap.set JsMap.get]. by destruct (decide (i = i)). }
    pose proof (step_subscribe_result s5 c' response i w5
                  Hc5' Htype Hid Hget) as Hr'.
    rewrite Hr'. cbn [fst snd].
    split_and!; [done | done |].
    intros x o n. rewrite step_change_event by done. cbn [fst snd].
    unfold Ws.handleStateChanged. rewrite ws_notifyAll_invocations.
    unfold due, Ws.set_stateSubscriptionActive, Ws.set_pending.
    cbn [Ws.ev_entity_id Ws.new_state Ws.old_state Ws.subscriptions].
    by rewrite Hsub5.
Qed.
End reconnect.

Lemma listening_next :
  Ws.nextSocket listening = 1 ∧ Ws.nextId listening = 3%N
  ∧ Ws.nextTimer listening = 0.
Proof. vm_compute. done. Qed.

Lemma listening_socket : is_Some (Ws.attempts listening !! 0).
Proof. eexists. vm_compute. reflexivity. Qed.

Lemma listening_subscriptions : 0 < JsMap.size (Ws.subscriptions listening).
Proof.
  replace (JsMap.size (Ws.subscriptions listening)) with 2
    by (vm_compute; reflexivity).
  lia.
Qed.

(** The transport [listening] loses socket 0 and reconnects on socket 1: the
    subscribe command goes out again, under id 3, and after its result a
    change of the watched entity reaches both subscriptions. *)
Lemma reconnect_witness :
  let r := Ws.run faulty
             (Ws.SockClose 0 :: Ws.ReconnectTimer 0 :: handshake 1)
             listening () in
  let result :=
    {| Ws.m_type := "result"; Ws.m_id := Some 3%N; Ws.m_message := None;
       Ws.m_success := true; Ws.m_result := None; Ws.m_event := None |} in
  let r' := Ws.step faulty (Ws.SockMessage 1 (Some result)) r.1.1 r.1.2 in
  SocketSend 1 (Some 3%N) Ws.subscribeCmd ∈ r.2
  ∧ Ws.stateSubscriptionActive r'.1.1 = true
  ∧ invocations
      (Ws.step faulty
         (Ws.SockMessage 1
            (Some (changeEvent "sensor.abc_target_1_x" None (Some seen))))
         r'.1.1 r'.1.2).2
    = [("sub-1", 1, "sensor.abc_target_1_x", Some seen, None);
       ("sub-2", 2, "sensor.abc_target_1_x", Some seen, None)].
Proof.
  intros r result r'.
  pose proof (reconnect_resubscribes faulty listening 0 ()
                listening_socket listening_subscriptions) as H.
  cbv zeta in H. destruct listening_next as (Hsock & Hid & Htimer).
  rewrite Hsock, Hid, Htimer in H.
  destruct H as (_ & _ & Hsend & _ & Hres).
  destruct (Hres result eq_refl eq_refl) as (Hact & _ & Hinv).
  split_and!; [exact Hsend | exact Hact |].
  subst r r'. rewrite Hinv. vm_compute. reflexivity.
Defined.

(** ** The transport selector *)

Lemma rest_connect_ok st res :
  ok res = true →
  Rest.connect st (Ok res)
  = ([], Ok {| Rest.subscriptions := Rest.subscriptions st;
               Rest.pollingTimer := Rest.pollingTimer st;
               Rest.isConnected := true |}).
Proof.
  intros Hok. unfold Rest.connect, try_catch, await, mbind, comp_bind.
  by rewrite Hok.
Qed.

Lemma rest_connect_fail st net :
  (∀ res, net = Ok res → ok res = false) →
  ∃ log err, Rest.connect st net = (log, Throw err).
Proof.
  intros Hnet. unfold Rest.connect, try_catch, await, mbind, comp_bind, emit.
  destruct net as [res|err]; [|by eexists _, _].
  rewrite (Hnet res eq_refl). simpl. destruct (text res); by eexists _, _.
Qed.

(** [disconnect()] leaves no socket, no reconnect timer of its own, and both
    flags down. *)
Lemma disconnect_fields s :
  Ws.socket (Ws.disconnect s).1 = None
  ∧ Ws.reconnectTimeout (Ws.disconnect s).1 = None
  ∧ Ws.isConnected (Ws.disconnect s).1 = false
  ∧ Ws.stateSubscriptionActive (Ws.disconnect s).1 = false
  ∧ Ws.subscriptions (Ws.disconnect s).1 = Ws.subscriptions s.
Proof.
  unfold Ws.disconnect, Ws.closeSocket, Ws.set_readyState.
  destruct (Ws.reconnectTimeout s) as [t|] eqn:Ht; simpl.
  - destruct (Ws.socket s) as [c|] eqn:Hs; simpl; [|by rewrite Hs].
    destruct (Ws.attempts s !! c); simpl; done.
  - destruct (Ws.socket s) as [c|] eqn:Hs; simpl; [|by rewrite Hs, Ht].
    destruct (Ws.attempts s !! c); simpl; by rewrite Ht.
Qed.

Lemma restFallback_ok restNet res :
  restNet = Ok res → ok res = true →
  (Factory.restFallback restNet).2
  = Ok {| Factory.transport :=
            Factory.RestTransport
              {| Rest.subscriptions := []; Rest.pollingTimer := false;
                 Rest.isConnected := true |};
          Factory.activeTransport := "rest";
          Factory.wsAvailable := false;
          Factory.restAvailable := true |}.
Proof.
  intros -> Hok. unfold Factory.restFallback.
  by rewrite (rest_connect_ok Rest.init res Hok).
Qed.

Lemma restFallback_fail restNet :
  (∀ res, restNet = Ok res → ok res = false) →
  (Factory.restFallback restNet).2
  = Throw "Failed to connect to Home Assistant via WebSocket or REST".
Proof.
  intros Hnet. unfold Factory.restFallback.
  destruct (rest_connect_fail Rest.init restNet Hnet) as (log & err & ->).
  done.
Qed.

Lemma restFallback_created restNet created :
  (Factory.restFallback restNet).2 = Ok created →
  Factory.activeTransport created = "rest"
  ∧ Factory.wsAvailable created = false
  ∧ Factory.restAvailable created = true
  ∧ ∃ rs, Factory.transport created = Factory.RestTransport rs
          ∧ Rest.isConnected rs = true.
Proof.
  unfold Factory.restFallback.
  destruct restNet as [res|err].
  - destruct (ok res) eqn:Hok.
    + rewrite (rest_connect_ok Rest.init res Hok). simpl.
      intros [= <-]. simpl. split_and!; try done. by eexists.
    + destruct (rest_connect_fail Rest.init (Ok res)) as (log & err & ->);
        [by intros ? [= <-] | done].
  - destruct (rest_connect_fail Rest.init (Throw err)) as (log & e & ->);
      done.
Qed.

(** C5. The selector with streaming preferred, at the inputs where the claim
    fails.  When the streaming attempt times out and the REST API answers,
    the selector returns the polling transport with [wsAvailable = false] and
    [restAvailable = true], after [disconnect()] on the streaming transport;
    but the streaming transport is not torn down: the close of its aborted
    socket arms the reconnect timer, the timer opens a new socket, and after
    the handshake the transport that was given up is connected.  When the
    handshake is refused ([auth_invalid]), the rejection of the ready promise
    is unhandled and the process ends: the selector does not fall back.
    (When the connection fails with an error, the close comes in the same
    turn, before the selector goes on: the reconnect timer it arms is the one
    [disconnect()] clears, and the streaming transport stays down.) *)
Theorem selector_teardown_is_undone :
  timedOut.2
  = Factory.Settled
      (Ok {| Factory.transport :=
               Factory.RestTransport
                 {| Rest.subscriptions := []; Rest.pollingTimer := false;
                    Rest.isConnected := true |};
             Factory.activeTransport := "rest";
             Factory.wsAvailable := false;
             Factory.restAvailable := true |})
  ∧ timedOut.1.1.1 = Some abandoned
  ∧ SocketClose 0 ∈ timedOut.1.2
  ∧ Ws.socket abandoned = None
  ∧ Ws.reconnectTimeout abandoned = None
  ∧ (let closed := Ws.turn quiet (aborted 0) abandoned () in
     let later := Ws.run quiet (Ws.ReconnectTimer 0 :: handshake 1)
                    closed.1.1 () in
     closed.2
     = [Log Error "WsReadTransport: WebSocket error"
          "WebSocket was closed before the connection was established";
        ConnectSettled 0
          (Throw "WebSocket was closed before the connection was established");
        Log Warn "WsReadTransport: WebSocket closed" "";
        TimerSet "reconnect" 0]
     ∧ Ws.reconnectTimeout closed.1.1 = Some 0
     ∧ later.2
       = [SocketNew 1 "/api/websocket"; TimerSet "connect" 1;
          SocketSend 1 None (Ws.authCmd "token"); ConnectSettled 1 (Ok ())]
     ∧ Ws.socket later.1.1 = Some 1
     ∧ Ws.isConnected later.1.1 = true)
  ∧ (let r := Factory.createReadTransport quiet Factory.defaults false "token"
                refused (answers ()) (answers ()) () in
     UnhandledRejection "Auth invalid: Unknown auth error" ∈ r.1.2
     ∧ r.2 = Factory.ProcessEnded)
  ∧ (let r := Factory.createReadTransport quiet Factory.defaults false "token"
                unreachable (answers ()) (answers ()) () in
     r.1.2
     = [SocketNew 0 "/api/websocket"; TimerSet "connect" 0;
        Log Error "WsReadTransport: WebSocket error" "connect ECONNREFUSED";
        ConnectSettled 0 (Throw "connect ECONNREFUSED");
        Log Warn "WsReadTransport: WebSocket closed" "";
        TimerSet "reconnect" 0;
        Log Warn
          "TransportFactory: WebSocket connection failed, trying REST fallback"
          "connect ECONNREFUSED";
        TimerCleared "reconnect" 0; SocketClose 0]
     ∧ (∃ gaveUp, r.1.1.1 = Some gaveUp
                  ∧ Ws.socket gaveUp = None
                  ∧ Ws.reconnectTimeout gaveUp = None
                  ∧ Ws.timers gaveUp = ∅)
     ∧ r.2 = timedOut.2).
Proof.
  split_and!; try (vm_compute; reflexivity).
  - vm_compute. do 3 apply list_elem_of_further. apply list_elem_of_here.
  - vm_compute. split_and!; reflexivity.
  - vm_compute. split; [|reflexivity].
    do 5 apply list_elem_of_further. apply list_elem_of_here.
  - cbv zeta. split_and!; [vm_compute; reflexivity | | vm_compute; reflexivity].
    eexists. split; [vm_compute; reflexivity|].
    split_and!; vm_compute; reflexivity.
Qed.

(** * Further properties of the transports and of the fan-out server *)

(** ** Base URLs *)

Lemma string_app_cons (x : ascii) (a b : string) :
  String x a +:+ b = String x (a +:+ b).
Proof. reflexivity. Qed.

Lemma string_app_nil (b : string) : EmptyString +:+ b = b.
Proof. reflexivity. Qed.

Lemma string_app_assoc (a b c : string) : (a +:+ b) +:+ c = a +:+ (b +:+ c).
Proof.
  induction a as [|x a IH]; [done|]. by rewrite !string_app_cons, IH.
Qed.

Lemma string_length_app (a b : string) :
  String.length (a +:+ b) = String.length a + String.length b.
Proof.
  induction a as [|x a IH]; [done|]. rewrite string_app_cons. simpl.
  by rewrite IH.
Qed.

Lemma dropSuffix_unfold p s :
  dropSuffix p s
  = if decide (s = p) then Some EmptyString
    else match s with
         | EmptyString => None
         | String a rest => String a <$> dropSuffix p rest
         end.
Proof. by destruct s. Qed.

Lemma dropSuffix_app p s : dropSuffix p (s +:+ p) = Some s.
Proof.
  induction s as [|a s IH].
  - rewrite string_app_nil, dropSuffix_unfold. by rewrite decide_True.
  - rewrite string_app_cons, dropSuffix_unfold, decide_False, IH; [done|].
    intros Heq. apply (f_equal String.length) in Heq. simpl in Heq.
    rewrite string_length_app in Heq. lia.
Qed.

Lemma dropSuffix_Some p s x : dropSuffix p s = Some x → s = x +:+ p.
Proof.
  revert x. induction s as [|a s IH]; intros x; rewrite dropSuffix_unfold.
  - destruct (decide _) as [<-|]; [by intros [= <-] | done].
  - destruct (decide _) as [<-|]; [by intros [= <-]|].
    destruct (dropSuffix p s) as [y|]; [|done]. intros [= <-].
    by rewrite string_app_cons, <- (IH y).
Qed.

Lemma endsWith_app p s : endsWith p (s +:+ p) = true.
Proof. unfold endsWith. rewrite dropSuffix_app. by apply bool_decide_eq_true_2. Qed.

Lemma dropPrefix_app p s : dropPrefix p (p +:+ s) = Some s.
Proof.
  induction p as [|a p IH]; [done|].
  rewrite string_app_cons. simpl. by rewrite Ascii.eqb_refl.
Qed.

(** The last character of a string. *)
Lemma stripTrailingSlashes_snoc s (a : ascii) :
  a ≠ "/"%char →
  stripTrailingSlashes (s +:+ String a EmptyString) = s +:+ String a EmptyString.
Proof.
  intros Ha. induction s as [|b s IH].
  - rewrite string_app_nil. simpl. by rewrite (proj2 (Ascii.eqb_neq _ _) Ha).
  - rewrite string_app_cons. simpl. rewrite IH. by destruct s.
Qed.

Lemma stripTrailingSlashes_slash s :
  stripTrailingSlashes (s +:+ "/") = stripTrailingSlashes s.
Proof.
  induction s as [|b s IH]; [done|].
  rewrite string_app_cons. simpl. by rewrite IH.
Qed.

Lemma stripTrailingSlashes_idemp s :
  stripTrailingSlashes (stripTrailingSlashes s) = stripTrailingSlashes s.
Proof.
  induction s as [|b s IH]; simpl; [done|].
  destruct (stripTrailingSlashes s) as [|c r] eqn:Hr.
  - destruct (Ascii.eqb b "/") eqn:Hb; simpl; [done | by rewrite Hb].
  - change (stripTrailingSlashes (String b (String c r)))
      with (match stripTrailingSlashes (String c r) with
            | EmptyString =>
                if Ascii.eqb b "/" then EmptyString else String b EmptyString
            | r' => String b r'
            end).
    by rewrite IH.
Qed.

Lemma stripTrailingSlashes_api s :
  stripTrailingSlashes (s +:+ "/api") = s +:+ "/api".
Proof.
  change "/api" with ("/ap" +:+ String "i" EmptyString).
  rewrite <- string_app_assoc. by apply stripTrailingSlashes_snoc.
Qed.

Lemma apiBase_ends b : ∃ s, apiBase b = s +:+ "/api".
Proof.
  unfold apiBase, endsWith.
  destruct (dropSuffix "/api" (stripTrailingSlashes b)) as [x|] eqn:Hx.
  - rewrite bool_decide_eq_true_2 by done. simpl.
    exists x. by apply dropSuffix_Some.
  - rewrite bool_decide_eq_false_2 by by intros [? ?]. simpl. by eexists.
Qed.

(** X1. The two REST clients and the reachability probe of the selector bring
    the configured base URL to one normal form: it ends with [/api], carries
    no trailing slash, and normalising it again changes nothing; a trailing
    slash on the configured URL makes no difference.  The URL the probe
    fetches is the URL the polling transport fetches to connect, and the
    state queries go to [/states] and [/states/<entityId>] under the same
    base; [buildUrl] puts the slash before a path that lacks it. *)
Theorem api_base_normal_form (configBaseUrl : string) :
  endsWith "/api" (apiBase configBaseUrl) = true
  ∧ stripTrailingSlashes (apiBase configBaseUrl) = apiBase configBaseUrl
  ∧ apiBase (apiBase configBaseUrl) = apiBase configBaseUrl
  ∧ apiBase (configBaseUrl +:+ "/") = apiBase configBaseUrl
  ∧ Factory.probeUrl configBaseUrl = Rest.healthUrl configBaseUrl
  ∧ Rest.healthUrl configBaseUrl = apiBase configBaseUrl +:+ "/"
  ∧ Rest.statesUrl configBaseUrl = apiBase configBaseUrl +:+ "/states"
  ∧ (∀ entityId,
       Rest.stateUrl configBaseUrl entityId
       = apiBase configBaseUrl +:+ "/states/" +:+ entityId)
  ∧ (∀ path, startsWith "/" path = false →
       buildUrl (apiBase configBaseUrl) path
       = buildUrl (apiBase configBaseUrl) ("/" +:+ path)).
Proof.
  destruct (apiBase_ends configBaseUrl) as [s Hs].
  assert (stripTrailingSlashes (apiBase configBaseUrl) = apiBase configBaseUrl)
    as Hstrip by (rewrite Hs; apply stripTrailingSlashes_api).
  assert (endsWith "/api" (apiBase configBaseUrl) = true) as Hends
    by (rewrite Hs; apply endsWith_app).
  split_and!; try done.
  - unfold apiBase at 1. by rewrite Hstrip, Hends.
  - unfold apiBase. by rewrite stripTrailingSlashes_slash.
  - intros path Hpath. unfold buildUrl. rewrite Hpath.
    by replace (startsWith "/" ("/" +:+ path)) with true.
Qed.

(** X2. The socket URL: a base URL given with the [/api] suffix, with or
    without a slash after it, yields the same socket URL, with the scheme
    [http] turned into [ws] (so [https] into [wss]) and [/api/websocket]
    after the host part; the REST base of both spellings is the one with
    [/api]. *)
Theorem ws_url_of_api_base (host : string) :
  Ws.url ("http" +:+ host +:+ "/api") = "ws" +:+ host +:+ "/api/websocket"
  ∧ Ws.url ("http" +:+ host +:+ "/api/") = "ws" +:+ host +:+ "/api/websocket"
  ∧ apiBase ("http" +:+ host +:+ "/api") = "http" +:+ host +:+ "/api"
  ∧ apiBase ("http" +:+ host +:+ "/api/") = "http" +:+ host +:+ "/api".
Proof.
  assert (dropSuffix "/api/" ("http" +:+ host +:+ "/api") = None) as Hnone.
  { destruct (dropSuffix _ _) as [x|] eqn:Hx; [|done].
    apply dropSuffix_Some in Hx.
    pose proof (f_equal String.length Hx) as Hlen.
    apply (f_equal stripTrailingSlashes) in Hx.
    rewrite <- string_app_assoc, stripTrailingSlashes_api in Hx.
    change "/api/" with ("/api" +:+ "/") in Hx.
    rewrite <- string_app_assoc, stripTrailingSlashes_slash in Hx.
    rewrite stripTrailingSlashes_api in Hx.
    apply (f_equal String.length) in Hx.
    rewrite !string_length_app in Hx, Hlen. simpl in Hx, Hlen. lia. }
  split_and!.
  - unfold Ws.url. rewrite Hnone.
    rewrite <- (string_app_assoc "http" host "/api"), dropSuffix_app.
    cbn [default from_option id]. by rewrite dropPrefix_app.
  - unfold Ws.url.
    rewrite <- (string_app_assoc "http" host "/api/"), dropSuffix_app.
    by rewrite dropPrefix_app.
  - unfold apiBase.
    rewrite <- (string_app_assoc "http" host "/api"), stripTrailingSlashes_api.
    by rewrite endsWith_app.
  - unfold apiBase. change "/api/" with ("/api" +:+ "/").
    rewrite <- (string_app_assoc host "/api" "/").
    rewrite <- (string_app_assoc "http" (host +:+ "/api") "/").
    rewrite stripTrailingSlashes_slash.
    rewrite <- (string_app_assoc "http" host "/api"), stripTrailingSlashes_api.
    by rewrite endsWith_app.
Qed.


(** ** The polling tick, further *)

Lemma dueOf_reports sid c last l inv :
  inv ∈ dueOf sid c last l →
  ∃ new o, inv = (sid, c, entity_id new, Some new, o)
           ∧ new ∈ l
           ∧ match o with
             | None => True
             | Some old => Rest.stateChanged old new = true
             end.
Proof.
  revert last. induction l as [|s l IH]; intros last; simpl.
  - by intros ?%elem_of_nil.
  - intros [Hin|Hin]%elem_of_app.
    + destruct (last !! entity_id s) as [old|] eqn:Hold.
      * destruct (Rest.stateChanged old s) eqn:Hch;
          [|by apply elem_of_nil in Hin].
        apply list_elem_of_singleton in Hin as ->.
        exists s, (Some old). split_and!; [done | by left | done].
      * apply list_elem_of_singleton in Hin as ->.
        exists s, None. split_and!; [done | by left | done].
    + destruct (IH _ Hin) as (new & o & -> & Hnew & Ho).
      exists new, o. split_and!; [done | by right | done].
Qed.

Lemma relevantStates_nil sub : Rest.relevantStates sub [] = [].
Proof. unfold Rest.relevantStates. by case_bool_decide. Qed.

Lemma pollDue_nil subs : pollDue subs [] = [].
Proof.
  unfold pollDue. induction subs as [|[k sub] subs IH]; [done|].
  cbn [flat_map]. by rewrite IH, relevantStates_nil.
Qed.

Lemma polledSubs_nil subs : polledSubs subs [] = subs.
Proof.
  unfold polledSubs. induction subs as [|[k sub] subs IH]; [done|].
  rewrite fmap_cons, IH, relevantStates_nil. by destruct sub.
Qed.

Lemma polledSubs_keys subs states :
  JsMap.keys (polledSubs subs states) = JsMap.keys subs.
Proof.
  unfold polledSubs, JsMap.keys. rewrite <- list_fmap_compose.
  by apply list_fmap_ext.
Qed.

Section poll_more.
Context {W : Type}.
Variable cb :
  nat → string → option HassState → option HassState → W → W * Outcome.

(** The tick in terms of the records it works on. *)
Lemma tick_unfold st net w :
  JsMap.size (Rest.subscriptions st) ≠ 0 →
  ∃ log states,
    Rest.fetchStates
      (Rest.collectEntityIds (JsMap.values (Rest.subscriptions st)) ∅) net
    = (log, Ok states)
    ∧ (∀ e, e ∈ log → ∃ l m d, e = Log l m d)
    ∧ Rest.pollStates cb st net w
      = (Rest.set_subscriptions (polledSubs (Rest.subscriptions st) states) st,
         (deliver cb "RestReadTransport: Subscription callback error"
            (pollDue (Rest.subscriptions st) states) w).1,
         (log ++ (deliver cb "RestReadTransport: Subscription callback error"
                    (pollDue (Rest.subscriptions st) states) w).2, Ok ())).
Proof.
  intros Hsize.
  destruct (rest_fetchStates_total
              (Rest.collectEntityIds (JsMap.values (Rest.subscriptions st)) ∅)
              net) as (log & states & Hfetch).
  pose proof (rest_fetchStates_logs
    (Rest.collectEntityIds (JsMap.values (Rest.subscriptions st)) ∅) net)
    as Hlog.
  rewrite Hfetch in Hlog. cbn [fst] in Hlog.
  exists log, states. split_and!; [done | done |].
  unfold Rest.pollStates. rewrite bool_decide_eq_false_2 by done.
  rewrite Hfetch, rest_pollSubscriptions_deliver. done.
Qed.

(** X3. A poll tick never tells a subscriber about a record that did not
    change: every invocation it makes is made for a subscription of the
    transport, with the id and callback of that subscription, carries a new
    record under that record's entity id, and carries as previous record
    either nothing or a record that differs from the new one in value or in
    [last_updated]. *)
Theorem poll_never_reports_unchanged (st : Rest.State)
    (net : Fetched (list HassState)) (w : W) :
  Forall (reportsChange (Rest.subscriptions st))
    (invocations (Rest.tick cb st net w).2).
Proof.
  unfold Rest.tick.
  destruct (decide (JsMap.size (Rest.subscriptions st) = 0)) as [Hz|Hnz].
  { unfold Rest.pollStates. rewrite bool_decide_eq_true_2 by done.
    constructor. }
  destruct (tick_unfold st net w Hnz) as (log & states & _ & Hlog & ->).
  cbv beta iota zeta. cbn [fst snd].
  rewrite app_nil_r, invocations_app, (invocations_logs log Hlog).
  rewrite deliver_invocations. cbn [app].
  apply Forall_forall. intros inv Hin. unfold pollDue in Hin.
  apply list_elem_of_In, in_flat_map in Hin as ([k sub] & Hsub & Hin).
  apply list_elem_of_In in Hsub, Hin. cbn [snd] in Hin.
  destruct (dueOf_reports _ _ _ _ _ Hin) as (new & o & -> & _ & Ho).
  split; [by exists k, sub|]. by exists new.
Qed.


(** X5. A tick whose fetch fails (rejected promise, failure status, or a body
    that does not parse) is silent: the transport and its subscriptions are
    left exactly as they were, no callback is invoked, and nothing is
    remembered; the failure shows only in the error log of [getAllStates]. *)
Theorem poll_fetch_failure_is_silent (st : Rest.State)
    (net : Fetched (list HassState)) (w : W) :
  fetchFailed net = true →
  let t := Rest.tick cb st net w in
  t.1.1 = st ∧ t.1.2 = w
  ∧ invocations t.2 = []
  ∧ (JsMap.size (Rest.subscriptions st) ≠ 0 →
     ∃ d, t.2 = [Log Error "RestReadTransport: Failed to get all states" d]).
Proof.
  intros Hfail t. subst t.
  assert (∃ d, Rest.getAllStates net
               = ([Log Error "RestReadTransport: Failed to get all states" d],
                  Ok [])) as [d Hall].
  { unfold Rest.getAllStates, try_catch, await, mbind, comp_bind, emit.
    destruct net as [res|err]; [|by eexists].
    simpl in Hfail. destruct (ok res); simpl in *.
    - destruct (json res); [done | by eexists].
    - destruct (text res); by eexists. }
  assert (∀ ids, Rest.fetchStates ids net
                 = ([Log Error "RestReadTransport: Failed to get all states" d],
                    Ok [])) as Hfetch.
  { intros ids. unfold Rest.fetchStates. case_bool_decide; [done|].
    unfold Rest.getStates, mbind, comp_bind, mret, comp_ret.
    by rewrite Hall. }
  unfold Rest.tick.
  destruct (decide (JsMap.size (Rest.subscriptions st) = 0)) as [Hz|Hnz].
  { unfold Rest.pollStates. rewrite bool_decide_eq_true_2 by done. done. }
  destruct (tick_unfold st net w Hnz) as (log & states & Hf & _ & ->).
  rewrite Hfetch in Hf. injection Hf as <- <-.
  cbv beta iota zeta. cbn [fst snd].
  rewrite polledSubs_nil, pollDue_nil. cbn [deliver fst snd app].
  split_and!; [by destruct st | done | done |]. intros _. by exists d.
Qed.
End poll_more.

(** The tick of [polled] when the network is down. *)
Lemma poll_fetch_failure_witness :
  let t := Rest.tick quiet polled (Throw "fetch failed") () in
  t.1.1 = polled ∧ invocations t.2 = [].
Proof.
  pose proof (poll_fetch_failure_is_silent quiet polled (Throw "fetch failed")
                () eq_refl) as (H1 & _ & H2 & _).
  split; [exact H1 | exact H2].
Defined.

(** ** The life of the polling timer *)

Lemma jsmap_set_nonempty {K V} `{EqDecision K} (m : JsMap.t K V) k v :
  JsMap.set k v m ≠ [].
Proof. destruct m as [|[k' v'] m]; simpl; [done|]. by destruct (decide _). Qed.

Lemma jsmap_delete_subset {K V} `{EqDecision K} (m : JsMap.t K V) k p :
  p ∈ JsMap.delete k m → p ∈ m.
Proof.
  induction m as [|[k' v'] m IH]; simpl; [done|].
  destruct (decide (k = k')); [by right|].
  intros [->|Hin]%elem_of_cons; [by left|]. right. by apply IH.
Qed.

Lemma jsmap_delete_NoDup {K V} `{EqDecision K} (m : JsMap.t K V) k :
  NoDup (JsMap.keys m) → NoDup (JsMap.keys (JsMap.delete k m)).
Proof.
  unfold JsMap.keys. induction m as [|[k' v'] m IH]; simpl; [done|].
  rewrite NoDup_cons. intros [Hk Hnd].
  destruct (decide (k = k')); [done|]. csimpl. apply NoDup_cons.
  split; [|by apply IH].
  intros (p & -> & Hin)%list_elem_of_fmap. apply Hk.
  apply list_elem_of_fmap. exists p. split; [done|].
  by apply jsmap_delete_subset in Hin.
Qed.

(** What every state of a polling transport satisfies: the interval timer is
    armed exactly while there are subscriptions, and the subscription map is
    well formed. *)
Lemma rest_wf_unsubscribe subscriptionId st :
  rest_wf st → rest_wf (Rest.unsubscribe subscriptionId st).
Proof.
  intros [Hnd Hwf].
  assert (rest_wf (Rest.set_subscriptions
                     (JsMap.delete subscriptionId (Rest.subscriptions st)) st))
    as Hwf'.
  { split; simpl; [by apply jsmap_delete_NoDup|].
    intros k sub Hin%jsmap_delete_subset. by apply Hwf. }
  unfold Rest.unsubscribe. case_bool_decide; [|done].
  unfold Rest.stopPolling. by destruct (Rest.pollingTimer _).
Qed.

Section timer.
Context {W : Type}.
Variable cb :
  nat → string → option HassState → option HassState → W → W * Outcome.

Lemma tick_timer st net w :
  Rest.pollingTimer (Rest.tick cb st net w).1.1 = Rest.pollingTimer st
  ∧ (Rest.subscriptions (Rest.tick cb st net w).1.1 = []
     ↔ Rest.subscriptions st = []).
Proof.
  unfold Rest.tick.
  destruct (decide (JsMap.size (Rest.subscriptions st) = 0)) as [Hz|Hnz].
  { unfold Rest.pollStates. by rewrite bool_decide_eq_true_2 by done. }
  destruct (tick_unfold cb st net w Hnz) as (log & states & _ & _ & ->).
  cbv beta iota zeta. cbn [fst snd]. split; [done|]. simpl.
  unfold polledSubs. by destruct (Rest.subscriptions st).
Qed.

Lemma apply_timer op st w :
  (Rest.pollingTimer st = true ↔ Rest.subscriptions st ≠ []) →
  rest_wf st →
  (Rest.pollingTimer (Rest.apply cb op st w).1.1 = true
   ↔ Rest.subscriptions (Rest.apply cb op st w).1.1 ≠ [])
  ∧ rest_wf (Rest.apply cb op st w).1.1.
Proof.
  intros Htimer Hwf.
  destruct op as [subscriptionId ids callbackRef|subscriptionId| |net];
    cbn [Rest.apply fst snd].
  - split; [|by apply rest_wf_subscribe]. simpl.
    split; [intros _; apply jsmap_set_nonempty | done].
  - split; [|by apply rest_wf_unsubscribe].
    unfold Rest.unsubscribe. case_bool_decide as Hsz.
    + unfold Rest.stopPolling. cbn [Rest.pollingTimer Rest.set_subscriptions].
      destruct (JsMap.delete subscriptionId (Rest.subscriptions st)) eqn:Hd;
        [|done].
      destruct (Rest.pollingTimer st) eqn:Hp; simpl; rewrite ?Hp;
        (split; [done | by intros Hne]).
    + simpl in *.
      assert (JsMap.delete subscriptionId (Rest.subscriptions st) ≠ []) as Hne.
      { intros Hd. by rewrite Hd in Hsz. }
      split; [done|]. intros _. apply Htimer.
      intros Hnil. by rewrite Hnil in Hne.
  - split.
    + unfold Rest.unsubscribeAll, Rest.stopPolling. simpl.
      destruct (Rest.pollingTimer st) eqn:Hp; simpl; rewrite ?Hp;
        (split; [done | by intros Hne]).
    + unfold Rest.unsubscribeAll, Rest.stopPolling. simpl.
      destruct (Rest.pollingTimer st);
        (split; simpl; [apply NoDup_nil_2 | by intros ? ? ?%elem_of_nil]).
  - destruct (tick_timer st net w) as [Ht Hs].
    split; [|by apply rest_wf_tick]. rewrite Ht, Hs. done.
Qed.

(** X6. Whatever a client does with a polling transport (subscribing,
    unsubscribing, dropping all subscriptions) and whenever its timer fires,
    the interval timer is armed exactly while there is at least one
    subscription, and the subscription map stays well formed: distinct keys,
    every subscription under its own id, and nothing remembered of an entity
    outside its filter. *)
Theorem polling_runs_iff_subscribed (ops : list Rest.Op) (w : W) :
  let st := (Rest.run cb ops Rest.init w).1.1 in
  (Rest.pollingTimer st = true ↔ Rest.subscriptions st ≠ [])
  ∧ rest_wf st.
Proof.
  cbv zeta.
  assert (∀ st w,
            (Rest.pollingTimer st = true ↔ Rest.subscriptions st ≠ []) →
            rest_wf st →
            (Rest.pollingTimer (Rest.run cb ops st w).1.1 = true
             ↔ Rest.subscriptions (Rest.run cb ops st w).1.1 ≠ [])
            ∧ rest_wf (Rest.run cb ops st w).1.1) as Hrun.
  { induction ops as [|op ops IH]; intros st w0 Htimer Hwf; [done|].
    cbn [Rest.run].
    destruct (apply_timer op st w0 Htimer Hwf) as [Ht1 Hwf1].
    destruct (Rest.apply cb op st w0) as [[st1 w1] e1]. cbn [fst snd] in *.
    specialize (IH st1 w1 Ht1 Hwf1).
    by destruct (Rest.run cb ops st1 w1) as [[st2 w2] e2]. }
  apply Hrun; [done | apply rest_wf_init].
Qed.
End timer.

(** ** The streaming transport, further *)

Lemma jsmap_get_delete {K V} `{EqDecision K} (m : JsMap.t K V) k :
  NoDup (JsMap.keys m) → JsMap.get k (JsMap.delete k m) = None.
Proof.
  unfold JsMap.keys. induction m as [|[k' v'] m IH]; simpl; [done|].
  rewrite NoDup_cons. intros [Hk Hnd].
  destruct (decide (k = k')) as [->|Hne]; simpl.
  - apply get_None_keys. done.
  - destruct (decide (k = k')); [done|]. by apply IH.
Qed.

Section ws_more.
Context {W : Type}.
Variable cb :
  nat → string → option HassState → option HassState → W → W * Outcome.


(** X8. A request that times out is failed once and forgotten: its caller is
    rejected with the time-out error, its entry leaves the pending table,
    and neither the answer that arrives too late nor a second firing of the
    timer has any effect. *)
Theorem timed_out_request_is_forgotten (s : Ws.State) (i : N) (q : Ws.Query)
    (tag : nat) (w : W) :
  NoDup (JsMap.keys (Ws.pending s)) →
  JsMap.get i (Ws.pending s) = Some (Ws.CallerQuery q tag) →
  let r := Ws.step cb (Ws.RequestTimeout i) s w in
  r.2 = [PendingRejected i Ws.timedOutErr;
         QuerySettled tag (Throw Ws.timedOutErr)]
  ∧ JsMap.get i (Ws.pending r.1.1) = None
  ∧ Ws.step cb (Ws.RequestTimeout i) r.1.1 r.1.2 = (r.1.1, r.1.2, [])
  ∧ ∀ c response,
      is_Some (Ws.attempts s !! c) →
      Ws.m_type response = "result" → Ws.m_id response = Some i →
      Ws.m_event response = None →
      Ws.step cb (Ws.SockMessage c (Some response)) r.1.1 r.1.2
      = (r.1.1, r.1.2, []).
Proof.
  intros Hnd Hget r.
  assert (r = (Ws.set_pending (JsMap.delete i (Ws.pending s)) s, w,
               [PendingRejected i Ws.timedOutErr;
                QuerySettled tag (Throw Ws.timedOutErr)])) as ->.
  { subst r. unfold Ws.step, Ws.handle. by rewrite Hget. }
  cbn [fst snd].
  assert (JsMap.get i (Ws.pending
            (Ws.set_pending (JsMap.delete i (Ws.pending s)) s)) = None) as Hgone.
  { cbn [Ws.pending Ws.set_pending]. by apply jsmap_get_delete. }
  split_and!; [done | done | |].
  - unfold Ws.step, Ws.handle. by rewrite Hgone.
  - intros c response Hc Htype Hid Hevent.
    unfold Ws.step, Ws.handle.
    rewrite bool_decide_eq_true_2 by done.
    unfold Ws.onMessage, Ws.pendingFor. rewrite Htype, Hid, Hgone, Hevent.
    done.
Qed.

(** X9. While the upstream subscription is not acknowledged, every new
    subscription sends the subscribe command again: on a ready transport
    whose upstream-subscribed flag is down, [subscribeToStateChanges] sends
    [subscribe_events] under the next id, and the flag stays down until the
    result arrives, so a second subscription made meanwhile sends it once
    more, under the id after. *)
Theorem subscribe_before_ack_sends_again (s : Ws.State) (c : nat)
    (sid sid' : string) (ids ids' : list string) (k k' : nat) (w : W) :
  Ws.stateSubscriptionActive s = false →
  Ws.readyPromise s = Ws.Fulfilled →
  Ws.openSocket s = Some c →
  let r := Ws.step cb (Ws.ApiSubscribe sid ids k) s w in
  let r' := Ws.step cb (Ws.ApiSubscribe sid' ids' k') r.1.1 r.1.2 in
  r.2 = [SocketSend c (Some (Ws.nextId s)) Ws.subscribeCmd;
         TimerSet "request" (Ws.nextId s)]
  ∧ Ws.stateSubscriptionActive r.1.1 = false
  ∧ r'.2 = [SocketSend c (Some (Ws.incr (Ws.nextId s))) Ws.subscribeCmd;
            TimerSet "request" (Ws.incr (Ws.nextId s))]
  ∧ Ws.stateSubscriptionActive r'.1.1 = false.
Proof.
  intros Hactive Hready Hopen r r'.
  assert (∀ s0 sid0 ids0 k0 w0,
            Ws.stateSubscriptionActive s0 = false →
            Ws.readyPromise s0 = Ws.Fulfilled →
            Ws.openSocket s0 = Some c →
            let r0 := Ws.step cb (Ws.ApiSubscribe sid0 ids0 k0) s0 w0 in
            r0.2 = [SocketSend c (Some (Ws.nextId s0)) Ws.subscribeCmd;
                    TimerSet "request" (Ws.nextId s0)]
            ∧ Ws.stateSubscriptionActive r0.1.1 = false
            ∧ Ws.readyPromise r0.1.1 = Ws.Fulfilled
            ∧ Ws.openSocket r0.1.1 = Some c
            ∧ Ws.nextId r0.1.1 = Ws.incr (Ws.nextId s0)) as Hone.
  { clear. intros s0 sid0 ids0 k0 w0 Hactive Hready Hopen r0. subst r0.
    unfold Ws.step, Ws.handle, Ws.subscribeToStateChanges,
      Ws.activateStateSubscription.
    set (s1 := Ws.set_subscriptions _ s0).
    assert (Ws.stateSubscriptionActive s1 = false) as Ha1 by exact Hactive.
    assert (Ws.readyPromise s1 = Ws.Fulfilled) as Hr1 by exact Hready.
    rewrite Ha1. cbn [negb]. rewrite Hr1. unfold Ws.drain.
    cbn [Ws.run_jobs Ws.run_job]. unfold Ws.call. rewrite Hr1.
    cbn [Ws.run_jobs Ws.run_job app]. unfold Ws.issue, Ws.sendRaw.
    set (s2 := Ws.set_pending _ _).
    assert (Ws.openSocket s2 = Some c) as Ho2 by exact Hopen.
    rewrite Ho2. cbn [fst snd app].
    split_and!; done. }
  destruct (Hone s sid ids k w Hactive Hready Hopen)
    as (He & Ha & Hr & Ho & Hn).
  fold r in He, Ha, Hr, Ho, Hn.
  destruct (Hone r.1.1 sid' ids' k' r.1.2 Ha Hr Ho) as (He' & Ha' & _).
  fold r' in He', Ha'. rewrite Hn in He'. done.
Qed.

(** X10. [disconnect()] does not stop the transport: it closes the socket and
    forgets it, but the close event of that socket still reaches the close
    handler, which arms the reconnect timer like after any other close, and
    the timer opens a new socket. *)
Theorem disconnect_is_undone_by_close (s : Ws.State) (c : nat) (w : W) :
  Ws.socket s = Some c →
  is_Some (Ws.attempts s !! c) →
  let d := Ws.disconnect s in
  let r := Ws.step cb (Ws.SockClose c) d.1 w in
  let r' := Ws.step cb (Ws.ReconnectTimer (Ws.nextTimer s)) r.1.1 r.1.2 in
  Ws.socket d.1 = None
  ∧ Ws.reconnectTimeout d.1 = None
  ∧ SocketClose c ∈ d.2
  ∧ Ws.reconnectTimeout r.1.1 = Some (Ws.nextTimer s)
  ∧ TimerSet "reconnect" (N.of_nat (Ws.nextTimer s)) ∈ r.2
  ∧ r'.2 = [SocketNew (Ws.nextSocket s) "/api/websocket";
            TimerSet "connect" (N.of_nat (Ws.nextSocket s))]
  ∧ Ws.socket r'.1.1 = Some (Ws.nextSocket s).
Proof.
  intros Hs [a Ha] d r r'.
  destruct (disconnect_fields s) as (Hk & Ht & _).
  assert (is_Some (Ws.attempts d.1 !! c) ∧ Ws.nextTimer d.1 = Ws.nextTimer s
          ∧ Ws.nextSocket d.1 = Ws.nextSocket s ∧ SocketClose c ∈ d.2)
    as (Hc & Hnt & Hns & Hclose).
  { subst d. unfold Ws.disconnect, Ws.closeSocket, Ws.set_readyState.
    destruct (Ws.reconnectTimeout s) as [t|]; simpl; rewrite Hs, Ha; simpl;
      rewrite lookup_insert_eq;
      (split_and!; [by eexists | done | done |]).
    - apply list_elem_of_further, list_elem_of_here.
    - apply list_elem_of_here. }
  destruct (step_close_fields cb d.1 c w Hc)
    as (_ & Hr & Htm & Hsock & _ & _ & _ & _ & _ & _ & _ & Hset).
  fold r in Hr, Htm, Hsock, Hset. rewrite Hnt in Hr, Htm, Hset.
  assert (Ws.nextTimer s ∈ Ws.timers r.1.1) as Harmed.
  { rewrite Htm. apply elem_of_union. right. by apply elem_of_singleton. }
  destruct (step_reconnect_fields cb r.1.1 (Ws.nextTimer s) r.1.2 Harmed)
    as (_ & He & Hk' & _).
  fold r' in He, Hk'. rewrite Hsock, Hns in He, Hk'.
  split_and!; done.
Qed.
End ws_more.


Lemma querying_NoDup : NoDup (JsMap.keys (Ws.pending querying)).
Proof. apply (bool_decide_unpack (NoDup (JsMap.keys (Ws.pending querying)))). vm_compute. exact I. Qed.

(** The first query of [querying] times out. *)
Lemma timed_out_request_witness :
  (Ws.step quiet (Ws.RequestTimeout 1) querying ()).2
  = [PendingRejected 1 "WS request timed out";
     QuerySettled 7 (Throw "WS request timed out")].
Proof.
  exact (proj1 (timed_out_request_is_forgotten quiet querying 1 Ws.QAllStates
                  7 () querying_NoDup eq_refl)).
Defined.

(** Two subscriptions made on [connected] one after the other. *)
Lemma subscribe_before_ack_witness :
  let r := Ws.step quiet (Ws.ApiSubscribe "sub-1" ["sensor.abc_target_1_x"] 1)
             connected () in
  (Ws.step quiet (Ws.ApiSubscribe "sub-2" [] 2) r.1.1 r.1.2).2
  = [SocketSend 0 (Some 2%N) Ws.subscribeCmd; TimerSet "request" 2].
Proof.
  pose proof (subscribe_before_ack_sends_again quiet connected 0 "sub-1"
                "sub-2" ["sensor.abc_target_1_x"] [] 1 2 () eq_refl eq_refl
                eq_refl) as (_ & _ & H & _).
  exact H.
Defined.

(** [disconnect()] on [connected], then the close event of its socket. *)
Lemma disconnect_undone_witness :
  let d := Ws.disconnect connected in
  let r := Ws.step quiet (Ws.SockClose 0) d.1 () in
  Ws.socket d.1 = None ∧ Ws.reconnectTimeout r.1.1 = Some 0.
Proof.
  pose proof (disconnect_is_undone_by_close quiet connected 0 () eq_refl
                (ex_intro _ _ eq_refl)) as (H1 & _ & _ & H2 & _).
  split; [exact H1 | exact H2].
Defined.

Section ids.
Context {W : Type}.
Variable cb :
  nat → string → option HassState → option HassState → W → W * Outcome.










End ids.

Section selector.
Context {W : Type}.
Variable cb :
  nat → string → option HassState → option HassState → W → W * Outcome.

(** The REST fallback only writes to the log. *)
Lemma restFallback_logs restNet e :
  e ∈ (Factory.restFallback restNet).1 → ∃ l m d, e = Log l m d.
Proof.
  unfold Factory.restFallback, Rest.connect, try_catch, await, emit, throw,
    mbind, comp_bind, mret, comp_ret.
  destruct restNet as [res|err]; simpl.
  - destruct (ok res); simpl; [by intros ?%elem_of_nil|].
    destruct (text res); simpl;
      intros [->|[->|?%elem_of_nil]%elem_of_cons]%elem_of_cons; by eauto.
  - intros [->|[->|?%elem_of_nil]%elem_of_cons]%elem_of_cons; by eauto.
Qed.

Lemma restFallback_exits restNet :
  exits (Factory.restFallback restNet).1 = false.
Proof.
  apply not_true_is_false. intros [err Hin]%exits_elem_of.
  by apply restFallback_logs in Hin as (l & m & d & ?).
Qed.

Lemma restFallback_throw restNet err :
  (Factory.restFallback restNet).2 = Throw err →
  err = "Failed to connect to Home Assistant via WebSocket or REST".
Proof.
  unfold Factory.restFallback.
  destruct (Rest.connect Rest.init restNet) as [l [rs|e]]; simpl; congruence.
Qed.

(** The race is left unsettled only by a turn that ends the process. *)
Lemma raceConnect_unsettled turns s w :
  (Factory.raceConnect cb turns s w).2 = Factory.Unsettled →
  exits (Factory.raceConnect cb turns s w).1.2 = true.
Proof.
  revert s w. induction turns as [|evs turns IH]; intros s w; simpl; [done|].
  destruct (Ws.turn cb evs s w) as [[s1 w1] e1].
  destruct (Ws.attempts s1 !! 0 ≫= Ws.settled) as [[u|err]|]; [done..|].
  destruct (exits e1) eqn:He; [done|].
  specialize (IH s1 w1).
  destruct (Factory.raceConnect cb turns s1 w1) as [[[s2 w2] e2] r].
  simpl in *. intros Hr. by rewrite exits_app, He, (IH Hr).
Qed.

(** X12. With streaming not preferred, or with [FORCE_REST_TRANSPORT=true],
    the selector never touches the streaming transport: it creates no
    socket, leaves the subscribers' state alone, and its result is that of
    the REST fallback, whatever the probe and the sockets would have done:
    the polling transport when the health check answers with a success
    status, and the combined connection error otherwise. *)
Theorem selector_rest_only (options : Factory.Options) (forceRest : bool)
    (tok : string) (turns : list (list Ws.Event))
    (probe restNet : Fetched unit) (w : W) :
  Factory.preferWebSocket options && negb forceRest = false →
  let r := Factory.createReadTransport cb options forceRest tok turns probe
             restNet w in
  r.1.1.1 = None ∧ r.1.1.2 = w
  ∧ (∀ e, e ∈ r.1.2 → ∃ l m d, e = Log l m d)
  ∧ r.2 = Factory.Settled (Factory.restFallback restNet).2
  ∧ (∀ res, restNet = Ok res → ok res = true →
       r.1.2 = []
       ∧ r.2 = Factory.Settled
                 (Ok {| Factory.transport :=
                          Factory.RestTransport
                            {| Rest.subscriptions := [];
                               Rest.pollingTimer := false;
                               Rest.isConnected := true |};
                        Factory.activeTransport := "rest";
                        Factory.wsAvailable := false;
                        Factory.restAvailable := true |}))
  ∧ ((∀ res, restNet = Ok res → ok res = false) →
       r.2 = Factory.Settled
               (Throw "Failed to connect to Home Assistant via WebSocket or REST")).
Proof.
  intros Hpref r. subst r. unfold Factory.createReadTransport.
  rewrite Hpref.
  pose proof (restFallback_logs restNet) as Hlogs.
  pose proof (restFallback_ok restNet) as Hok.
  pose proof (restFallback_fail restNet) as Hfail.
  destruct (Factory.restFallback restNet) as [e3 r] eqn:Hf. simpl in *.
  split_and!; try done.
  - intros res -> Hres. split; [|by rewrite (Hok res eq_refl Hres)].
    unfold Factory.restFallback in Hf.
    rewrite (rest_connect_ok Rest.init res Hres) in Hf. by simplify_eq.
  - intros Hnet. by rewrite (Hfail Hnet).
Qed.

(** X13. How the selector can end.  The process ends under it exactly when
    its trace holds an unhandled rejection, and only with streaming
    preferred.  When it returns a transport, that is either the streaming
    transport, reported as [websocket] with [wsAvailable] and with
    [restAvailable] as the probe found it, or a connected polling transport,
    reported as [rest] with [wsAvailable] false and [restAvailable] true.
    When it throws, the error is the combined connection error. *)
Theorem selector_outcome (options : Factory.Options) (forceRest : bool)
    (tok : string) (turns : list (list Ws.Event))
    (probe restNet : Fetched unit) (w : W) :
  let r := Factory.createReadTransport cb options forceRest tok turns probe
             restNet w in
  (r.2 = Factory.ProcessEnded ↔ exits r.1.2 = true)
  ∧ match r.2 with
    | Factory.Settled (Ok created) =>
        (Factory.activeTransport created = "websocket"
         ∧ Factory.wsAvailable created = true
         ∧ Factory.restAvailable created = Factory.testRestConnection probe
         ∧ (∃ s, Factory.transport created = Factory.WsTransport s)
         ∧ Factory.preferWebSocket options = true ∧ forceRest = false
         ∧ r.1.1.1 = None)
        ∨ (Factory.activeTransport created = "rest"
           ∧ Factory.wsAvailable created = false
           ∧ Factory.restAvailable created = true
           ∧ ∃ rs, Factory.transport created = Factory.RestTransport rs
                   ∧ Rest.isConnected rs = true)
    | Factory.Settled (Throw err) =>
        err = "Failed to connect to Home Assistant via WebSocket or REST"
    | Factory.ProcessEnded =>
        Factory.preferWebSocket options = true ∧ forceRest = false
    end.
Proof.
  intros r. subst r. unfold Factory.createReadTransport.
  pose proof (restFallback_exits restNet) as Hx.
  pose proof (restFallback_created restNet) as Hcr.
  pose proof (restFallback_throw restNet) as Hth.
  destruct (Factory.restFallback restNet) as [e3 r3]. simpl in Hx, Hcr, Hth.
  destruct (Factory.preferWebSocket options && negb forceRest) eqn:Hpref.
  - apply andb_true_iff in Hpref as [Hp Hf%negb_true_iff].
    cbn [Ws.connect].
    pose proof (raceConnect_unsettled turns
                  (Ws.connect false (Ws.init tok)).1 w) as Hun.
    cbn [Ws.connect fst] in Hun.
    destruct (Factory.raceConnect cb turns _ w) as [[[ws1 w1] e1] race].
    cbn [fst snd] in Hun.
    pose proof (disconnect_exits ws1) as Hd.
    destruct (Ws.disconnect ws1) as [ws2 e2]. cbn [snd] in Hd.
    destruct race as [|err| |]; cbn [fst snd].
    + destruct (exits e1) eqn:He; cbn [fst snd].
      * split; [|done]. rewrite exits_app, He. by rewrite orb_true_r.
      * split; [|left; split_and!; try done; by eexists].
        rewrite exits_app, He. done.
    + destruct (exits e1) eqn:He; cbn [fst snd].
      * split; [|done]. rewrite !exits_app, He. by rewrite orb_true_r.
      * split.
        -- rewrite !exits_app, He, (exits_cons (Log _ _ _)), exits_app, Hd, Hx.
           done.
        -- destruct r3 as [created|err']; [right; by apply Hcr | by apply Hth].
    + destruct (exits e1) eqn:He; cbn [fst snd].
      * split; [|done]. rewrite !exits_app, He. by rewrite orb_true_r.
      * split.
        -- rewrite !exits_app, He, (exits_cons (Log _ _ _)), exits_app, Hd, Hx.
           done.
        -- destruct r3 as [created|err']; [right; by apply Hcr | by apply Hth].
    + split; [|done]. rewrite exits_app, (Hun eq_refl). by rewrite orb_true_r.
  - cbn [fst snd]. rewrite Hx. split; [done|].
    destruct r3 as [created|err']; [right; by apply Hcr | by apply Hth].
Qed.
End selector.

(** The selector with [FORCE_REST_TRANSPORT=true] and a REST API that
    answers. *)
Lemma selector_rest_only_witness :
  let r := Factory.createReadTransport quiet Factory.defaults true "token"
             refused (answers ()) (answers ()) () in
  r.1.1.1 = None ∧ r.1.2 = [].
Proof.
  pose proof (selector_rest_only quiet Factory.defaults true "token" refused
                (answers ()) (answers ()) () eq_refl) as (H1 & _ & _ & _ & H2 & _).
  destruct (H2 _ eq_refl eq_refl) as [H3 _].
  split; [exact H1 | exact H3].
Defined.

(** ** The fan-out server, further *)

Lemma foldl_preserves {A B} (P : A → Prop) (f : A → B → A) (l : list B) a :
  (∀ a b, P a → P (f a b)) → P a → P (foldl f a l).
Proof.
  intros Hf. revert a. induction l as [|b l IH]; intros a Ha; simpl; [done|].
  apply IH. by apply Hf.
Qed.

Lemma truthy_default o : LiveWs.truthy o = true → default "" o ≠ "".
Proof.
  destruct o as [s|]; simpl; [|done].
  intros H%negb_true_iff. by apply bool_decide_eq_false in H.
Qed.

Lemma add_keeps x ids :
  x ≠ "" → NoDup ids ∧ "" ∉ ids →
  NoDup (LiveWs.add x ids) ∧ "" ∉ LiveWs.add x ids.
Proof.
  intros Hx [Hnd Hne]. unfold LiveWs.add. case_bool_decide as Hin; [done|].
  split.
  - apply NoDup_app. split_and!; [done| |apply NoDup_singleton].
    intros y Hy ->%list_elem_of_singleton. done.
  - intros [?|Hx'%list_elem_of_singleton]%elem_of_app; [done|]. by subst.
Qed.

Section resolution_more.
Variable getEntityId : string → string → option string.
Variable getTargetEntities : string → nat → option (list (string * string)).
Variable replaceName : string → string → string.

(** X14. The interest filter of a session is a set of usable entity ids:
    whatever the profile, the mappings and the collaborators answer, the
    resolved ids are pairwise distinct and none of them is the empty
    string. *)
Theorem resolved_ids_distinct_nonempty (msg : LiveWs.SubscribeMsg)
    (profile : LiveWs.Profile) (deviceName : string)
    (parsedMappings : option LiveWs.Mappings) (hasDeviceMapping : bool) :
  let ids := LiveWs.resolveEntityIds getEntityId getTargetEntities replaceName
               msg profile deviceName parsedMappings hasDeviceMapping in
  NoDup ids ∧ "" ∉ ids.
Proof.
  set (P := λ ids : list string, NoDup ids ∧ "" ∉ ids).
  assert (∀ ids entry, P ids →
            P (LiveWs.addEntity getEntityId replaceName msg deviceName
                 parsedMappings hasDeviceMapping ids entry)) as Hent.
  { intros ids [k pattern] Hids. unfold LiveWs.addEntity.
    destruct (LiveWs.truthy (if LiveWs.truthy _ then _ else _)) eqn:Ht;
      [|done].
    apply add_keeps; [|done]. by apply truthy_default. }
  assert (∀ i ids prop, P ids →
            P (LiveWs.addTarget getTargetEntities msg deviceName
                 parsedMappings hasDeviceMapping i ids prop)) as Htgt.
  { intros i ids prop Hids. unfold LiveWs.addTarget.
    destruct (LiveWs.truthy (if LiveWs.truthy _ then _ else _)) eqn:Ht;
      [|done].
    apply add_keeps; [|done]. by apply truthy_default. }
  unfold LiveWs.resolveEntityIds. cbv zeta.
  apply (foldl_preserves P); [done|].
  apply (foldl_preserves P).
  { intros ids i Hids. apply (foldl_preserves P); [|done]. intros. by apply Htgt. }
  apply (foldl_preserves P); [done|].
  split; [constructor | by intros ?%elem_of_nil].
Qed.

End resolution_more.

Section subscribe_more.
Variable getProfileById : string → option LiveWs.Profile.
Variable hasMapping : string → bool.
Variable getEntityId : string → string → option string.
Variable getTargetEntities : string → nat → option (list (string * string)).
Variable replaceName : string → string → string.
Variable sendOutcome : nat → LiveMsg → Outcome.

(** X15. A subscribe request that fails a check of the handler (no device
    id, no profile id, an unknown profile, or no device name to be derived)
    registers nothing: the sessions are left as they were, the first thing
    the handler does is to send the client an error message, that is all it
    does when the send returns, and no other client is sent anything. *)
Theorem rejected_subscribe_registers_nothing
    (clients : JsMap.t nat LiveWs.ClientSubscription) (client : nat)
    (msg : LiveWs.SubscribeMsg) (stamp : N)
    (fetched : Result (JsMap.t string HassState)) :
  LiveWs.deviceId msg = "" ∨ LiveWs.profileId msg = ""
  ∨ getProfileById (LiveWs.profileId msg) = None
  ∨ LiveWs.deviceNameOf msg = "" →
  let r := LiveWs.onMessage getProfileById hasMapping getEntityId
             getTargetEntities replaceName sendOutcome clients client
             (LiveWs.Subscribe msg) stamp fetched in
  r.1 = clients
  ∧ (∃ text rest,
       r.2 = ClientSend client (MsgError text) :: rest
       ∧ text ∈ ["deviceId and profileId required"; "Profile not found";
                 "Could not determine entity name prefix"]
       ∧ (sendOutcome client (MsgError text) = Returned → rest = []))
  ∧ ∀ other, other ≠ client → sentTo other r.2 = [].
Proof.
  intros Hbad r. subst r. unfold LiveWs.onMessage, LiveWs.prepare.
  destruct (negb (LiveWs.truthy (Some (LiveWs.deviceId msg)))
            || negb (LiveWs.truthy (Some (LiveWs.profileId msg)))) eqn:Hids.
  { unfold LiveWs.send, mbind, comp_bind, mret, comp_ret.
    destruct (sendOutcome client _) as [|err] eqn:Hs; simpl.
    - split_and!; [done| |].
      + eexists _, _. split_and!; [reflexivity | set_solver | by rewrite Hs].
      + intros other Hne. unfold sentTo. simpl.
        by destruct (decide (client = other)).
    - split_and!; [done| |].
      + eexists _, _. split_and!; [reflexivity | set_solver | by rewrite Hs].
      + intros other Hne. unfold sentTo. simpl.
        by destruct (decide (client = other)). }
  apply orb_false_iff in Hids as [Hd%negb_false_iff Hp%negb_false_iff].
  destruct (getProfileById (LiveWs.profileId msg)) as [profile|] eqn:Hprof.
  2:{ unfold LiveWs.send, mbind, comp_bind, mret, comp_ret.
      destruct (sendOutcome client _) as [|err] eqn:Hs; simpl.
      - split_and!; [done| |].
        + eexists _, _. split_and!; [reflexivity | set_solver | by rewrite Hs].
        + intros other Hne. unfold sentTo. simpl.
          by destruct (decide (client = other)).
      - split_and!; [done| |].
        + eexists _, _. split_and!; [reflexivity | set_solver | by rewrite Hs].
        + intros other Hne. unfold sentTo. simpl.
          by destruct (decide (client = other)). }
  destruct (negb (LiveWs.truthy (Some (LiveWs.deviceNameOf msg)))) eqn:Hname.
  { unfold LiveWs.send, mbind, comp_bind, mret, comp_ret.
    destruct (sendOutcome client _) as [|err] eqn:Hs; simpl.
    - split_and!; [done| |].
      + eexists _, _. split_and!; [reflexivity | set_solver | by rewrite Hs].
      + intros other Hne. unfold sentTo. simpl.
        by destruct (decide (client = other)).
    - split_and!; [done| |].
      + eexists _, _. split_and!; [reflexivity | set_solver | by rewrite Hs].
      + intros other Hne. unfold sentTo. simpl.
        by destruct (decide (client = other)). }
  exfalso. apply negb_false_iff in Hname.
  simpl in Hd, Hp, Hname.
  apply negb_true_iff, bool_decide_eq_false in Hd, Hp, Hname.
  destruct Hbad as [?|[?|[?|?]]]; done.
Qed.

End subscribe_more.

Section fanout_more.
Variable getProfileById : string → option LiveWs.Profile.
Variable hasMapping : string → bool.
Variable getEntityId : string → string → option string.
Variable getTargetEntities : string → nat → option (list (string * string)).
Variable replaceName : string → string → string.
Variable readyState : nat → Ws.ReadyState.
Variable sendOutcome : nat → LiveMsg → Outcome.
Variable now : nat → N.

(** X16. Unsubscribing, like the close or an error of the socket, takes the
    session of that client out and no other: the client is sent nothing of
    the state changes that follow, every other client is sent what it would
    have been sent, and the sessions stay one per socket. *)
Theorem unsubscribed_client_gets_nothing
    (clients : JsMap.t nat LiveWs.ClientSubscription) (client other : nat)
    (entityId : string) (newState oldState : option HassState) (stamp : N)
    (fetched : Result (JsMap.t string HassState)) :
  NoDup (JsMap.keys clients) →
  let r := LiveWs.onMessage getProfileById hasMapping getEntityId
             getTargetEntities replaceName sendOutcome clients client
             LiveWs.Unsubscribe stamp fetched in
  r.1 = LiveWs.onClose clients client
  ∧ r.2 = []
  ∧ NoDup (JsMap.keys r.1)
  ∧ JsMap.get client r.1 = None
  ∧ sentTo client
      (LiveWs.onStateChange readyState sendOutcome now r.1 entityId newState
         oldState) = []
  ∧ (other ≠ client →
     JsMap.get other r.1 = JsMap.get other clients
     ∧ sentTo other
         (LiveWs.onStateChange readyState sendOutcome now r.1 entityId
            newState oldState)
       = sentTo other
           (LiveWs.onStateChange readyState sendOutcome now clients entityId
              newState oldState)).
Proof.
  intros Hnd r. subst r. unfold LiveWs.onMessage, LiveWs.onClose. cbn [fst snd].
  pose proof (jsmap_delete_NoDup clients client Hnd) as Hnd'.
  pose proof (jsmap_get_delete clients client Hnd) as Hgone.
  split_and!; try done.
  - unfold LiveWs.onStateChange. destruct newState as [ns|]; [|done].
    case_bool_decide; [done|]. apply sentTo_other. by apply get_None_keys.
  - intros Hne. pose proof (get_delete_ne clients other client Hne) as Hget.
    split; [done|].
    unfold LiveWs.onStateChange. destruct newState as [ns|]; [|done].
    case_bool_decide; [done|].
    destruct (JsMap.get other clients) as [session|] eqn:Ho.
    + rewrite (sentTo_session readyState sendOutcome now other session
                 entityId ns _ Hnd' Hget).
      by rewrite (sentTo_session readyState sendOutcome now other session
                    entityId ns _ Hnd Ho).
    + rewrite (sentTo_other readyState sendOutcome now other entityId ns
                 (JsMap.delete client clients))
        by by apply get_None_keys.
      by rewrite (sentTo_other readyState sendOutcome now other entityId ns
                    clients) by by apply get_None_keys.
Qed.
End fanout_more.

(** A subscribe request without a profile id, from client 2, while client 1
    has its session. *)
Lemma rejected_subscribe_witness :
  let r := LiveWs.onMessage profiles unmapped noEntity noTargets replaceFirst
             sends abcClients 2
             (LiveWs.Subscribe
                {| LiveWs.deviceId := "abc"; LiveWs.profileId := "";
                   LiveWs.entityNamePrefix := "";
                   LiveWs.entityMappings := None |})
             1700000000000 (Ok []) in
  r.1 = abcClients ∧ sentTo 1 r.2 = [].
Proof.
  pose proof (rejected_subscribe_registers_nothing profiles unmapped noEntity
                noTargets replaceFirst sends abcClients 2
                {| LiveWs.deviceId := "abc"; LiveWs.profileId := "";
                   LiveWs.entityNamePrefix := "";
                   LiveWs.entityMappings := None |}
                1700000000000 (Ok []) (or_intror (or_introl eq_refl)))
    as (H1 & _ & H2).
  split; [exact H1 | apply H2; discriminate].
Defined.

(** Client 1 of [abcClients] unsubscribes and a change of its entity
    follows. *)
Lemma unsubscribed_client_witness :
  let r := LiveWs.onMessage profiles unmapped noEntity noTargets replaceFirst
             sends abcClients 1 LiveWs.Unsubscribe 1700000000000 (Ok []) in
  r.1 = [] ∧
  sentTo 1
    (LiveWs.onStateChange allOpen sends clock r.1 "sensor.abc_target_1_x"
       (Some seen) None) = [].
Proof.
  pose proof (unsubscribed_client_gets_nothing profiles unmapped noEntity
                noTargets replaceFirst allOpen sends clock abcClients 1 2
                "sensor.abc_target_1_x" (Some seen) None 1700000000000
                (Ok []) abcClients_NoDup) as (_ & _ & _ & _ & H & _).
  split; [vm_compute; reflexivity | exact H].
Defined.

Section ws_unsubscribe.
Context {W : Type}.
Variable cb :
  nat → string → option HassState → option HassState → W → W * Outcome.

(** X17. [unsubscribeAll()] on the streaming transport drops the
    subscriptions and nothing else: it sends nothing upstream, the flag of
    the upstream subscription and the requests in flight stay as they are,
    and a [state_changed] event that arrives afterwards is read and
    dropped, with no callback invoked. *)
Theorem unsubscribe_all_keeps_upstream (s : Ws.State) (c : nat) (x : string)
    (o n : option HassState) (w : W) :
  is_Some (Ws.attempts s !! c) →
  let r := Ws.step cb Ws.ApiUnsubscribeAll s w in
  r.2 = [] ∧ r.1.2 = w
  ∧ Ws.subscriptions r.1.1 = []
  ∧ Ws.stateSubscriptionActive r.1.1 = Ws.stateSubscriptionActive s
  ∧ Ws.pending r.1.1 = Ws.pending s
  ∧ Ws.socket r.1.1 = Ws.socket s
  ∧ Ws.step cb (Ws.SockMessage c (Some (changeEvent x o n))) r.1.1 r.1.2
    = (r.1.1, w, []).
Proof.
  intros Hc r. subst r.
  assert (Ws.step cb Ws.ApiUnsubscribeAll s w = (Ws.unsubscribeAll s, w, []))
    as -> by reflexivity.
  cbn [fst snd]. split_and!; try done.
  rewrite step_change_event by done. reflexivity.
Qed.
End ws_unsubscribe.

(** [listening] drops its two subscriptions and an event follows. *)
Lemma unsubscribe_all_witness :
  let r := Ws.step quiet Ws.ApiUnsubscribeAll listening () in
  Ws.step quiet
    (Ws.SockMessage 0 (Some (changeEvent "sensor.abc_target_1_x" None (Some seen))))
    r.1.1 r.1.2
  = (r.1.1, (), []).
Proof.
  pose proof (unsubscribe_all_keeps_upstream quiet listening 0
                "sensor.abc_target_1_x" None (Some seen) () listening_socket)
    as (_ & _ & _ & _ & _ & _ & H).
  exact H.
Defined.

Lemma add_mono x y ids : x ∈ ids → x ∈ LiveWs.add y ids.
Proof.
  intros Hin. unfold LiveWs.add. case_bool_decide; [done|].
  apply elem_of_app. by left.
Qed.

Lemma add_here x ids : x ∈ LiveWs.add x ids.
Proof.
  unfold LiveWs.add. case_bool_decide; [done|].
  apply elem_of_app. right. by apply list_elem_of_singleton.
Qed.

Lemma foldl_reaches {A B} (P : A → Prop) (f : A → B → A) (l : list B) a b :
  (∀ a b, P a → P (f a b)) → b ∈ l → (∀ a, P (f a b)) → P (foldl f a l).
Proof.
  intros Hmono Hin Hb. revert a.
  induction l as [|b' l IH]; intros a; [by apply elem_of_nil in Hin|].
  simpl. apply elem_of_cons in Hin as [<-|Hin].
  - apply foldl_preserves; [done|]. apply Hb.
  - by apply IH.
Qed.

Section targets.
Variable getEntityId : string → string → option string.
Variable getTargetEntities : string → nat → option (list (string * string)).
Variable replaceName : string → string → string.

(** X18. A session always watches the target entities: for each of the
    targets 1 to 3 and each of the seven target properties, the id that the
    resolver gives for a device without device-level mappings (the stored
    tracking target when there is one, the id made of the device name
    otherwise) is in the interest filter of the session, unless it is the
    empty string. *)
Theorem target_entities_are_watched (msg : LiveWs.SubscribeMsg)
    (profile : LiveWs.Profile) (deviceName : string)
    (parsedMappings : option LiveWs.Mappings) (i : nat) (prop eid : string) :
  i ∈ [1; 2; 3] → prop ∈ LiveWs.targetProps →
  LiveWs.resolveTargetEntity parsedMappings deviceName i prop = Some eid →
  eid ≠ "" →
  eid ∈ LiveWs.resolveEntityIds getEntityId getTargetEntities replaceName msg
          profile deviceName parsedMappings false.
Proof.
  intros Hi Hprop Hres Hne.
  set (P := λ ids : list string, eid ∈ ids).
  assert (∀ ids entry, P ids →
            P (LiveWs.addEntity getEntityId replaceName msg deviceName
                 parsedMappings false ids entry)) as Hent.
  { intros ids [k pattern] Hids. unfold LiveWs.addEntity.
    destruct (LiveWs.truthy (if LiveWs.truthy _ then _ else _)); [|done].
    by apply add_mono. }
  assert (∀ j ids p, P ids →
            P (LiveWs.addTarget getTargetEntities msg deviceName
                 parsedMappings false j ids p)) as Htgt.
  { intros j ids p Hids. unfold LiveWs.addTarget.
    destruct (LiveWs.truthy (if LiveWs.truthy _ then _ else _)); [|done].
    by apply add_mono. }
  unfold LiveWs.resolveEntityIds. cbv zeta.
  apply (foldl_preserves P); [done|].
  apply (foldl_reaches P _ _ _ i); [|done|].
  { intros ids j Hids. apply (foldl_preserves P); [|done]. intros. by apply Htgt. }
  intros ids. apply (foldl_reaches P _ _ _ prop); [by intros; apply Htgt|done|].
  intros ids'. unfold P, LiveWs.addTarget. cbn [LiveWs.truthy].
  rewrite Hres. cbn [LiveWs.truthy default].
  rewrite bool_decide_eq_false_2 by done. cbn [negb]. apply add_here.
Qed.
End targets.

(** The entity of the examples is in the filter that the request for [abc]
    resolves to. *)
Lemma target_entities_witness :
  "sensor.abc_target_1_x"
  ∈ LiveWs.resolveEntityIds noEntity noTargets replaceFirst abcRequest
      eplProfile "abc" None false.
Proof.
  apply (target_entities_are_watched noEntity noTargets replaceFirst
           abcRequest eplProfile "abc" None 1 "x" "sensor.abc_target_1_x").
  - set_solver.
  - unfold LiveWs.targetProps. set_solver.
  - vm_compute. reflexivity.
  - discriminate.
Defined.
